(** * OdooSense_V2: the credential-status coordinator of the agent front end

    A shallow embedding of

      - agent_frontend/src/hooks/useCredentials.js   (the cache coordinator),
      - agent_frontend/src/utils/sessionRecovery.js  (the recovery prober),
      - agent_frontend/src/context/ChatContext.js    (the session registry:
        [updateSessionId] and the [UPDATE_SESSION_ID] reducer case),
      - agent_frontend/src/services/api.js           (the three credential
        end points, as requests answered by the environment; a [POST]
        is the JSON object it carries).

    JavaScript's [async] functions are embedded as programs of a small
    resumption monad [Prog]: a program reads and updates the shared state
    ([World]: localStorage, the module-level cache variables of
    useCredentials.js, the React context, pending timers, dispatched window
    events), throws, and suspends at every [await].  The event loop is a
    labelled transition function [step] over a [Machine] holding the world
    and the table of promises.

    Modelling choices:
      - one instance of the hook is followed: its [isMountedRef], the
        closure held by its [checkCredentialsRef] (named by the session
        identifier it captured), its window listeners;
      - a string of localStorage is either the text of a JSON value or a
        text that [JSON.parse] rejects ([StoreItem]);
      - React renders again at some point after a dispatch (action [Render]);
        pending [setTimeout] callbacks fire in any order (action [Fire]);
        a promise that awaits another one resumes in a step of its own
        (action [Join]);
      - the promise of an [async] call that returns a promise settles as
        that promise does, and the two are identified: a call that finds a
        fetch in flight is given the entry of that fetch.
    Every execution of the page is an execution of this machine.

    Also embedded, with properties of their own: [getStoredCredentials],
    [hasAttemptedConfiguration] and the effect run on mount
    (useCredentials.js); [getOrCreateSessionId] and the reducer of the chat
    state (ChatContext.js); the reducer of the authentication state
    (AuthContext.js).

    What is left out: console logging; the per-component React state
    [credentialsStatus], which copies each write to the module-level cache
    when the component is mounted and is not read by any function here (the
    effect run on mount returns what it would assign to it); the cross-tab
    [storage] listener, which schedules the same forced check as the
    [credentialsUpdated] listener; the effects and callbacks of
    [ChatProvider] that persist and restore the conversation, whose order
    with respect to the reducer is decided by React; the asynchronous
    functions of [AuthProvider] and services/authService.js. *)

From stdpp Require Import gmap strings list fin_maps pretty.

Local Open Scope string_scope.
Local Open Scope Z_scope.

(** ** JavaScript values *)

(** Values that travel as JSON: response bodies, credential objects, the
    stored summary.  An object holds each key once.  A number is an
    integer: the numbers that a double holds exactly and that [String]
    prints digit by digit (below 2^53 in absolute value); fractions, [NaN]
    and the infinities are left out; the code embedded here tests
    a number for truthiness and prints it, nothing more. *)
#[warnings="-register-all"]
Inductive json : Type :=
| JNull
| JBool (b : bool)
| JNum (n : Z)
| JStr (s : string)
| JArr (items : list json)
| JObj (fields : list (string * json)).

(** A JavaScript value that may be [undefined]. *)
Abbreviation jsval := (option json).
Abbreviation undefined := (@None json).

(** Truthiness, as [if (v)], [a && b] and [a || b] test it. *)
Definition truthy_json (j : json) : bool :=
  match j with
  | JNull => false
  | JBool b => b
  | JNum n => negb (n =? 0)
  | JStr s => negb (String.eqb s "")
  | JArr _ | JObj _ => true
  end.

Definition truthy (v : jsval) : bool :=
  match v with
  | Some j => truthy_json j
  | None => false
  end.

Fixpoint assoc (key : string) (fields : list (string * json)) : jsval :=
  match fields with
  | [] => None
  | (k, v) :: rest => if String.eqb k key then Some v else assoc key rest
  end.

(** [o.key] for a value [o] that is neither [null] nor [undefined]: own
    properties of objects; none of the keys read by this code base
    ([success], [credentials], [message], [url], [database], [username])
    exists on a string, number, boolean or array. *)
Definition member (o : json) (key : string) : jsval :=
  match o with
  | JObj fields => assoc key fields
  | _ => None
  end.

(** [String(v)], used when a value becomes an [Error] message; for a
    number, its decimal digits. *)
Fixpoint js_String (j : json) : string :=
  match j with
  | JNull => "null"
  | JBool true => "true"
  | JBool false => "false"
  | JNum n => pretty n
  | JStr s => s
  | JArr items =>
      (fix join (l : list json) : string :=
         match l with
         | [] => ""
         | [x] => match x with JNull => "" | _ => js_String x end
         | x :: rest =>
             (match x with JNull => "" | _ => js_String x end) +:+ "," +:+ join rest
         end) items
  | JObj _ => "[object Object]"
  end.

(** Exceptions: the constructor that was thrown and its [message]. *)
Inductive Exn : Type :=
| TypeError (message : string)
| SyntaxError (message : string)
| Error (message : string).

Definition message_of (e : Exn) : string :=
  match e with
  | TypeError m | SyntaxError m | Error m => m
  end.

Inductive Outcome (A : Type) : Type :=
| Resolved (a : A)
| Rejected (e : Exn).
Arguments Resolved {A} a.
Arguments Rejected {A} e.

(** What the promises of this module resolve to. *)
Inductive Value : Type :=
| VBool (b : bool)                                  (* checkCredentials *)
| VUndefined                                        (* clearCredentials *)
| VSaveResult (success : bool) (error : option string).  (* saveCredentials *)

(** ** The shared state *)

(** A string kept in localStorage.  [JsonText j] is the text
    [JSON.stringify(j)], which [JSON.parse] reads back as [j]; [Text s] is
    any other string (a session identifier, a corrupted record), on which
    [JSON.parse] throws. *)
Inductive StoreItem : Type :=
| Text (s : string)
| JsonText (j : json).

(** [{ isConfigured, error }], the value of [globalCredentialStatus]. *)
Record Status : Type := mkStatus {
  isConfigured : bool;
  error : option string
}.

Abbreviation PromiseId := nat.

(** Callbacks handed to [setTimeout] by the registry and by the window
    listeners of the hook. *)
Inductive Timer : Type :=
| BroadcastSessionChange (delay : Z) (newSessionId oldSessionId : string)
| ForcedCheck (delay : Z).

Inductive WindowEvent : Type :=
| credentialsUpdated
| sessionIdChanged (newSessionId oldSessionId : string).

Record World : Type := mkWorld {
  localStorage : gmap string StoreItem;
  (* ChatContext: state.sessionId *)
  chat_sessionId : string;
  (* the hook instance: isMountedRef.current, and the sessionId captured by
     the closure held in checkCredentialsRef.current (its latest render) *)
  isMounted : bool;
  ref_sessionId : string;
  (* the module-level variables of useCredentials.js *)
  globalCredentialCheck : option PromiseId;
  globalCredentialStatus : option Status;
  globalLastCheck : Z;
  globalSessionId : option string;
  (* the browser *)
  timers : list Timer;
  dispatched : list WindowEvent;
  clock : Z
}.

Definition set_localStorage (f : gmap string StoreItem → gmap string StoreItem) (w : World) : World :=
  mkWorld (f (localStorage w)) (chat_sessionId w) (isMounted w) (ref_sessionId w)
          (globalCredentialCheck w) (globalCredentialStatus w) (globalLastCheck w)
          (globalSessionId w) (timers w) (dispatched w) (clock w).

Definition set_chat_sessionId (s : string) (w : World) : World :=
  mkWorld (localStorage w) s (isMounted w) (ref_sessionId w)
          (globalCredentialCheck w) (globalCredentialStatus w) (globalLastCheck w)
          (globalSessionId w) (timers w) (dispatched w) (clock w).

Definition set_isMounted (b : bool) (w : World) : World :=
  mkWorld (localStorage w) (chat_sessionId w) b (ref_sessionId w)
          (globalCredentialCheck w) (globalCredentialStatus w) (globalLastCheck w)
          (globalSessionId w) (timers w) (dispatched w) (clock w).

Definition set_ref_sessionId (s : string) (w : World) : World :=
  mkWorld (localStorage w) (chat_sessionId w) (isMounted w) s
          (globalCredentialCheck w) (globalCredentialStatus w) (globalLastCheck w)
          (globalSessionId w) (timers w) (dispatched w) (clock w).

Definition set_globalCredentialCheck (p : option PromiseId) (w : World) : World :=
  mkWorld (localStorage w) (chat_sessionId w) (isMounted w) (ref_sessionId w)
          p (globalCredentialStatus w) (globalLastCheck w)
          (globalSessionId w) (timers w) (dispatched w) (clock w).

Definition set_globalCredentialStatus (s : option Status) (w : World) : World :=
  mkWorld (localStorage w) (chat_sessionId w) (isMounted w) (ref_sessionId w)
          (globalCredentialCheck w) s (globalLastCheck w)
          (globalSessionId w) (timers w) (dispatched w) (clock w).

Definition set_globalLastCheck (t : Z) (w : World) : World :=
  mkWorld (localStorage w) (chat_sessionId w) (isMounted w) (ref_sessionId w)
          (globalCredentialCheck w) (globalCredentialStatus w) t
          (globalSessionId w) (timers w) (dispatched w) (clock w).

Definition set_globalSessionId (s : option string) (w : World) : World :=
  mkWorld (localStorage w) (chat_sessionId w) (isMounted w) (ref_sessionId w)
          (globalCredentialCheck w) (globalCredentialStatus w) (globalLastCheck w)
          s (timers w) (dispatched w) (clock w).

Definition set_timers (f : list Timer → list Timer) (w : World) : World :=
  mkWorld (localStorage w) (chat_sessionId w) (isMounted w) (ref_sessionId w)
          (globalCredentialCheck w) (globalCredentialStatus w) (globalLastCheck w)
          (globalSessionId w) (f (timers w)) (dispatched w) (clock w).

Definition set_dispatched (f : list WindowEvent → list WindowEvent) (w : World) : World :=
  mkWorld (localStorage w) (chat_sessionId w) (isMounted w) (ref_sessionId w)
          (globalCredentialCheck w) (globalCredentialStatus w) (globalLastCheck w)
          (globalSessionId w) (timers w) (f (dispatched w)) (clock w).

Definition set_clock (t : Z) (w : World) : World :=
  mkWorld (localStorage w) (chat_sessionId w) (isMounted w) (ref_sessionId w)
          (globalCredentialCheck w) (globalCredentialStatus w) (globalLastCheck w)
          (globalSessionId w) (timers w) (dispatched w) t.

(** ** Requests to the remote credential service (services/api.js) *)

(** The own enumerable properties of a value, which an object spread
    [{ ...v }] copies: the fields of an object, the indexed items of an
    array, the indexed characters of a string (of ASCII text: one per
    byte); a number, a boolean and [null] have none. *)
Definition ownProperties (v : json) : list (string * json) :=
  match v with
  | JObj fields => fields
  | JArr items => imap (λ i item, (pretty i, item)) items
  | JStr s => imap (λ i c, (pretty i, JStr (String c EmptyString))) (String.list_ascii_of_string s)
  | _ => []
  end.

(** A request as it leaves the page: the query parameters of a [GET] or a
    [DELETE], the members of the JSON object a [POST] carries. *)
Inductive NetRequest : Type :=
| GetCredentials (session_id : option string)   (* GET    /api/config/credentials *)
| SaveCredentials (body : gmap string json)     (* POST   /api/config/credentials *)
| ClearCredentials (session_id : string).       (* DELETE /api/config/credentials *)

(** The transport either delivers [response.data] or fails with a message. *)
Inductive NetReply : Type :=
| Data (d : json)
| NetworkError (message : string).

(** ** Asynchronous programs *)

Inductive Prog (A : Type) : Type :=
| Ret (a : A)
| Throw (e : Exn)
| Read (k : World → Prog A)
| Modify (f : World → World) (k : Prog A)
| AwaitNet (r : NetRequest) (k : NetReply → Prog A)
| AwaitTimeout (ms : Z) (k : Prog A)
| AwaitCheck (skipCache : bool) (k : Outcome Value → Prog A).
Arguments Ret {A} a.
Arguments Throw {A} e.
Arguments Read {A} k.
Arguments Modify {A} f k.
Arguments AwaitNet {A} r k.
Arguments AwaitTimeout {A} ms k.
Arguments AwaitCheck {A} skipCache k.

Fixpoint bind {A B : Type} (p : Prog A) (g : A → Prog B) : Prog B :=
  match p with
  | Ret a => g a
  | Throw e => Throw e
  | Read k => Read (λ w, bind (k w) g)
  | Modify f k => Modify f (bind k g)
  | AwaitNet r k => AwaitNet r (λ x, bind (k x) g)
  | AwaitTimeout ms k => AwaitTimeout ms (bind k g)
  | AwaitCheck s k => AwaitCheck s (λ x, bind (k x) g)
  end.

#[export] Instance Prog_ret : MRet Prog := @Ret.
#[export] Instance Prog_bind : MBind Prog := λ A B g p, bind p g.

(** [try { p } catch (e) { h e }] *)
Fixpoint try_catch {A : Type} (p : Prog A) (h : Exn → Prog A) : Prog A :=
  match p with
  | Ret a => Ret a
  | Throw e => h e
  | Read k => Read (λ w, try_catch (k w) h)
  | Modify f k => Modify f (try_catch k h)
  | AwaitNet r k => AwaitNet r (λ x, try_catch (k x) h)
  | AwaitTimeout ms k => AwaitTimeout ms (try_catch k h)
  | AwaitCheck s k => AwaitCheck s (λ x, try_catch (k x) h)
  end.

(** [try { p } finally { fin }], for a [finally] block that only assigns. *)
Fixpoint try_finally {A : Type} (p : Prog A) (fin : World → World) : Prog A :=
  match p with
  | Ret a => Modify fin (Ret a)
  | Throw e => Modify fin (Throw e)
  | Read k => Read (λ w, try_finally (k w) fin)
  | Modify f k => Modify f (try_finally k fin)
  | AwaitNet r k => AwaitNet r (λ x, try_finally (k x) fin)
  | AwaitTimeout ms k => AwaitTimeout ms (try_finally k fin)
  | AwaitCheck s k => AwaitCheck s (λ x, try_finally (k x) fin)
  end.

Definition update (f : World → World) : Prog unit := Modify f (Ret tt).
Definition ask {A : Type} (f : World → A) : Prog A := Read (λ w, Ret (f w)).

(** Where a program stands after running as far as it can without
    yielding to the event loop. *)
Inductive Pause (A : Type) : Type :=
| Finished (o : Outcome A)
| OnNet (r : NetRequest) (k : NetReply → Prog A)
| OnTimeout (ms : Z) (k : Prog A)
| OnCheck (skipCache : bool) (k : Outcome Value → Prog A).
Arguments Finished {A} o.
Arguments OnNet {A} r k.
Arguments OnTimeout {A} ms k.
Arguments OnCheck {A} skipCache k.

Fixpoint advance {A : Type} (p : Prog A) (w : World) : World * Pause A :=
  match p with
  | Ret a => (w, Finished (Resolved a))
  | Throw e => (w, Finished (Rejected e))
  | Read k => advance (k w) w
  | Modify f k => advance k (f w)
  | AwaitNet r k => (w, OnNet r k)
  | AwaitTimeout ms k => (w, OnTimeout ms k)
  | AwaitCheck s k => (w, OnCheck s k)
  end.

(** ** localStorage, JSON, Date *)

Definition getItem (key : string) : Prog (option StoreItem) :=
  ask (λ w, localStorage w !! key).

Definition setItem (key : string) (value : StoreItem) : Prog unit :=
  update (set_localStorage <[key := value]>).

Definition removeItem (key : string) : Prog unit :=
  update (set_localStorage (delete key)).

(** [if (item)] for the result of [getItem]: [null] and the empty string
    are falsy. *)
Definition truthy_item (item : option StoreItem) : bool :=
  match item with
  | None => false
  | Some (Text s) => negb (String.eqb s "")
  | Some (JsonText _) => true
  end.

Definition JSON_parse (item : StoreItem) : Prog json :=
  match item with
  | JsonText j => Ret j
  | Text s => Throw (SyntaxError "Unexpected token in JSON")
  end.

(** The object literal [{ url: .., database: .., username: .. }] as
    [JSON.stringify] writes it: a property whose value is [undefined] is
    left out. *)
Definition present (field : string * jsval) : option (string * json) :=
  match field with
  | (k, Some v) => Some (k, v)
  | (_, None) => None
  end.

Definition credentialSummary (url database username : jsval) : json :=
  JObj (omap present [("url", url); ("database", database); ("username", username)]).

Definition Date_now : Prog Z := ask clock.

(** [o[key]]: reading a property of [null] or [undefined] throws. *)
Definition get (o : jsval) (key : string) : Prog jsval :=
  match o with
  | None => Throw (TypeError ("Cannot read properties of undefined (reading '" +:+ key +:+ "')"))
  | Some JNull => Throw (TypeError ("Cannot read properties of null (reading '" +:+ key +:+ "')"))
  | Some j => Ret (member j key)
  end.

(** ** services/api.js *)

Definition getOdooCredentials (sessionId : string) : Prog json :=
  let params := if negb (String.eqb sessionId "") then Some sessionId else None in
  AwaitNet (GetCredentials params) (λ response,
    match response with
    | Data d => Ret d
    | NetworkError m => Throw (Error ("Failed to get Odoo credentials: " +:+ m))
    end).

(** [{ session_id: sessionId, ...credentials }] (lines 235-238): the
    properties of [credentials] come last, so that one of them named
    [session_id] replaces the identifier of the caller. *)
Definition saveBody (sessionId : string) (credentials : json) : gmap string json :=
  list_to_map (ownProperties credentials) ∪ {["session_id" := JStr sessionId]}.

Definition saveOdooCredentials (sessionId : string) (credentials : json) : Prog json :=
  AwaitNet (SaveCredentials (saveBody sessionId credentials)) (λ response,
    match response with
    | Data d => Ret d
    | NetworkError m => Throw (Error ("Failed to save Odoo credentials: " +:+ m))
    end).

Definition clearOdooCredentials (sessionId : string) : Prog json :=
  AwaitNet (ClearCredentials sessionId) (λ response,
    match response with
    | Data d => Ret d
    | NetworkError m => Throw (Error ("Failed to clear Odoo credentials: " +:+ m))
    end).

(** [check.success && check.credentials], as a condition. *)
Definition hasCredentials (check : json) : Prog bool :=
  success ← get (Some check) "success";
  if truthy success then
    credentials ← get (Some check) "credentials";
    Ret (truthy credentials)
  else Ret false.

(** ** The window listeners of the hook (useCredentials.js, 302-347) *)

Definition setTimeout (t : Timer) (w : World) : World :=
  set_timers (λ l, (l ++ [t])%list) w.

Definition clearGlobalCache (w : World) : World :=
  set_globalLastCheck 0 (set_globalCredentialStatus None (set_globalCredentialCheck None w)).

Definition handleCredentialsUpdate (w : World) : World :=
  setTimeout (ForcedCheck 100) w.

Definition handleSessionIdChange (newSessionId : string) (w : World) : World :=
  setTimeout (ForcedCheck 200) (set_globalSessionId (Some newSessionId) (clearGlobalCache w)).

(** [window.dispatchEvent]: the listeners run synchronously; they are
    registered while the hook is mounted. *)
Definition dispatchEvent (e : WindowEvent) (w : World) : World :=
  let w := set_dispatched (λ l, (l ++ [e])%list) w in
  if isMounted w then
    match e with
    | credentialsUpdated => handleCredentialsUpdate w
    | sessionIdChanged newSessionId _ => handleSessionIdChange newSessionId w
    end
  else w.

(** ** ChatContext.js: the session registry *)

(** [case 'UPDATE_SESSION_ID': return { ...state, sessionId: action.payload }] *)
Definition chatReducer_UPDATE_SESSION_ID (payload : string) (w : World) : World :=
  set_chat_sessionId payload w.

(** [updateSessionId], a closure over [state.sessionId]. *)
Definition updateSessionId (state_sessionId : string) (newSessionId : string) : Prog unit :=
  setItem "odoo_session_id" (Text newSessionId);;
  update (chatReducer_UPDATE_SESSION_ID newSessionId);;
  update (setTimeout (BroadcastSessionChange 100 newSessionId state_sessionId)).

(** ** utils/sessionRecovery.js *)

(** [{ found: false }] or [{ found: true, sessionId, credentials }]. *)
Inductive Found : Type :=
| notFound
| foundIn (sessionId : string) (credentials : jsval).

Fixpoint includes (needle hay : string) : bool :=
  String.prefix needle hay ||
  match hay with
  | EmptyString => false
  | String _ rest => includes needle rest
  end.

(** [Object.keys(localStorage).filter(key => key.includes('session') ||
    key.includes('odoo'))]; the result is only logged. *)
Definition sessionHints (w : World) : list string :=
  filter (λ key, includes "session" key || includes "odoo" key = true)
         (elements (dom (localStorage w))).

Definition commonSessions : list string :=
  [ "8428094f-8aeb-4bad-aa6d-6a838a3c9192";
    "fc208a99-36eb-4b0f-9e9a-b49cd882b943" ].

(** The [for (const testSession of commonSessions)] loop. *)
Fixpoint testSessions (currentSessionId : string) (sessions : list string) : Prog Found :=
  match sessions with
  | [] => Ret notFound
  | testSession :: rest =>
      if negb (String.eqb testSession currentSessionId) then
        hit ← try_catch
                 (testCheck ← getOdooCredentials testSession;
                  ok ← hasCredentials testCheck;
                  if (ok : bool) then
                    credentials ← get (Some testCheck) "credentials";
                    Ret (Some (foundIn testSession credentials))
                  else Ret None)
                 (λ _, Ret None);
        match hit with
        | Some result => Ret result
        | None => testSessions currentSessionId rest
        end
      else testSessions currentSessionId rest
  end.

Definition findAvailableSession (currentSessionId : string) : Prog Found :=
  try_catch
    (currentCheck ← getOdooCredentials currentSessionId;
     ok ← hasCredentials currentCheck;
     if (ok : bool) then
       credentials ← get (Some currentCheck) "credentials";
       Ret (foundIn currentSessionId credentials)
     else
       _ ← ask sessionHints;
       testSessions currentSessionId commonSessions)
    (λ _, Ret notFound).

Definition recoverSession (currentSessionId : string)
    (updateSessionId : string → Prog unit) : Prog bool :=
  result ← findAvailableSession currentSessionId;
  match result with
  | foundIn sessionId credentials =>
      if negb (String.eqb sessionId currentSessionId) then
        updateSessionId sessionId;;
        url ← get credentials "url";
        database ← get credentials "database";
        username ← get credentials "username";
        setItem "odoo_credentials" (JsonText (credentialSummary url database username));;
        update (dispatchEvent credentialsUpdated);;
        Ret true
      else Ret false
  | notFound => Ret false
  end.

(** ** hooks/useCredentials.js *)

Definition cacheExpiry : Z := 5 * 60 * 1000.

Definition requiredFields : list string := ["url"; "database"; "username"].

(** [fields.every(test)] *)
Fixpoint every (fields : list string) (test : string → Prog bool) : Prog bool :=
  match fields with
  | [] => Ret true
  | field :: rest => b ← test field; if (b : bool) then every rest test else Ret false
  end.

(** [globalCredentialStatus = newStatus; globalLastCheck = now;] *)
Definition setGlobalStatus (newStatus : Status) (now : Z) (w : World) : World :=
  set_globalLastCheck now (set_globalCredentialStatus (Some newStatus) w).

(** The block guarded by [if (localCredentials)] (lines 93-152): [Some b]
    when it [return]s [b], [None] when control falls through to line 154. *)
Definition checkLocalCredentials (sessionId : string) (now : Z)
    (localCredentials : option StoreItem) : Prog (option bool) :=
  match localCredentials with
  | Some item =>
      if truthy_item localCredentials then
        try_catch
          (parsedCredentials ← JSON_parse item;
           hasAllFields ← every requiredFields (λ field,
             v ← get (Some parsedCredentials) field; Ret (truthy v));
           if (hasAllFields : bool) then
             credentialCheck ← getOdooCredentials sessionId;
             ok ← hasCredentials credentialCheck;
             if (ok : bool) then
               update (setGlobalStatus (mkStatus true None) now);;
               Ret (Some true)
             else
               removeItem "odoo_credentials";;
               update (setGlobalStatus
                         (mkStatus false (Some "Session expired - please re-enter credentials")) now);;
               Ret (Some false)
           else
             removeItem "odoo_credentials";;
             Ret None)
          (λ parseError, removeItem "odoo_credentials";; Ret None)
      else Ret None
  | None => Ret None
  end.

(** The body of the promise stored in [globalCredentialCheck] (lines
    88-250), for the [sessionId] and [now] captured by the call. *)
Definition fetchCredentials (sessionId : string) (now : Z) : Prog Value :=
  try_finally
    (try_catch
       (localCredentials ← getItem "odoo_credentials";
        returned ← checkLocalCredentials sessionId now localCredentials;
        match returned with
        | Some b => Ret (VBool b)
        | None =>
            credentialCheck ← getOdooCredentials sessionId;
            ok ← hasCredentials credentialCheck;
            if (ok : bool) then
              credentials ← get (Some credentialCheck) "credentials";
              url ← get credentials "url";
              database ← get credentials "database";
              username ← get credentials "username";
              setItem "odoo_credentials" (JsonText (credentialSummary url database username));;
              update (setGlobalStatus (mkStatus true None) now);;
              Ret (VBool true)
            else
              recoverySuccessful ← recoverSession sessionId (updateSessionId sessionId);
              if (recoverySuccessful : bool) then
                update clearGlobalCache;;
                AwaitTimeout 500
                  (AwaitCheck true (λ settled,
                     match settled with
                     | Resolved v => Ret v
                     | Rejected e => Throw e
                     end))
              else
                update (setGlobalStatus (mkStatus false None) now);;
                Ret (VBool false)
        end)
       (λ error,
          update (setGlobalStatus (mkStatus false (Some "Failed to check credentials")) now);;
          Ret (VBool false)))
    (set_globalCredentialCheck None).

(** [saveCredentials] (lines 389-433). *)
Definition saveCredentials (sessionId : string) (credentials : json) : Prog Value :=
  try_catch
    (url ← get (Some credentials) "url";
     database ← get (Some credentials) "database";
     username ← get (Some credentials) "username";
     setItem "odoo_credentials" (JsonText (credentialSummary url database username));;
     saveResult ← saveOdooCredentials sessionId credentials;
     success ← get (Some saveResult) "success";
     if truthy success then
       update (set_globalCredentialCheck None);;
       update (set_globalCredentialStatus (Some (mkStatus true None)));;
       t ← Date_now;
       update (set_globalLastCheck t);;
       update (dispatchEvent credentialsUpdated);;
       Ret (VSaveResult true None)
     else
       message ← get (Some saveResult) "message";
       Throw (Error (match message with
                     | Some m => if truthy_json m then js_String m
                                 else "Failed to save credentials on server"
                     | None => "Failed to save credentials on server"
                     end)))
    (λ error,
       Ret (VSaveResult false
              (Some (if String.eqb (message_of error) "" then "Failed to save credentials"
                     else message_of error)))).

(** [clearCredentials] (lines 436-461). *)
Definition clearCredentials (sessionId : string) : Prog Value :=
  try_catch (clearOdooCredentials sessionId;; Ret tt) (λ error, Ret tt);;
  removeItem "odoo_credentials";;
  update (set_globalCredentialCheck None);;
  update (set_globalCredentialStatus (Some (mkStatus false None)));;
  t ← Date_now;
  update (set_globalLastCheck t);;
  Ret VUndefined.

(** ** The event loop *)

(** A promise of the table: still paused at an [await], waiting for another
    promise of the table to settle, or (as [Paused (Finished o)]) settled. *)
Inductive Strand : Type :=
| Paused (at_ : Pause Value)
| Joining (awaited : PromiseId) (k : Outcome Value → Prog Value).

(** [depth] is bookkeeping for the proofs: 0 for a promise made by a call
    from outside, [S d] for one made by the re-check of a promise of depth
    [d] (line 203). *)
Record Entry : Type := mkEntry {
  depth : nat;
  strand : Strand
}.

Record Machine : Type := mkMachine {
  world : World;
  promises : list Entry;
  (* every request handed to the transport so far, oldest first *)
  requests : list NetRequest
}.

Definition with_world (w : World) (m : Machine) : Machine :=
  mkMachine w (promises m) (requests m).

Definition requested {A : Type} (at_ : Pause A) : list NetRequest :=
  match at_ with
  | OnNet r _ => [r]
  | _ => []
  end.

(** A new promise running [p]: its body runs at once, up to its first
    [await]. *)
Definition spawn (d : nat) (p : Prog Value) (m : Machine) : Machine * PromiseId :=
  let '(w, at_) := advance p (world m) in
  (mkMachine w (promises m ++ [mkEntry d (Paused at_)]) (requests m ++ requested at_),
   length (promises m)).

(** [Promise.resolve(v)], and the promise of an [async] function that
    returns [v] without awaiting. *)
Definition resolved (v : Value) (m : Machine) : Machine * PromiseId :=
  spawn 0 (Ret v) m.

Definition sessionChanged (w : World) (sessionId : string) : bool :=
  match globalSessionId w with
  | Some g => negb (String.eqb g "") && negb (String.eqb g sessionId)
  | None => false
  end.

(** The cache test of lines 59-61; [Some status] when the cache is used. *)
Definition cachedStatus (skipCache : bool) (now : Z) (w : World) : option Status :=
  if negb skipCache && negb (globalLastCheck w =? 0)
     && (now - globalLastCheck w <? cacheExpiry)
  then globalCredentialStatus w
  else None.

(** Lines 42-48: a call for another session than the tracked one clears
    the global cache; the session of the call becomes the tracked one. *)
Definition trackSession (sessionId : string) (w : World) : World :=
  set_globalSessionId (Some sessionId)
    (if sessionChanged w sessionId then clearGlobalCache w else w).

(** [checkCredentials(skipCache)] of a closure that captured [sessionId]
    (lines 38-253); the result is the promise the caller ends up awaiting. *)
Definition checkCredentials (d : nat) (sessionId : string) (skipCache : bool)
    (m : Machine) : Machine * PromiseId :=
  let w := trackSession sessionId (world m) in
  match globalCredentialCheck w with
  | Some inflight => (with_world w m, inflight)
  | None =>
      let now := clock w in
      match cachedStatus skipCache now w with
      | Some status => resolved (VBool (isConfigured status)) (with_world w m)
      | None =>
          let '(m', p) := spawn d (fetchCredentials sessionId now) (with_world w m) in
          (with_world (set_globalCredentialCheck (Some p) (world m')) m', p)
      end
  end.

(** [refreshCredentials()] of a closure that captured [sessionId] (lines
    350-363); [checkCredentialsRef.current] is the closure of the latest
    render. *)
Definition refreshCredentials (sessionId : string) (m : Machine) : Machine * PromiseId :=
  let w := world m in
  if isMounted w then
    let w := set_globalSessionId (Some sessionId) (clearGlobalCache w) in
    checkCredentials 0 (ref_sessionId w) true (with_world w m)
  else resolved (VBool false) m.

Definition set_entry (p : PromiseId) (s : Strand) (m : Machine) : Machine :=
  mkMachine (world m)
            (alter (λ e, mkEntry (depth e) s) p (promises m))
            (requests m).

(** Line 203, [checkCredentialsRef.current(true)], made by promise [p]. *)
Definition recheck (p : PromiseId) (d : nat) (skipCache : bool)
    (k : Outcome Value → Prog Value) (m : Machine) : Machine :=
  let '(m', awaited) := checkCredentials (S d) (ref_sessionId (world m)) skipCache m in
  set_entry p (Joining awaited k) m'.

(** Promise [p] continues with [body] until its next [await]. *)
Definition resume (p : PromiseId) (d : nat) (body : Prog Value) (m : Machine) : Machine :=
  let '(w, at_) := advance body (world m) in
  let m' := mkMachine w (promises m) (requests m ++ requested at_) in
  match at_ with
  | OnCheck skipCache k => recheck p d skipCache k m'
  | _ => set_entry p (Paused at_) m'
  end.

(** What the environment can do. *)
Inductive Action : Type :=
(* consumers of the hook and of the context *)
| CallCheck (sessionId : string) (skipCache : bool)
| CallRefresh (sessionId : string)
| CallSave (sessionId : string) (credentials : json)
| CallClear (sessionId : string)
| CallUpdateSessionId (state_sessionId newSessionId : string)
(* the transport answers the request promise [p] waits for *)
| Respond (p : PromiseId) (reply : NetReply)
(* the timeout promise [p] waits for elapses *)
| Elapse (p : PromiseId)
(* promise [p] sees the promise it awaits settled *)
| Join (p : PromiseId)
(* promise [p], paused just before a re-check, makes it *)
| Invoke (p : PromiseId)
(* the [i]-th pending [setTimeout] callback runs *)
| Fire (i : nat)
(* React renders the hook again, or unmounts it *)
| Render
| Unmount
(* time passes *)
| Tick (ms : Z).

Definition fire (t : Timer) (m : Machine) : Machine :=
  match t with
  | BroadcastSessionChange _ newSessionId oldSessionId =>
      with_world (dispatchEvent (sessionIdChanged newSessionId oldSessionId) (world m)) m
  | ForcedCheck _ =>
      if isMounted (world m)
      then fst (checkCredentials 0 (ref_sessionId (world m)) true m)
      else m
  end.

Definition step (a : Action) (m : Machine) : option Machine :=
  match a with
  | CallCheck sessionId skipCache => Some (fst (checkCredentials 0 sessionId skipCache m))
  | CallRefresh sessionId => Some (fst (refreshCredentials sessionId m))
  | CallSave sessionId credentials => Some (fst (spawn 0 (saveCredentials sessionId credentials) m))
  | CallClear sessionId => Some (fst (spawn 0 (clearCredentials sessionId) m))
  | CallUpdateSessionId state_sessionId newSessionId =>
      Some (with_world (fst (advance (updateSessionId state_sessionId newSessionId) (world m))) m)
  | Respond p reply =>
      match promises m !! p with
      | Some (mkEntry d (Paused (OnNet _ k))) => Some (resume p d (k reply) m)
      | _ => None
      end
  | Elapse p =>
      match promises m !! p with
      | Some (mkEntry d (Paused (OnTimeout _ k))) => Some (resume p d k m)
      | _ => None
      end
  | Join p =>
      match promises m !! p with
      | Some (mkEntry d (Joining awaited k)) =>
          match promises m !! awaited with
          | Some (mkEntry _ (Paused (Finished o))) => Some (resume p d (k o) m)
          | _ => None
          end
      | _ => None
      end
  | Invoke p =>
      match promises m !! p with
      | Some (mkEntry d (Paused (OnCheck skipCache k))) => Some (recheck p d skipCache k m)
      | _ => None
      end
  | Fire i =>
      match timers (world m) !! i with
      | Some t => Some (fire t (with_world (set_timers (delete i) (world m)) m))
      | None => None
      end
  | Render =>
      Some (if isMounted (world m)
            then with_world (set_ref_sessionId (chat_sessionId (world m)) (world m)) m
            else m)
  | Unmount => Some (with_world (set_isMounted false (world m)) m)
  | Tick ms => Some (with_world (set_clock (clock (world m) + ms) (world m)) m)
  end.

Fixpoint run (actions : list Action) (m : Machine) : option Machine :=
  match actions with
  | [] => Some m
  | a :: rest =>
      match step a m with
      | Some m' => run rest m'
      | None => None
      end
  end.

(** The machine after [actions], or [m] itself when one of them is not
    enabled. *)
Definition after (actions : list Action) (m : Machine) : Machine :=
  default m (run actions m).

(** A freshly loaded page: nothing stored but the session identifier, the
    hook mounted, nothing cached, nothing in flight. *)
Definition freshWorld (sessionId : string) (now : Z) : World :=
  mkWorld {["odoo_session_id" := Text sessionId]} sessionId true sessionId
          None None 0 None [] [] now.

Definition boot (sessionId : string) (now : Z) : Machine :=
  mkMachine (freshWorld sessionId now) [] [].

(** The settled value of a promise, if it has settled. *)
Definition settled (m : Machine) (p : PromiseId) : option (Outcome Value) :=
  match promises m !! p with
  | Some (mkEntry _ (Paused (Finished o))) => Some o
  | _ => None
  end.

Definition inFlight (m : Machine) (p : PromiseId) : bool :=
  match promises m !! p with
  | Some (mkEntry _ (Paused (Finished _))) => false
  | Some _ => true
  | None => false
  end.

(** ** Every run of a program *)

(** What a program does between its start and its end. *)
Inductive Event : Type :=
| Wrote (f : World → World)
| Asked (r : NetRequest) (reply : NetReply)
| Slept (ms : Z)
| Rechecked (skipCache : bool) (o : Outcome Value).

(** [always p Q]: along every run of [p] (whatever the world holds each
    time it is read, whatever the transport replies, however the re-check
    settles), the events [t] of the run and its outcome [o] satisfy
    [Q t o]. *)
Fixpoint always {A : Type} (p : Prog A) (Q : list Event → Outcome A → Prop) : Prop :=
  match p with
  | Ret a => Q [] (Resolved a)
  | Throw e => Q [] (Rejected e)
  | Read k => ∀ w, always (k w) Q
  | Modify f k => always k (λ t o, Q (Wrote f :: t) o)
  | AwaitNet r k => ∀ reply, always (k reply) (λ t o, Q (Asked r reply :: t) o)
  | AwaitTimeout ms k => always k (λ t o, Q (Slept ms :: t) o)
  | AwaitCheck s k => ∀ x, always (k x) (λ t o, Q (Rechecked s x :: t) o)
  end.

Definition asks (t : list Event) : list (NetRequest * NetReply) :=
  omap (λ e, match e with Asked r x => Some (r, x) | _ => None end) t.

Definition writes (t : list Event) : list (World → World) :=
  omap (λ e, match e with Wrote f => Some f | _ => None end) t.

Definition rechecks (t : list Event) : list bool :=
  omap (λ e, match e with Rechecked s _ => Some s | _ => None end) t.

(** The request [getOdooCredentials(sessionId)] sends. *)
Definition requestFor (sessionId : string) : NetRequest :=
  GetCredentials (if negb (String.eqb sessionId "") then Some sessionId else None).

(** The credentials a reply confirms: the test
    [check.success && check.credentials] passes on its data. *)
Definition confirmed (reply : NetReply) : option jsval :=
  match reply with
  | Data JNull => None
  | Data d =>
      if truthy (member d "success") && truthy (member d "credentials")
      then Some (member d "credentials")
      else None
  | NetworkError _ => None
  end.

(** A reply on which the caller throws: the transport failed, or the body
    is [null]. *)
Definition broken (reply : NetReply) : bool :=
  match reply with
  | Data JNull => true
  | Data _ => false
  | NetworkError _ => true
  end.

(** The identifiers the prober may try for [currentSessionId], in order:
    the current one, then the literals of [commonSessions] other than it. *)
Definition candidates (currentSessionId : string) : list string :=
  currentSessionId ::
  List.filter (λ s, negb (String.eqb s currentSessionId)) commonSessions.

(** What the prober reports after the replies [replies] to its requests for
    the candidates [tried], judged by the last of them. *)
Definition verdict (tried : list string) (replies : list NetReply) : Found :=
  match last tried, last replies with
  | Some c, Some x =>
      match confirmed x with
      | Some credentials => foundIn c credentials
      | None => notFound
      end
  | _, _ => notFound
  end.

(** A run [t] with outcome [o] is a probe of the candidates [cands]: it
    writes nothing and re-checks nothing, asks for a prefix of [cands] in
    order, no reply but the last confirms credentials, and the outcome is
    the verdict on the last reply. *)
Definition probed (cands : list string) (t : list Event) (o : Outcome Found) : Prop :=
  let tried := take (length (asks t)) cands in
  writes t = [] ∧ rechecks t = [] ∧
  (length (asks t) ≤ length cands)%nat ∧
  (asks t).*1 = requestFor <$> tried ∧
  (∀ i r x, asks t !! i = Some (r, x) → is_Some (confirmed x) → S i = length (asks t)) ∧
  o = Resolved (verdict tried ((asks t).*2)).

(** ** Running a program with nothing else going on *)

(** The remote service as seen from the page: the reply to a request, given
    the requests made before it. *)
Definition Remote : Type := list NetRequest → NetRequest → NetReply.

(** [exec remote p w log] runs [p] from [w], answering each request at once
    from [remote] and letting each timeout elapse, up to the end of [p] or
    to its re-check.  It returns the world, the requests made, and where
    [p] stands. *)
Fixpoint exec {A : Type} (remote : Remote) (p : Prog A) (w : World)
    (log : list NetRequest) : World * list NetRequest * Pause A :=
  match p with
  | Ret a => (w, log, Finished (Resolved a))
  | Throw e => (w, log, Finished (Rejected e))
  | Read k => exec remote (k w) w log
  | Modify f k => exec remote k (f w) log
  | AwaitNet r k => exec remote (k (remote log r)) w (log ++ [r])%list
  | AwaitTimeout ms k => exec remote k w log
  | AwaitCheck s k => (w, log, OnCheck s k)
  end.

(** A service that holds credentials for the sessions of [holders] only. *)
Definition sampleCredentials : json :=
  JObj [("url", JStr "https://x"); ("database", JStr "d"); ("username", JStr "u")].

Definition holding (holders : list string) : Remote :=
  λ _ r,
    match r with
    | GetCredentials (Some s) =>
        if bool_decide (s ∈ holders)
        then Data (JObj [("success", JBool true); ("credentials", sampleCredentials)])
        else Data (JObj [("success", JBool false)])
    | _ => Data (JObj [("success", JBool false)])
    end.

(** The assignments of a successful recovery, in order: [updateSessionId]
    (stored identifier, context identifier, scheduled broadcast), the stored
    summary of the credentials object [j], and the [credentialsUpdated]
    event. *)
Definition rotation (oldSessionId newSessionId : string) (j : json) : list (World → World) :=
  [ set_localStorage <["odoo_session_id" := Text newSessionId]>;
    chatReducer_UPDATE_SESSION_ID newSessionId;
    setTimeout (BroadcastSessionChange 100 newSessionId oldSessionId);
    set_localStorage
      <["odoo_credentials" :=
          JsonText (credentialSummary (member j "url") (member j "database")
                                      (member j "username"))]>;
    dispatchEvent credentialsUpdated ].

(** ** The runs of [recoverSession] and of the fetch *)

(** [Recovery sid t b]: [t] is a run of [recoverSession] for the current
    identifier [sid] that returns [b]. *)
Definition Recovery (sid : string) (t : list Event) (b : bool) : Prop :=
  rechecks t = [] ∧ (length (asks t) ≤ 3)%nat ∧
  ((b = false ∧ writes t = []) ∨
   (∃ c x j,
      c ≠ sid ∧
      last (asks t) = Some (requestFor c, x) ∧
      confirmed x = Some (Some j) ∧
      b = true ∧
      writes t = rotation sid c j)).

Definition discardSummary : World → World :=
  set_localStorage (delete "odoo_credentials").

Definition storeSummary (j : json) : World → World :=
  set_localStorage
    <["odoo_credentials" :=
        JsonText (credentialSummary (member j "url") (member j "database")
                                    (member j "username"))]>.

Definition sessionExpired : Status :=
  mkStatus false (Some "Session expired - please re-enter credentials").

Definition checkFailed : Status :=
  mkStatus false (Some "Failed to check credentials").

(** The runs of lines 91-152 that fall through to line 154: no usable
    summary is stored; or the stored one is malformed or incomplete and is
    discarded; or it is well-formed, the request made on its behalf fails,
    and it is discarded. *)
Inductive LocalPart (sid : string) : list Event → Prop :=
| local_absent :
    LocalPart sid []
| local_discarded :
    LocalPart sid [Wrote discardSummary]
| local_failed x :
    broken x = true →
    LocalPart sid [Asked (requestFor sid) x; Wrote discardSummary].

(** The runs of the fetch started for [sid] at time [now], with their
    results. *)
Inductive FetchRun (sid : string) (now : Z) : list Event → Outcome Value → Prop :=
| fetch_local_confirmed x :
    is_Some (confirmed x) →
    FetchRun sid now
      [Asked (requestFor sid) x;
       Wrote (setGlobalStatus (mkStatus true None) now);
       Wrote (set_globalCredentialCheck None)]
      (Resolved (VBool true))
| fetch_local_expired x :
    broken x = false → confirmed x = None →
    FetchRun sid now
      [Asked (requestFor sid) x;
       Wrote discardSummary;
       Wrote (setGlobalStatus sessionExpired now);
       Wrote (set_globalCredentialCheck None)]
      (Resolved (VBool false))
| fetch_failed pre x :
    LocalPart sid pre → broken x = true →
    FetchRun sid now
      (pre ++ [Asked (requestFor sid) x;
               Wrote (setGlobalStatus checkFailed now);
               Wrote (set_globalCredentialCheck None)])%list
      (Resolved (VBool false))
| fetch_confirmed pre x j :
    LocalPart sid pre → confirmed x = Some (Some j) →
    FetchRun sid now
      (pre ++ [Asked (requestFor sid) x;
               Wrote (storeSummary j);
               Wrote (setGlobalStatus (mkStatus true None) now);
               Wrote (set_globalCredentialCheck None)])%list
      (Resolved (VBool true))
| fetch_unrecovered pre x tr :
    LocalPart sid pre → broken x = false → confirmed x = None →
    Recovery sid tr false →
    FetchRun sid now
      (pre ++ Asked (requestFor sid) x :: tr ++
         [Wrote (setGlobalStatus (mkStatus false None) now);
          Wrote (set_globalCredentialCheck None)])%list
      (Resolved (VBool false))
| fetch_rechecked pre x tr v :
    LocalPart sid pre → broken x = false → confirmed x = None →
    Recovery sid tr true →
    FetchRun sid now
      (pre ++ Asked (requestFor sid) x :: tr ++
         [Wrote clearGlobalCache; Slept 500; Rechecked true (Resolved v);
          Wrote (set_globalCredentialCheck None)])%list
      (Resolved v)
| fetch_recheck_rejected pre x tr e :
    LocalPart sid pre → broken x = false → confirmed x = None →
    Recovery sid tr true →
    FetchRun sid now
      (pre ++ Asked (requestFor sid) x :: tr ++
         [Wrote clearGlobalCache; Slept 500; Rechecked true (Rejected e);
          Wrote (setGlobalStatus checkFailed now);
          Wrote (set_globalCredentialCheck None)])%list
      (Resolved (VBool false)).

(** Sample replies of the credential end point. *)
Definition credentialsFound : NetReply :=
  Data (JObj [("success", JBool true); ("credentials", sampleCredentials)]).

Definition credentialsMissing : NetReply :=
  Data (JObj [("success", JBool false)]).

(** ** The stored summary *)

(** The credentials objects that the replies of a run confirmed. *)
Definition confirmedIn (t : list Event) : list json :=
  omap (λ e, match e with
             | Asked _ x => match confirmed x with Some (Some j) => Some j | _ => None end
             | _ => None
             end) t.

(** An assignment that leaves the entry ['odoo_credentials'] of localStorage
    as it is, removes it, or sets it to the summary of one of [sources]:
    the object made of its [url], its [database] and its [username], each
    under its own name. *)
Definition writesSummaryOf (sources : list json) (f : World → World) : Prop :=
  ∀ w,
    localStorage (f w) !! "odoo_credentials" = localStorage w !! "odoo_credentials" ∨
    localStorage (f w) !! "odoo_credentials" = None ∨
    ∃ j, j ∈ sources ∧
         localStorage (f w) !! "odoo_credentials"
         = Some (JsonText (credentialSummary (member j "url") (member j "database")
                                             (member j "username"))).

(** A credentials object with every property but [url], [database] and
    [username] taken out, and a reply whose [credentials] are so reduced:
    what the service would answer if it kept the password, and anything
    else, to itself. *)
Definition summaryField (key : string) : bool :=
  bool_decide (key ∈ requiredFields).

Definition redactCredentials (credentials : json) : json :=
  match credentials with
  | JObj fields => JObj (List.filter (λ field, summaryField field.1) fields)
  | _ => credentials
  end.

Definition redactData (d : json) : json :=
  match d with
  | JObj fields =>
      JObj (map (λ field, if String.eqb field.1 "credentials"
                          then (field.1, redactCredentials field.2) else field) fields)
  | _ => d
  end.

Definition redact (reply : NetReply) : NetReply :=
  match reply with
  | Data d => Data (redactData d)
  | NetworkError m => NetworkError m
  end.

(** [similar R p p']: [p], given the reduced reply wherever [p'] is given
    the reply itself, goes through the same steps as [p']: the same
    requests, the same assignments, the same waits, in the same order, to
    the same exception or to results related by [R]. *)
Fixpoint similar {A A' : Type} (R : A → A' → Prop) (p : Prog A) (p' : Prog A') : Prop :=
  match p, p' with
  | Ret a, Ret a' => R a a'
  | Throw e, Throw e' => e = e'
  | Read k, Read k' => ∀ w, similar R (k w) (k' w)
  | Modify f k, Modify f' k' => f = f' ∧ similar R k k'
  | AwaitNet r k, AwaitNet r' k' => r = r' ∧ ∀ x, similar R (k (redact x)) (k' x)
  | AwaitTimeout ms k, AwaitTimeout ms' k' => ms = ms' ∧ similar R k k'
  | AwaitCheck s k, AwaitCheck s' k' => s = s' ∧ ∀ x, similar R (k x) (k' x)
  | _, _ => False
  end.

(** The result of the prober, with its credentials reduced. *)
Definition redactFound (result : Found) : Found :=
  match result with
  | notFound => notFound
  | foundIn sessionId credentials => foundIn sessionId (redactCredentials <$> credentials)
  end.

(** ** Batches of calls *)


(** A service that holds, for the first literal identifier only,
    credentials that lack a [username]. *)
Definition incompleteCredentials : NetReply :=
  Data (JObj [("success", JBool true);
              ("credentials", JObj [("url", JStr "https://x"); ("database", JStr "d")])]).

(** One fetch for session ["s"] against that service, by promise [p]: the
    direct check and the probe of the current identifier find nothing, the
    probe of the first literal identifier confirms, the broadcast scheduled
    by the rotation fires after 100 ms, and the 500 ms elapse. *)
Definition recoveryCycle (p : PromiseId) : list Action :=
  [Respond p credentialsMissing; Respond p credentialsMissing;
   Respond p incompleteCredentials; Fire 0; Elapse p].

(** ** When a promise settles *)













(** ** hooks/useCredentials.js: reading the stored summary *)

(** [v || ''] *)
Definition or_empty (v : jsval) : json :=
  match v with
  | Some j => if truthy_json j then j else JStr ""
  | None => JStr ""
  end.

(** [getStoredCredentials] (lines 366-386).  [Some result] stands for the
    [return] inside the [try] block, [None] for falling out of it. *)
Definition getStoredCredentials : Prog json :=
  returned ← try_catch
    (stored ← getItem "odoo_credentials";
     match stored with
     | Some item =>
         if truthy_item stored then
           credentials ← JSON_parse item;
           url ← get (Some credentials) "url";
           database ← get (Some credentials) "database";
           username ← get (Some credentials) "username";
           Ret (Some (JObj [("url", or_empty url);
                            ("database", or_empty database);
                            ("username", or_empty username)]))
         else Ret None
     | None => Ret None
     end)
    (λ error, Ret None);
  match returned with
  | Some credentials => Ret credentials
  | None => Ret (JObj [("url", JStr ""); ("database", JStr ""); ("username", JStr "")])
  end.

(** [hasAttemptedConfiguration] (lines 464-467): [!!stored]. *)
Definition hasAttemptedConfiguration : Prog bool :=
  stored ← getItem "odoo_credentials";
  Ret (truthy_item stored).

(** ** hooks/useCredentials.js: the effect run on mount and on a change of
    session (lines 259-299) *)

(** What a run of the effect does to the state of the component: nothing,
    or the argument of its [setCredentialsStatus], or the call it makes. *)
Inductive EffectOutcome : Type :=
| effectSkipped
| effectShowsCached (status : Status) (lastChecked : Z)
| effectChecks (p : PromiseId)
| effectNoSession (error : string)
| effectIdle.

(** One run of the effect, for the [sessionId] of the render;
    [lastEffectRun] is [lastEffectRunRef.current], returned updated. *)
Definition mountEffect (sessionId : string) (lastEffectRun : Z) (m : Machine)
    : Z * Machine * EffectOutcome :=
  let w := world m in
  let now := clock w in
  if now - lastEffectRun <? 1000 then (lastEffectRun, m, effectSkipped)
  else
    if negb (String.eqb sessionId "") && isMounted w then
      if negb (globalLastCheck w =? 0) && (now - globalLastCheck w <? 5 * 60 * 1000)
      then
        match globalCredentialStatus w with
        | Some status => (now, m, effectShowsCached status (globalLastCheck w))
        | None =>
            let '(m', p) := checkCredentials 0 sessionId false m in
            (now, m', effectChecks p)
        end
      else
        let '(m', p) := checkCredentials 0 sessionId false m in
        (now, m', effectChecks p)
    else if String.eqb sessionId "" && isMounted w then
      (now, m, effectNoSession "Session not initialized")
    else (now, m, effectIdle).

(** ** ChatContext.js: the persistent session identifier *)

(** [getOrCreateSessionId] (lines 7-17); [uuid] is what [uuidv4()] returns
    if it is called.  The result is the string kept in localStorage. *)
Definition getOrCreateSessionId (uuid : string) : Prog StoreItem :=
  sessionId ← getItem "odoo_session_id";
  match sessionId with
  | Some item =>
      if truthy_item sessionId then Ret item
      else setItem "odoo_session_id" (Text uuid);; Ret (Text uuid)
  | None => setItem "odoo_session_id" (Text uuid);; Ret (Text uuid)
  end.

(** ** The promise recorded as in flight *)

(** An assignment that leaves [globalCredentialCheck] as it is or empties
    it. *)
Definition releases (f : World → World) : Prop :=
  ∀ w, globalCredentialCheck (f w) = globalCredentialCheck w ∨
       globalCredentialCheck (f w) = None.

(** Every assignment of every run of [p] is of that kind. *)
Definition tidy {A : Type} (p : Prog A) : Prop :=
  always p (λ t _, Forall releases (writes t)).

(** The last thing a run did was to empty [globalCredentialCheck]. *)
Definition endsReleased (t : list Event) : Prop :=
  ∃ f, last t = Some (Wrote f) ∧ ∀ w, globalCredentialCheck (f w) = None.

(** Every run of [p] ends that way: [p] runs under the [finally] of line
    247. *)
Definition closes {A : Type} (p : Prog A) : Prop :=
  always p (λ t _, endsReleased t).

Definition pauseTidy {A : Type} (at_ : Pause A) : Prop :=
  match at_ with
  | Finished _ => True
  | OnNet _ k => ∀ x, tidy (k x)
  | OnTimeout _ k => tidy k
  | OnCheck _ k => ∀ x, tidy (k x)
  end.

Definition strandTidy (s : Strand) : Prop :=
  match s with
  | Paused at_ => pauseTidy at_
  | Joining _ k => ∀ x, tidy (k x)
  end.

(** A promise that has not settled and will empty the slot when it does. *)
Definition pauseCloses {A : Type} (at_ : Pause A) : Prop :=
  match at_ with
  | Finished _ => False
  | OnNet _ k => ∀ x, closes (k x)
  | OnTimeout _ k => closes k
  | OnCheck _ k => ∀ x, closes (k x)
  end.

Definition strandCloses (s : Strand) : Prop :=
  match s with
  | Paused at_ => pauseCloses at_
  | Joining _ k => ∀ x, closes (k x)
  end.

(** No promise of the table assigns a promise to [globalCredentialCheck],
    and the promise recorded there, if any, is one that has not settled and
    that empties the slot when it settles. *)
Definition slotPending (m : Machine) : Prop :=
  Forall (λ e, strandTidy (strand e)) (promises m) ∧
  ∀ p, globalCredentialCheck (world m) = Some p →
       ∃ e, promises m !! p = Some e ∧ strandCloses (strand e).

(** ** What a program asks *)

(** Every request of every run of [p] satisfies [P]. *)
Definition onlyAsks {A : Type} (P : NetRequest → Prop) (p : Prog A) : Prop :=
  always p (λ t _, Forall P (asks t).*1).

(** A read of the credentials of the session [sessionId] or of one of the
    literal sessions of the prober. *)
Definition readsFor (sessionId : string) (r : NetRequest) : Prop :=
  ∃ c, c ∈ sessionId :: commonSessions ∧ r = requestFor c.

(** ** ChatContext.js: the reducer of the chat state (lines 19-131) *)

Module Chat.

(** A message: an object with a string [content], possibly an
    [isStreaming] flag, and other properties ([id], [type], [timestamp],
    ...) which the reducer copies as they are. *)
Record Message : Type := mkMessage {
  msg_content : string;
  msg_isStreaming : option bool;
  msg_others : list (string * json)
}.

Record State : Type := mkState {
  messages : list Message;
  isLoading : bool;
  error : option string;
  sessionId : StoreItem;
  isStreaming : bool;
  uploadedFile : jsval;
  conversationHistory : list json;
  agentStatus : string
}.

(** [initialState]; its [sessionId] is the result of the
    [getOrCreateSessionId()] made when the module is loaded. *)
Definition initialState (loadedSessionId : StoreItem) : State :=
  mkState [] false None loadedSessionId false (Some JNull) [] "idle".

Inductive Action : Type :=
| ADD_MESSAGE (payload : Message)
| UPDATE_LAST_MESSAGE (content : string) (isCompletion : bool)
| SET_LOADING (payload : bool)
| SET_STREAMING (payload : bool)
| SET_ERROR (payload : option string)
| SET_UPLOADED_FILE (payload : jsval)
| CLEAR_UPLOADED_FILE
| SET_AGENT_STATUS (payload : string)
| CLEAR_MESSAGES
| SET_CONVERSATION_HISTORY (payload : list json)
| NEW_SESSION
| RESTORE_SESSION (payload_sessionId : option StoreItem)
                  (payload_messages : option (list Message))
                  (payload_conversationHistory : option (list json))
| UPDATE_SESSION_ID (payload : string)
| OTHER (type : string).

(** [chatReducer(state, action)].  Only [NEW_SESSION] has an effect: it
    calls [getOrCreateSessionId]. *)
Definition chatReducer (uuid : string) (initial state : State) (action : Action)
    : Prog State :=
  match action with
  | ADD_MESSAGE payload =>
      Ret (mkState (messages state ++ [payload]) (isLoading state) None
                   (sessionId state) (isStreaming state) (uploadedFile state)
                   (conversationHistory state) (agentStatus state))
  | UPDATE_LAST_MESSAGE content isCompletion =>
      Ret (mkState
             (imap (λ index msg,
                      if Nat.eqb index (length (messages state) - 1)
                      then mkMessage
                             (if isCompletion then msg_content msg
                              else msg_content msg +:+ content)
                             (Some (negb isCompletion))
                             (msg_others msg)
                      else msg)
                   (messages state))
             (isLoading state) (error state)
             (sessionId state) (isStreaming state) (uploadedFile state)
             (conversationHistory state) (agentStatus state))
  | SET_LOADING payload =>
      Ret (mkState (messages state) payload (error state)
                   (sessionId state) (isStreaming state) (uploadedFile state)
                   (conversationHistory state) (agentStatus state))
  | SET_STREAMING payload =>
      Ret (mkState (messages state) (isLoading state) (error state)
                   (sessionId state) payload (uploadedFile state)
                   (conversationHistory state) (agentStatus state))
  | SET_ERROR payload =>
      Ret (mkState (messages state) false payload
                   (sessionId state) false (uploadedFile state)
                   (conversationHistory state) (agentStatus state))
  | SET_UPLOADED_FILE payload =>
      Ret (mkState (messages state) (isLoading state) (error state)
                   (sessionId state) (isStreaming state) payload
                   (conversationHistory state) (agentStatus state))
  | CLEAR_UPLOADED_FILE =>
      Ret (mkState (messages state) (isLoading state) (error state)
                   (sessionId state) (isStreaming state) (Some JNull)
                   (conversationHistory state) (agentStatus state))
  | SET_AGENT_STATUS payload =>
      Ret (mkState (messages state) (isLoading state) (error state)
                   (sessionId state) (isStreaming state) (uploadedFile state)
                   (conversationHistory state) payload)
  | CLEAR_MESSAGES =>
      Ret (mkState [] (isLoading state) None
                   (sessionId state) (isStreaming state) (uploadedFile state)
                   (conversationHistory state) (agentStatus state))
  | SET_CONVERSATION_HISTORY payload =>
      Ret (mkState (messages state) (isLoading state) (error state)
                   (sessionId state) (isStreaming state) (uploadedFile state)
                   payload (agentStatus state))
  | NEW_SESSION =>
      newSessionId ← getOrCreateSessionId uuid;
      Ret (mkState (messages initial) (isLoading initial) (error initial)
                   newSessionId (isStreaming initial) (uploadedFile initial)
                   (conversationHistory initial) (agentStatus initial))
  | RESTORE_SESSION payload_sessionId payload_messages payload_conversationHistory =>
      Ret (mkState (default [] payload_messages) (isLoading state) (error state)
                   (if truthy_item payload_sessionId
                    then default (sessionId state) payload_sessionId
                    else sessionId state)
                   (isStreaming state) (uploadedFile state)
                   (default [] payload_conversationHistory) (agentStatus state))
  | UPDATE_SESSION_ID payload =>
      Ret (mkState (messages state) (isLoading state) (error state)
                   (Text payload) (isStreaming state) (uploadedFile state)
                   (conversationHistory state) (agentStatus state))
  | OTHER _ => Ret state
  end.

(** The reducer applied to the actions dispatched, in order. *)
Fixpoint reduce (uuid : string) (initial state : State) (actions : list Action)
    : Prog State :=
  match actions with
  | [] => Ret state
  | action :: rest =>
      state' ← chatReducer uuid initial state action;
      reduce uuid initial state' rest
  end.

(** The actions that assign [sessionId] from their payload. *)
Definition assignsSessionId (action : Action) : bool :=
  match action with
  | RESTORE_SESSION _ _ _ | UPDATE_SESSION_ID _ => true
  | _ => false
  end.

End Chat.

(** ** AuthContext.js: the reducer of the authentication state *)

Module Auth.

Record State : Type := mkState {
  isAuthenticated : bool;
  isLoading : bool;
  sessionId : jsval;
  credentials : jsval;
  error : jsval
}.

Definition initialState : State :=
  mkState false true (Some JNull) (Some JNull) (Some JNull).

(** [SET_UNAUTHENTICATED] is dispatched with no payload or with
    [{ error }]. *)
Inductive Action : Type :=
| SET_LOADING (payload : bool)
| SET_AUTHENTICATED (payload_sessionId payload_credentials : jsval)
| SET_UNAUTHENTICATED (payload : option jsval)
| SET_ERROR (payload : jsval)
| CLEAR_ERROR
| OTHER (type : string).

Definition authReducer (state : State) (action : Action) : State :=
  match action with
  | SET_LOADING payload =>
      mkState (isAuthenticated state) payload (sessionId state) (credentials state)
              (Some JNull)
  | SET_AUTHENTICATED payload_sessionId payload_credentials =>
      mkState true false payload_sessionId payload_credentials (Some JNull)
  | SET_UNAUTHENTICATED payload =>
      mkState false false (Some JNull) (Some JNull)
              (match payload with
               | Some (Some e) => if truthy_json e then Some e else Some JNull
               | _ => Some JNull
               end)
  | SET_ERROR payload =>
      mkState (isAuthenticated state) false (sessionId state) (credentials state) payload
  | CLEAR_ERROR =>
      mkState (isAuthenticated state) (isLoading state) (sessionId state)
              (credentials state) (Some JNull)
  | OTHER _ => state
  end.

End Auth.

(** * Properties *)

(** ** Reasoning about runs *)

Lemma always_mono {A : Type} (p : Prog A) (Q Q' : list Event → Outcome A → Prop) :
  (∀ t o, Q t o → Q' t o) → always p Q → always p Q'.
Proof.
  revert Q Q'. induction p as [a|e|k IH|f k IH|r k IH|ms k IH|s k IH];
    intros Q Q' HQ; cbn.
  - apply HQ.
  - apply HQ.
  - intros H w. apply (IH w Q); auto.
  - apply IH. intros t o. apply HQ.
  - intros H x. apply (IH x (λ t o, Q (Asked r x :: t) o)); auto.
  - apply IH. intros t o. apply HQ.
  - intros H x. apply (IH x (λ t o, Q (Rechecked s x :: t) o)); auto.
Qed.

Lemma always_bind {A B : Type} (p : Prog A) (g : A → Prog B)
    (Q : list Event → Outcome B → Prop) :
  always p (λ t o,
    match o with
    | Resolved a => always (g a) (λ t' o', Q (t ++ t')%list o')
    | Rejected e => Q t (Rejected e)
    end) →
  always (bind p g) Q.
Proof.
  revert Q. induction p as [a|e|k IH|f k IH|r k IH|ms k IH|s k IH]; intros Q; cbn.
  - auto.
  - auto.
  - intros H w. apply IH, H.
  - intros H. apply IH. exact H.
  - intros H x. apply IH. exact (H x).
  - intros H. apply IH. exact H.
  - intros H x. apply IH. exact (H x).
Qed.

Lemma always_try_catch {A : Type} (p : Prog A) (h : Exn → Prog A)
    (Q : list Event → Outcome A → Prop) :
  always p (λ t o,
    match o with
    | Resolved a => Q t (Resolved a)
    | Rejected e => always (h e) (λ t' o', Q (t ++ t')%list o')
    end) →
  always (try_catch p h) Q.
Proof.
  revert Q. induction p as [a|e|k IH|f k IH|r k IH|ms k IH|s k IH]; intros Q; cbn.
  - auto.
  - auto.
  - intros H w. apply IH, H.
  - intros H. apply IH. exact H.
  - intros H x. apply IH. exact (H x).
  - intros H. apply IH. exact H.
  - intros H x. apply IH. exact (H x).
Qed.

Lemma always_try_finally {A : Type} (p : Prog A) (fin : World → World)
    (Q : list Event → Outcome A → Prop) :
  always p (λ t o, Q (t ++ [Wrote fin])%list o) →
  always (try_finally p fin) Q.
Proof.
  revert Q. induction p as [a|e|k IH|f k IH|r k IH|ms k IH|s k IH]; intros Q; cbn.
  - auto.
  - auto.
  - intros H w. apply IH, H.
  - intros H. apply IH. exact H.
  - intros H x. apply IH. exact (H x).
  - intros H. apply IH. exact H.
  - intros H x. apply IH. exact (H x).
Qed.

Lemma asks_Asked r x t : asks (Asked r x :: t) = (r, x) :: asks t.
Proof. reflexivity. Qed.
Lemma asks_Wrote f t : asks (Wrote f :: t) = asks t.
Proof. reflexivity. Qed.
Lemma asks_Slept ms t : asks (Slept ms :: t) = asks t.
Proof. reflexivity. Qed.
Lemma asks_Rechecked s o t : asks (Rechecked s o :: t) = asks t.
Proof. reflexivity. Qed.
Lemma asks_nil : asks [] = [].
Proof. reflexivity. Qed.
Lemma asks_app t t' : asks (t ++ t')%list = (asks t ++ asks t')%list.
Proof. apply omap_app. Qed.

Lemma writes_Asked r x t : writes (Asked r x :: t) = writes t.
Proof. reflexivity. Qed.
Lemma writes_Wrote f t : writes (Wrote f :: t) = f :: writes t.
Proof. reflexivity. Qed.
Lemma writes_Slept ms t : writes (Slept ms :: t) = writes t.
Proof. reflexivity. Qed.
Lemma writes_Rechecked s o t : writes (Rechecked s o :: t) = writes t.
Proof. reflexivity. Qed.
Lemma writes_nil : writes [] = [].
Proof. reflexivity. Qed.
Lemma writes_app t t' : writes (t ++ t')%list = (writes t ++ writes t')%list.
Proof. apply omap_app. Qed.

Lemma rechecks_Asked r x t : rechecks (Asked r x :: t) = rechecks t.
Proof. reflexivity. Qed.
Lemma rechecks_Wrote f t : rechecks (Wrote f :: t) = rechecks t.
Proof. reflexivity. Qed.
Lemma rechecks_Slept ms t : rechecks (Slept ms :: t) = rechecks t.
Proof. reflexivity. Qed.
Lemma rechecks_Rechecked s o t : rechecks (Rechecked s o :: t) = s :: rechecks t.
Proof. reflexivity. Qed.
Lemma rechecks_nil : rechecks [] = [].
Proof. reflexivity. Qed.
Lemma rechecks_app t t' : rechecks (t ++ t')%list = (rechecks t ++ rechecks t')%list.
Proof. apply omap_app. Qed.

Create Rewrite HintDb events.
#[local] Hint Rewrite asks_Asked asks_Wrote asks_Slept asks_Rechecked asks_nil asks_app
  writes_Asked writes_Wrote writes_Slept writes_Rechecked writes_nil writes_app
  rechecks_Asked rechecks_Wrote rechecks_Slept rechecks_Rechecked rechecks_nil rechecks_app
  : events.

#[local] Arguments asks : simpl never.
#[local] Arguments writes : simpl never.
#[local] Arguments rechecks : simpl never.
#[local] Arguments String.eqb : simpl never.
#[local] Arguments confirmed : simpl never.
#[local] Arguments getOdooCredentials : simpl never.
#[local] Arguments hasCredentials : simpl never.
#[local] Arguments get : simpl never.

Ltac find_elem :=
  repeat first [ rewrite elem_of_app | rewrite elem_of_cons ]; auto 10.

Lemma get_data (d : json) (key : string) :
  broken (Data d) = false → get (Some d) key = Ret (member d key).
Proof. destruct d; cbn; intros; done. Qed.

Lemma confirmed_data (d : json) :
  broken (Data d) = false →
  confirmed (Data d) =
    if truthy (member d "success") && truthy (member d "credentials")
    then Some (member d "credentials") else None.
Proof. destruct d; cbn; intros; done. Qed.

Lemma confirmed_credentials (d : json) (credentials : jsval) :
  confirmed (Data d) = Some credentials → member d "credentials" = credentials.
Proof.
  unfold confirmed. destruct d; try done;
    match goal with |- context [if ?b then _ else _] => destruct b end; congruence.
Qed.

Lemma hasCredentials_data (d : json) :
  broken (Data d) = false →
  hasCredentials d = Ret (bool_decide (is_Some (confirmed (Data d)))).
Proof.
  intros Hd. rewrite (confirmed_data d Hd). unfold hasCredentials.
  rewrite (get_data d "success" Hd). cbn.
  destruct (truthy (member d "success")); cbn; [|done].
  rewrite (get_data d "credentials" Hd). cbn.
  by destruct (truthy (member d "credentials")).
Qed.

(** One probe: [check = await getOdooCredentials(sessionId)] followed by the
    test [check.success && check.credentials]. *)
Lemma always_ask {A : Type} (sessionId : string) (g : json → bool → Prog A)
    (Q : list Event → Outcome A → Prop) :
  (∀ reply e, broken reply = true → Q [Asked (requestFor sessionId) reply] (Rejected e)) →
  (∀ d, broken (Data d) = false →
        always (g d (bool_decide (is_Some (confirmed (Data d)))))
               (λ t o, Q (Asked (requestFor sessionId) (Data d) :: t) o)) →
  always (check ← getOdooCredentials sessionId; ok ← hasCredentials check; g check ok) Q.
Proof.
  intros Hbroken Hdata. unfold getOdooCredentials. cbn. intros [d|msg]; cbn.
  - destruct (broken (Data d)) eqn:Hd.
    + destruct d; try discriminate. cbn. apply (Hbroken (Data JNull)). done.
    + specialize (Hdata d Hd). rewrite (confirmed_data d Hd) in Hdata.
      unfold hasCredentials. rewrite (get_data d "success" Hd). cbn.
      destruct (truthy (member d "success")); cbn.
      * rewrite (get_data d "credentials" Hd). cbn.
        destruct (truthy (member d "credentials")); cbn in *; exact Hdata.
      * exact Hdata.
  - apply (Hbroken (NetworkError msg)). done.
Qed.

(** A property read either throws or yields some value. *)
Lemma always_get {A : Type} (o : jsval) (key : string) (g : jsval → Prog A)
    (Q : list Event → Outcome A → Prop) :
  (∀ e, Q [] (Rejected e)) →
  (∀ v, always (g v) Q) →
  always (v ← get o key; g v) Q.
Proof.
  intros Hthrow Hret. unfold get. destruct o as [[]|]; cbn; auto.
Qed.

Lemma broken_unconfirmed (reply : NetReply) : broken reply = true → confirmed reply = None.
Proof. destruct reply as [[]|]; done. Qed.

Lemma verdict_miss (c : string) (x : NetReply) (tried : list string) (replies : list NetReply) :
  confirmed x = None → length tried = length replies →
  verdict (c :: tried) (x :: replies) = verdict tried replies.
Proof.
  intros Hx Hlen. unfold verdict.
  destruct tried as [|c' tried], replies as [|x' replies]; try discriminate.
  - cbn. by rewrite Hx.
  - by rewrite !last_cons_cons.
Qed.

Lemma probed_hit (c : string) (cands : list string) (x : NetReply) (credentials : jsval) :
  confirmed x = Some credentials →
  probed (c :: cands) [Asked (requestFor c) x] (Resolved (foundIn c credentials)).
Proof.
  intros Hx. unfold probed. autorewrite with events. cbn. repeat split; try done.
  - lia.
  - intros [|i] r y; cbn; [done|]. by destruct i.
  - unfold verdict. cbn. by rewrite Hx.
Qed.

Lemma probed_miss (c : string) (cands : list string) (x : NetReply)
    (t : list Event) (o : Outcome Found) :
  confirmed x = None → probed cands t o →
  probed (c :: cands) (Asked (requestFor c) x :: t) o.
Proof.
  intros Hx (Hw & Hr & Hlen & Hreq & Hfirst & Ho). unfold probed.
  autorewrite with events. cbn.
  repeat split; try done.
  - lia.
  - by rewrite Hreq.
  - intros [|i] r y; cbn.
    + intros [= <- <-] [? Hc]. congruence.
    + intros Hi Hc. f_equal. by apply (Hfirst i r y).
  - rewrite Ho. f_equal. symmetry. apply verdict_miss; [done|].
    rewrite length_take, length_fmap. lia.
Qed.

(** The loop over the literal identifiers is a probe of those that differ
    from the current one, and reports not-found only after trying all. *)
Lemma testSessions_runs (currentSessionId : string) (sessions : list string) :
  always (testSessions currentSessionId sessions) (λ t o,
    let cands := List.filter (λ s, negb (String.eqb s currentSessionId)) sessions in
    probed cands t o ∧
    (o = Resolved notFound → length (asks t) = length cands)).
Proof.
  induction sessions as [|s rest IH]; cbn.
  - split; [|done]. unfold probed. autorewrite with events. cbn. repeat split; done.
  - destruct (negb (String.eqb s currentSessionId)) eqn:Hs; [|exact IH].
    apply always_bind, always_try_catch, always_ask.
    + intros reply e Hb. cbn.
      eapply always_mono; [|exact IH]. cbn. intros t o [Hp Hn]. split.
      * apply probed_miss; [by apply broken_unconfirmed|done].
      * intros Ho. autorewrite with events. cbn. f_equal. by apply Hn.
    + intros d Hd. destruct (confirmed (Data d)) as [credentials|] eqn:Hc.
      * rewrite bool_decide_eq_true_2 by eauto.
        rewrite (get_data d "credentials" Hd). cbn.
        rewrite (confirmed_credentials d credentials Hc).
        split; [|done]. by apply probed_hit.
      * rewrite bool_decide_eq_false_2 by (intros [? ?]; done). cbn.
        eapply always_mono; [|exact IH]. cbn. intros t o [Hp Hn]. split.
        -- by apply probed_miss.
        -- intros Ho. autorewrite with events. cbn. f_equal. by apply Hn.
Qed.

(** Every run of the prober. *)
Lemma findAvailableSession_runs (currentSessionId : string) :
  always (findAvailableSession currentSessionId) (λ t o,
    probed (candidates currentSessionId) t o ∧
    (o = Resolved notFound →
       length (asks t) = length (candidates currentSessionId) ∨
       ∃ r x, asks t = [(r, x)] ∧ broken x = true)).
Proof.
  unfold findAvailableSession, candidates.
  apply always_try_catch, always_ask.
  - intros reply e Hb. cbn. split.
    + unfold probed. autorewrite with events. cbn. repeat split; try done.
      * lia.
      * intros [|i] r x; cbn; [|by destruct i].
        intros [= <- <-] [? Hc]. by rewrite broken_unconfirmed in Hc.
      * unfold verdict. cbn. by rewrite broken_unconfirmed.
    + intros _. right. eauto.
  - intros d Hd. destruct (confirmed (Data d)) as [credentials|] eqn:Hc.
    + rewrite bool_decide_eq_true_2 by eauto.
      rewrite (get_data d "credentials" Hd). cbn.
      rewrite (confirmed_credentials d credentials Hc).
      split; [|done]. by apply probed_hit.
    + rewrite bool_decide_eq_false_2 by (intros [? ?]; done).
      cbn -[testSessions]. intros w.
      eapply always_mono; [|apply testSessions_runs]. intros t o [Hp Hn].
      assert (∃ r, o = Resolved r) as [r ->]
        by (destruct Hp as (_ & _ & _ & _ & _ & ->); eauto).
      lazy beta iota. split.
      * by apply probed_miss.
      * intros Ho. left. autorewrite with events. cbn [length]. f_equal. by apply Hn.
Qed.

Lemma length_candidates (currentSessionId : string) :
  (length (candidates currentSessionId) ≤ 3)%nat.
Proof.
  unfold candidates, commonSessions. cbn.
  repeat match goal with |- context [negb ?b] => destruct b; cbn end; lia.
Qed.

Lemma always_const {A : Type} (p : Prog A) (P : Prop) :
  always p (λ _ _, P) → P.
Proof.
  induction p as [a|e|k IH|f k IH|r k IH|ms k IH|s k IH]; cbn; auto.
  - intros H. apply (IH (mkWorld ∅ "" false "" None None 0 None [] [] 0)), H.
  - intros H. apply (IH (NetworkError "")), H.
  - intros H. apply (IH (Resolved VUndefined)), H.
Qed.

Lemma always_and {A : Type} (p : Prog A) (Q Q' : list Event → Outcome A → Prop) :
  always p Q → always p Q' → always p (λ t o, Q t o ∧ Q' t o).
Proof.
  revert Q Q'. induction p as [a|e|k IH|f k IH|r k IH|ms k IH|s k IH];
    intros Q Q'; cbn.
  - done.
  - done.
  - intros H H' x. by apply IH.
  - intros H H'. by apply (IH (λ t o, Q (Wrote f :: t) o)).
  - intros H H' x. by apply (IH x (λ t o, Q (Asked r x :: t) o)).
  - intros H H'. by apply (IH (λ t o, Q (Slept ms :: t) o)).
  - intros H H' x. by apply (IH x (λ t o, Q (Rechecked s x :: t) o)).
Qed.

(** A run of [exec] that ends is one of the runs [always] speaks of: the
    world it ends in is the one the assignments of the run lead to, the log
    has grown by the requests of the run, and each reply is one of the
    service. *)
Lemma exec_always {A : Type} (remote : Remote) (p : Prog A)
    (Q : list Event → Outcome A → Prop) (w : World) (log : list NetRequest) :
  always p Q →
  match exec remote p w log with
  | (w', log', Finished o) =>
      ∃ t, Q t o ∧
           w' = foldl (λ w f, f w) w (writes t) ∧
           log' = (log ++ (asks t).*1)%list ∧
           Forall (λ q, ∃ history, q.2 = remote history q.1) (asks t)
  | _ => True
  end.
Proof.
  revert Q w log.
  induction p as [a|e|k IH|f k IH|r k IH|ms k IH|s k IH]; intros Q w log Hp; cbn in *.
  - exists []. rewrite app_nil_r. repeat split; first [done|apply Forall_nil_2].
  - exists []. rewrite app_nil_r. repeat split; first [done|apply Forall_nil_2].
  - apply IH, Hp.
  - specialize (IH _ (f w) log Hp).
    destruct (exec remote k (f w) log) as [[w' log'] [o| | |]]; try done.
    destruct IH as (t & HQ & -> & -> & Hr). exists (Wrote f :: t).
    autorewrite with events. done.
  - specialize (IH (remote log r) _ w (log ++ [r])%list (Hp (remote log r))).
    destruct (exec remote (k (remote log r)) w (log ++ [r])) as [[w' log'] [o| | |]];
      try done.
    destruct IH as (t & HQ & -> & -> & Hr). exists (Asked r (remote log r) :: t).
    autorewrite with events. cbn. rewrite <- app_assoc. repeat split; try done.
    apply Forall_cons_2; [by exists log|done].
  - specialize (IH _ w log Hp).
    destruct (exec remote k w log) as [[w' log'] [o| | |]]; try done.
    destruct IH as (t & HQ & -> & -> & Hr). exists (Slept ms :: t).
    autorewrite with events. done.
  - done.
Qed.

(** A program that never re-checks runs to its end under [exec]. *)
Lemma exec_finishes {A : Type} (remote : Remote) (p : Prog A)
    (w : World) (log : list NetRequest) :
  always p (λ t _, rechecks t = []) →
  ∃ w' log' o, exec remote p w log = (w', log', Finished o).
Proof.
  revert w log.
  induction p as [a|e|k IH|f k IH|r k IH|ms k IH|s k IH]; intros w log Hp; cbn in *.
  - eauto.
  - eauto.
  - apply IH, Hp.
  - apply IH. eapply always_mono; [|exact Hp]. intros t o Ht. lazy beta in Ht.
    by rewrite rechecks_Wrote in Ht.
  - apply IH. eapply always_mono; [|apply Hp]. intros t o Ht. lazy beta in Ht.
    by rewrite rechecks_Asked in Ht.
  - apply IH. eapply always_mono; [|exact Hp]. intros t o Ht. lazy beta in Ht.
    by rewrite rechecks_Slept in Ht.
  - exfalso. apply (always_const (k (Resolved VUndefined))).
    eapply always_mono; [|apply Hp]. intros t o Ht. lazy beta in Ht.
    by rewrite rechecks_Rechecked in Ht.
Qed.

(** ** The recovery prober *)

(** C5 (amended): the prober asks for the current identifier and then for
    the literal identifiers of [commonSessions] that differ from it, in
    that order; it makes at most three requests (so never more than five),
    makes none after a reply that confirms credentials, and reports the
    candidate of that reply, or not-found when the last reply confirms
    nothing: after it has tried every candidate, or when the check of the
    current identifier fails.  The keys of localStorage play no part. *)
Theorem findAvailableSession_probes_current_then_literals (currentSessionId : string) :
  always (findAvailableSession currentSessionId) (λ t o,
    (length (asks t) ≤ 3)%nat ∧
    probed (candidates currentSessionId) t o ∧
    (o = Resolved notFound →
       length (asks t) = length (candidates currentSessionId) ∨
       ∃ r x, asks t = [(r, x)] ∧ broken x = true)).
Proof.
  eapply always_mono; [|apply findAvailableSession_runs].
  intros t o [Hp Hn]. split; [|done].
  destruct Hp as (_ & _ & Hlen & _).
  pose proof (length_candidates currentSessionId). lia.
Qed.

(** C5, as stated, fails: with nothing in localStorage but the current
    identifier, the prober asks for a literal identifier and reports it;
    and it never asks for a session recorded in localStorage under another
    key, even when the service holds credentials for it. *)
Lemma findAvailableSession_ignores_the_store :
  let w := freshWorld "s-current" 0 in
  let w' := set_localStorage <["odoo_session_previous" := Text "s-previous"]> w in
  exec (holding ["8428094f-8aeb-4bad-aa6d-6a838a3c9192"])
       (findAvailableSession "s-current") w []
  = (w,
     [GetCredentials (Some "s-current");
      GetCredentials (Some "8428094f-8aeb-4bad-aa6d-6a838a3c9192")],
     Finished (Resolved (foundIn "8428094f-8aeb-4bad-aa6d-6a838a3c9192"
                                 (Some sampleCredentials))))
  ∧ map_to_list (localStorage w) = [("odoo_session_id", Text "s-current")]
  ∧ sessionHints w' = ["odoo_session_id"; "odoo_session_previous"]
  ∧ exec (holding ["s-previous"]) (findAvailableSession "s-current") w' []
    = (w',
       [GetCredentials (Some "s-current");
        GetCredentials (Some "8428094f-8aeb-4bad-aa6d-6a838a3c9192");
        GetCredentials (Some "fc208a99-36eb-4b0f-9e9a-b49cd882b943")],
       Finished (Resolved notFound)).
Proof. vm_compute. done. Qed.

Lemma verdict_found (tried : list string) (replies : list NetReply)
    (c : string) (credentials : jsval) :
  verdict tried replies = foundIn c credentials →
  ∃ x, last tried = Some c ∧ last replies = Some x ∧ confirmed x = Some credentials.
Proof.
  unfold verdict. destruct (last tried) as [c'|]; [|done].
  destruct (last replies) as [x|]; [|done].
  destruct (confirmed x) as [credentials'|] eqn:Hx; [|done].
  intros [= -> ->]. eauto.
Qed.

Lemma confirmed_truthy (x : NetReply) (credentials : jsval) :
  confirmed x = Some credentials → truthy credentials = true.
Proof.
  unfold confirmed. destruct x as [d|]; [|done].
  destruct d; try done;
    match goal with |- context [if ?a && ?b then _ else _] =>
      destruct a; [|done]; destruct b eqn:Hb; [|done] end;
    intros [= <-]; exact Hb.
Qed.

Lemma get_truthy (v : jsval) (key : string) :
  truthy v = true → ∃ j, v = Some j ∧ get v key = Ret (member j key).
Proof.
  destruct v as [j|]; [|done]. intros Hv. exists j. split; [done|].
  by destruct j.
Qed.

(** Every run of [recoverSession], as the hook calls it. *)
Lemma recoverSession_runs (currentSessionId : string) :
  always (recoverSession currentSessionId (updateSessionId currentSessionId)) (λ t o,
    ∃ b, o = Resolved b ∧ Recovery currentSessionId t b).
Proof.
  unfold recoverSession.
  apply always_bind. eapply always_mono; [|apply findAvailableSession_runs].
  intros t o [(Hw & Hr & Hlen & Hreq & Hfirst & ->) _]. lazy beta iota.
  pose proof (length_candidates currentSessionId) as Hc3.
  destruct (verdict _ _) as [|c credentials] eqn:Hv.
  - cbn. rewrite app_nil_r. exists false. repeat split; [done|lia|]. by left.
  - destruct (String.eqb_spec c currentSessionId) as [->|Hne]; cbn [negb].
    + cbn. rewrite app_nil_r. exists false. repeat split; [done|lia|]. by left.
    + apply verdict_found in Hv as (x & Hc & Hx & Hconf).
      destruct (get_truthy credentials "url" (confirmed_truthy _ _ Hconf))
        as (j & -> & Hurl).
      assert (∀ key, get (Some j) key = Ret (member j key)) as Hget.
      { intros key. by destruct j. }
      unfold updateSessionId, setItem, update. cbn.
      rewrite !Hget. cbn.
      exists true. split; [done|]. unfold Recovery.
      autorewrite with events. cbn.
      rewrite Hw, Hr. cbn. rewrite app_nil_r.
      split; [done|]. split; [lia|]. right.
      exists c, x, j. repeat split; try done.
      rewrite last_lookup in Hc. rewrite last_lookup in Hx. rewrite last_lookup.
      rewrite length_take_le in Hc by lia.
      rewrite length_fmap in Hx.
      rewrite list_lookup_fmap in Hx.
      destruct (asks t !! pred (length (asks t))) as [[r y]|] eqn:Hl; [|done].
      cbn in Hx. injection Hx as ->. f_equal. f_equal.
      assert ((asks t).*1 !! pred (length (asks t)) = Some r) as Hr1
        by (by rewrite list_lookup_fmap, Hl).
      rewrite Hreq, list_lookup_fmap, Hc in Hr1. cbn in Hr1. congruence.
Qed.

(** ** The fetch *)

#[local] Arguments recoverSession : simpl never.
#[local] Arguments checkLocalCredentials : simpl never.

Lemma every_requiredFields (j : json) :
  broken (Data j) = false →
  every requiredFields (λ field, v ← get (Some j) field; Ret (truthy v))
  = Ret (forallb (λ field, truthy (member j field)) requiredFields).
Proof.
  intros Hj. unfold requiredFields, get.
  destruct j; try done; cbn;
    repeat (match goal with
            | |- context [if ?b then _ else _] => destruct b eqn:?
            end; cbn);
    done.
Qed.

(** Every run of lines 91-152. *)
Lemma checkLocalCredentials_runs (sid : string) (now : Z) (item : option StoreItem) :
  always (checkLocalCredentials sid now item) (λ t o,
    (o = Resolved (Some true) ∧
     ∃ x, is_Some (confirmed x) ∧
          t = [Asked (requestFor sid) x;
               Wrote (setGlobalStatus (mkStatus true None) now)]) ∨
    (o = Resolved (Some false) ∧
     ∃ x, broken x = false ∧ confirmed x = None ∧
          t = [Asked (requestFor sid) x; Wrote discardSummary;
               Wrote (setGlobalStatus sessionExpired now)]) ∨
    (o = Resolved None ∧ LocalPart sid t)).
Proof.
  unfold checkLocalCredentials.
  destruct item as [item|]; [|cbn; right; right; split; [done|constructor]].
  destruct (truthy_item (Some item));
    [|cbn; right; right; split; [done|constructor]].
  apply always_try_catch.
  destruct item as [s|j]; cbn -[every].
  { right; right; split; [done|constructor]. }
  destruct (broken (Data j)) eqn:Hj.
  { destruct j; try done. cbn. right; right; split; [done|constructor]. }
  rewrite (every_requiredFields j Hj).
  generalize (forallb (λ field, truthy (member j field)) requiredFields).
  intros [|]; cbn; [|right; right; split; [done|constructor]].
  apply always_ask.
  - intros reply e Hb. cbn. right; right; split; [done|by constructor].
  - intros d Hd. destruct (confirmed (Data d)) as [credentials|] eqn:Hc.
    + rewrite bool_decide_eq_true_2 by eauto. cbn.
      left. split; [done|]. exists (Data d). split; [|done]. rewrite Hc. eauto.
    + rewrite bool_decide_eq_false_2 by (intros [? ?]; done). cbn.
      right; left. split; [done|]. by exists (Data d).
Qed.

(** Every run of the fetch is one of [FetchRun]. *)
Lemma fetchCredentials_runs (sid : string) (now : Z) :
  always (fetchCredentials sid now) (FetchRun sid now).
Proof.
  unfold fetchCredentials.
  apply always_try_finally, always_try_catch. cbn. intros w.
  apply always_bind. eapply always_mono; [|apply checkLocalCredentials_runs].
  intros t o [[-> (x & Hx & ->)]|[[-> (x & Hb & Hx & ->)]|[-> Hpre]]]; lazy beta iota.
  - cbn. by constructor.
  - cbn. by constructor.
  - apply always_ask.
    + intros reply e Hb. cbn. rewrite <- !app_assoc. cbn. by constructor.
    + intros d Hd. destruct (confirmed (Data d)) as [credentials|] eqn:Hc.
      * rewrite bool_decide_eq_true_2 by eauto.
        rewrite (get_data d "credentials" Hd). cbn.
        rewrite (confirmed_credentials d credentials Hc).
        destruct (get_truthy credentials "url" (confirmed_truthy _ _ Hc))
          as (j & -> & Hurl).
        assert (∀ key, get (Some j) key = Ret (member j key)) as Hget.
        { intros key. by destruct j. }
        rewrite !Hget. unfold setItem, update. cbn.
        rewrite <- !app_assoc. cbn. by apply fetch_confirmed.
      * rewrite bool_decide_eq_false_2 by (intros [? ?]; done).
        cbn [bind mbind Prog_bind].
        apply always_bind. eapply always_mono; [|apply recoverSession_runs].
        intros tr o (b & -> & Hrec). lazy beta iota.
        destruct b; cbn.
        -- intros [v|e]; cbn.
           ++ rewrite <- !app_assoc. cbn. rewrite <- !app_assoc. cbn.
              by apply fetch_rechecked.
           ++ rewrite <- !app_assoc. cbn. rewrite <- !app_assoc. cbn.
              by apply fetch_recheck_rejected.
        -- rewrite <- !app_assoc. cbn. rewrite <- !app_assoc. cbn.
           by apply fetch_unrecovered.
Qed.

(** C7 (amended): [findAvailableSession] assigns nothing, in any run.
    [recoverSession] assigns nothing in the runs that return [false]; in a
    run that returns [true] (a reply confirmed credentials for an
    identifier [c] other than the current one) it has itself rotated the
    session through [updateSessionId], stored the summary of the confirmed
    credentials, and dispatched [credentialsUpdated]. *)
Theorem probe_assigns_only_on_success (currentSessionId : string) :
  always (findAvailableSession currentSessionId)
         (λ t o, writes t = [] ∧ rechecks t = []) ∧
  always (recoverSession currentSessionId (updateSessionId currentSessionId))
         (λ t o,
            (o = Resolved false ∧ writes t = []) ∨
            (∃ c x j,
               c ≠ currentSessionId ∧
               last (asks t) = Some (requestFor c, x) ∧
               confirmed x = Some (Some j) ∧
               o = Resolved true ∧
               writes t = rotation currentSessionId c j)).
Proof.
  split.
  - eapply always_mono; [|apply findAvailableSession_runs].
    intros t o [(Hw & Hr & _) _]. done.
  - eapply always_mono; [|apply recoverSession_runs].
    intros t o (b & -> & _ & _ & [[-> Hw]|(c & x & j & Hc & Hl & Hx & -> & Hw)]).
    + by left.
    + right. by exists c, x, j.
Qed.

(** C7, as stated, fails: a recovery that finds credentials under a literal
    identifier changes the stored identifier, the stored summary and the
    identifier held by the context, schedules the broadcast and dispatches
    an event, all before the coordinator sees its result. *)
Lemma recoverSession_rotates_the_session :
  let w := freshWorld "s-current" 0 in
  let '(w', _, at_) :=
    exec (holding ["8428094f-8aeb-4bad-aa6d-6a838a3c9192"])
         (recoverSession "s-current" (updateSessionId "s-current")) w [] in
  at_ = Finished (Resolved true) ∧
  localStorage w !! "odoo_session_id" = Some (Text "s-current") ∧
  localStorage w' !! "odoo_session_id"
    = Some (Text "8428094f-8aeb-4bad-aa6d-6a838a3c9192") ∧
  localStorage w !! "odoo_credentials" = None ∧
  localStorage w' !! "odoo_credentials" = Some (JsonText sampleCredentials) ∧
  chat_sessionId w = "s-current" ∧
  chat_sessionId w' = "8428094f-8aeb-4bad-aa6d-6a838a3c9192" ∧
  dispatched w' = [credentialsUpdated] ∧
  timers w' = [BroadcastSessionChange 100 "8428094f-8aeb-4bad-aa6d-6a838a3c9192" "s-current";
               ForcedCheck 100].
Proof. vm_compute. done. Qed.

(** ** The session registry *)

Lemma delete_last_timer (l : list Timer) (t : Timer) :
  delete (length l) (l ++ [t])%list = l.
Proof. by rewrite delete_middle, app_nil_r. Qed.

Lemma world_eta (w : World) :
  mkWorld (localStorage w) (chat_sessionId w) (isMounted w) (ref_sessionId w)
          (globalCredentialCheck w) (globalCredentialStatus w) (globalLastCheck w)
          (globalSessionId w) (timers w) (dispatched w) (clock w) = w.
Proof. by destruct w. Qed.

(** C8 (amended): [updateSessionId] compares nothing.  Called with the
    identifier [s] that is already stored and held, it leaves both as they
    are but still schedules the [sessionIdChanged] broadcast, with
    [oldSessionId = newSessionId = s]; when that timer fires, the event is
    dispatched to the listeners, and a mounted hook clears its cache, takes
    [s] as the tracked session and schedules a forced check. *)
Theorem updateSessionId_has_no_guard (s : string) (w : World)
    (ps : list Entry) (reqs : list NetRequest) :
  localStorage w !! "odoo_session_id" = Some (Text s) →
  chat_sessionId w = s →
  ∃ m1 m2,
    step (CallUpdateSessionId s s) (mkMachine w ps reqs) = Some m1 ∧
    world m1 = setTimeout (BroadcastSessionChange 100 s s) w ∧
    step (Fire (length (timers w))) m1 = Some m2 ∧
    world m2 = dispatchEvent (sessionIdChanged s s) w ∧
    dispatched (world m2) = (dispatched w ++ [sessionIdChanged s s])%list ∧
    (if isMounted w
     then globalCredentialCheck (world m2) = None ∧
          globalCredentialStatus (world m2) = None ∧
          globalLastCheck (world m2) = 0 ∧
          globalSessionId (world m2) = Some s ∧
          timers (world m2) = (timers w ++ [ForcedCheck 200])%list
     else world m2 = set_dispatched (λ l, (l ++ [sessionIdChanged s s])%list) w).
Proof.
  intros Hstore Hchat.
  assert (fst (advance (updateSessionId s s) w)
          = setTimeout (BroadcastSessionChange 100 s s) w) as Hupd.
  { cbn. unfold setTimeout, set_timers, chatReducer_UPDATE_SESSION_ID,
      set_chat_sessionId, set_localStorage. cbn.
    rewrite insert_id by done. by rewrite Hchat. }
  eexists _, _. split; [reflexivity|].
  split; [exact Hupd|].
  cbn [step world with_world]. rewrite Hupd.
  cbn [setTimeout set_timers timers].
  rewrite list_lookup_middle by done.
  split; [reflexivity|].
  assert (set_timers (delete (length (timers w)))
            (setTimeout (BroadcastSessionChange 100 s s) w) = w) as Hback.
  { unfold setTimeout, set_timers. cbn. rewrite delete_last_timer. apply world_eta. }
  cbn [fire world with_world]. rewrite Hback.
  split; [reflexivity|].
  unfold dispatchEvent. cbn.
  split; [by destruct (isMounted w)|].
  by destruct (isMounted w).
Qed.

Lemma updateSessionId_has_no_guard_witness :
  (localStorage (freshWorld "s" 0) !! "odoo_session_id" = Some (Text "s") ∧
   chat_sessionId (freshWorld "s" 0) = "s") ∧
  ∃ m1 m2,
    step (CallUpdateSessionId "s" "s") (boot "s" 0) = Some m1 ∧
    world m1 = setTimeout (BroadcastSessionChange 100 "s" "s") (freshWorld "s" 0) ∧
    step (Fire 0%nat) m1 = Some m2 ∧
    world m2 = dispatchEvent (sessionIdChanged "s" "s") (freshWorld "s" 0) ∧
    dispatched (world m2) = [sessionIdChanged "s" "s"] ∧
    (globalCredentialCheck (world m2) = None ∧
     globalCredentialStatus (world m2) = None ∧
     globalLastCheck (world m2) = 0 ∧
     globalSessionId (world m2) = Some "s" ∧
     timers (world m2) = [ForcedCheck 200]).
Proof.
  split; [by split|].
  exact (updateSessionId_has_no_guard "s" (freshWorld "s" 0) [] []
           eq_refl eq_refl).
Defined.

(** C8, as stated, fails: after a check has cached [Configured] for session
    ["s"], rotating to ["s"] itself emits [sessionIdChanged] (old and new
    both ["s"]) and the cached status is gone. *)
Lemma rotation_to_self_broadcasts :
  (λ m, (globalCredentialStatus (world m), dispatched (world m)))
    <$> run [CallCheck "s" false; Respond 0%nat credentialsFound] (boot "s" 1000)
  = Some (Some (mkStatus true None), [])
  ∧
  (λ m, (globalCredentialStatus (world m), dispatched (world m)))
    <$> run [CallCheck "s" false; Respond 0%nat credentialsFound;
             CallUpdateSessionId "s" "s"; Fire 0%nat] (boot "s" 1000)
  = Some (None, [sessionIdChanged "s" "s"]).
Proof. vm_compute. done. Qed.

(** ** The stored summary holds no secret *)

Lemma similar_mono {A A' : Type} (R S : A → A' → Prop) (p : Prog A) (p' : Prog A') :
  (∀ a a', R a a' → S a a') → similar R p p' → similar S p p'.
Proof.
  intros HR. revert p'.
  induction p as [a|e|k IH|f k IH|r k IH|ms k IH|s k IH]; intros [a'|e'|k'|f' k'|r' k'|ms' k'|s' k'];
    cbn; try done; try (by intros [? ?]; split; auto); auto.
  all: intros [? H]; split; [done|]; intros x; by apply IH.
Qed.

Lemma similar_bind {A A' B B' : Type} (R : A → A' → Prop) (S : B → B' → Prop)
    (p : Prog A) (p' : Prog A') (g : A → Prog B) (g' : A' → Prog B') :
  similar R p p' → (∀ a a', R a a' → similar S (g a) (g' a')) →
  similar S (bind p g) (bind p' g').
Proof.
  intros Hp Hg. revert p' Hp.
  induction p as [a|e|k IH|f k IH|r k IH|ms k IH|s k IH]; intros [a'|e'|k'|f' k'|r' k'|ms' k'|s' k'];
    cbn; try done; try (by intros [? ?]; split; auto); auto.
  all: intros [? H]; split; [done|]; intros x; by apply IH.
Qed.

Lemma similar_try_catch {A A' : Type} (R : A → A' → Prop)
    (p : Prog A) (p' : Prog A') (h : Exn → Prog A) (h' : Exn → Prog A') :
  similar R p p' → (∀ e, similar R (h e) (h' e)) →
  similar R (try_catch p h) (try_catch p' h').
Proof.
  intros Hp Hh. revert p' Hp.
  induction p as [a|e|k IH|f k IH|r k IH|ms k IH|s k IH]; intros [a'|e'|k'|f' k'|r' k'|ms' k'|s' k'];
    cbn; try done; try (by intros [? ?]; split; auto); auto.
  - intros ->. apply Hh.
  all: intros [? H]; split; [done|]; intros x; by apply IH.
Qed.

Lemma similar_try_finally {A A' : Type} (R : A → A' → Prop)
    (p : Prog A) (p' : Prog A') (fin : World → World) :
  similar R p p' → similar R (try_finally p fin) (try_finally p' fin).
Proof.
  revert p'.
  induction p as [a|e|k IH|f k IH|r k IH|ms k IH|s k IH]; intros [a'|e'|k'|f' k'|r' k'|ms' k'|s' k'];
    cbn; try done; try (by intros [? ?]; split; auto); auto.
  all: intros [? H]; split; [done|]; intros x; by apply IH.
Qed.

Lemma assoc_filter (key : string) (keep : string → bool) (fields : list (string * json)) :
  keep key = true →
  assoc key (List.filter (λ field, keep field.1) fields) = assoc key fields.
Proof.
  intros Hk. induction fields as [|[k v] rest IH]; [done|]. cbn.
  destruct (String.eqb_spec k key) as [->|Hne].
  - rewrite Hk. cbn. by rewrite String.eqb_refl.
  - destruct (keep k); cbn; [|done].
    by destruct (String.eqb_spec k key).
Qed.

Lemma assoc_filter_out (key : string) (keep : string → bool) (fields : list (string * json)) :
  keep key = false →
  assoc key (List.filter (λ field, keep field.1) fields) = None.
Proof.
  intros Hk. induction fields as [|[k v] rest IH]; [done|]. cbn.
  destruct (keep k) eqn:Hkk; cbn; [|done].
  destruct (String.eqb_spec k key) as [->|Hne]; [congruence|done].
Qed.

(** The reduced credentials keep their [url], [database] and [username]
    and have nothing else. *)
Lemma member_redactCredentials (j : json) (key : string) :
  member (redactCredentials j) key
  = if summaryField key then member j key else None.
Proof.
  destruct j as [| | | | |fields]; cbn;
    try (by destruct (summaryField _)).
  destruct (summaryField key) eqn:Hk.
  - by apply assoc_filter.
  - by apply assoc_filter_out.
Qed.

Lemma truthy_redactCredentials (j : json) :
  truthy_json (redactCredentials j) = truthy_json j.
Proof. by destruct j. Qed.

Lemma member_redactData (d : json) (key : string) :
  member (redactData d) key
  = if String.eqb key "credentials" then redactCredentials <$> member d key
    else member d key.
Proof.
  destruct d as [| | | | |fields]; cbn; try (by destruct (String.eqb _ _)).
  induction fields as [|[k v] rest IH]; cbn; [by destruct (String.eqb _ _)|].
  destruct (String.eqb_spec k "credentials") as [->|Hk]; cbn.
  - destruct (String.eqb_spec "credentials" key) as [<-|Hne]; [done|]. exact IH.
  - destruct (String.eqb_spec k key) as [->|Hne]; [|exact IH].
    by destruct (String.eqb_spec key "credentials").
Qed.

Lemma broken_redact (x : NetReply) : broken (redact x) = broken x.
Proof. by destruct x as [[]|]. Qed.

Lemma confirmed_redact (x : NetReply) :
  confirmed (redact x) = (λ c : jsval, redactCredentials <$> c) <$> confirmed x.
Proof.
  unfold confirmed. destruct x as [d|m]; [|done]. cbn [redact].
  destruct d as [| | | | |fields]; try done.
  change (match redactData (JObj fields) with JNull => None | _ => ?a end) with a.
  rewrite !member_redactData. cbn [String.eqb].
  change (String.eqb "success" "credentials") with false.
  change (String.eqb "credentials" "credentials") with true. cbn iota.
  set (d := JObj fields).
  destruct (member d "credentials") as [c|]; cbn; [|by rewrite andb_false_r].
  rewrite truthy_redactCredentials.
  by destruct (truthy (assoc "success" fields) && truthy_json c).
Qed.

Lemma hasCredentials_redact (d : json) : hasCredentials (redactData d) = hasCredentials d.
Proof.
  destruct (broken (Data d)) eqn:Hd.
  { by destruct d. }
  assert (broken (Data (redactData d)) = false) as Hd' by (by destruct d).
  rewrite (hasCredentials_data d Hd), (hasCredentials_data _ Hd').
  change (Data (redactData d)) with (redact (Data d)).
  rewrite confirmed_redact. by destruct (confirmed (Data d)).
Qed.

Lemma similar_Ret {A A' : Type} (R : A → A' → Prop) (a : A) (a' : A') :
  R a a' → similar R (Ret a) (Ret a').
Proof. done. Qed.

Lemma similar_update (f : World → World) : similar eq (update f) (update f).
Proof. done. Qed.

Lemma similar_ask {A : Type} (f : World → A) : similar eq (ask f) (ask f).
Proof. by intros w. Qed.

Lemma similar_get (o : jsval) (key : string) : similar eq (get o key) (get o key).
Proof. unfold get. by destruct o as [[]|]. Qed.

Lemma similar_hasCredentials (d : json) :
  similar eq (hasCredentials (redactData d)) (hasCredentials d).
Proof.
  rewrite hasCredentials_redact. unfold hasCredentials.
  apply (similar_bind eq); [apply similar_get|]. intros success ? <-.
  destruct (truthy success); [|done].
  apply (similar_bind eq); [apply similar_get|]. by intros credentials ? <-.
Qed.

(** The service is asked the same; the page is handed the reduced body. *)
Lemma similar_getOdooCredentials (s : string) :
  similar (λ d d', d = redactData d') (getOdooCredentials s) (getOdooCredentials s).
Proof. unfold getOdooCredentials. split; [done|]. by intros [d|m]. Qed.

Lemma similar_get_credentials (d : json) :
  similar (λ c c' : jsval, c = redactCredentials <$> c')
          (get (Some (redactData d)) "credentials") (get (Some d) "credentials").
Proof.
  unfold get. destruct d as [| | | | |fields]; try done.
  change (similar (λ c c' : jsval, c = redactCredentials <$> c')
            (Ret (member (redactData (JObj fields)) "credentials"))
            (Ret (member (JObj fields) "credentials"))).
  cbn [similar]. by rewrite member_redactData.
Qed.

(** Reading [url], [database] or [username] gives the same on both. *)
Lemma similar_get_field (c : jsval) (key : string) :
  summaryField key = true →
  similar eq (get (redactCredentials <$> c) key) (get c key).
Proof.
  intros Hk. unfold get. destruct c as [j|]; [|done]. cbn [fmap option_fmap option_map].
  destruct j as [| | | | |fields]; try done.
  change (similar eq (Ret (member (redactCredentials (JObj fields)) key))
                     (Ret (member (JObj fields) key))).
  cbn [similar]. by rewrite member_redactCredentials, Hk.
Qed.

Lemma similar_testSessions (sid : string) (sessions : list string) :
  similar (λ f f', f = redactFound f') (testSessions sid sessions) (testSessions sid sessions).
Proof.
  induction sessions as [|s rest IH]; cbn [testSessions]; [done|].
  destruct (negb (String.eqb s sid)); [|exact IH].
  apply (similar_bind (λ h h' : option Found, h = redactFound <$> h')).
  - apply similar_try_catch; [|done].
    apply (similar_bind (λ d d', d = redactData d')); [apply similar_getOdooCredentials|].
    intros ? testCheck ->.
    apply (similar_bind eq); [apply similar_hasCredentials|]. intros ok ? <-.
    destruct ok; [|done].
    apply (similar_bind (λ c c' : jsval, c = redactCredentials <$> c'));
      [apply similar_get_credentials|].
    by intros ? credentials ->.
  - intros ? [result|] ->; [done|exact IH].
Qed.

Lemma similar_findAvailableSession (sid : string) :
  similar (λ f f', f = redactFound f') (findAvailableSession sid) (findAvailableSession sid).
Proof.
  unfold findAvailableSession. apply similar_try_catch; [|done].
  apply (similar_bind (λ d d', d = redactData d')); [apply similar_getOdooCredentials|].
  intros ? currentCheck ->.
  apply (similar_bind eq); [apply similar_hasCredentials|]. intros ok ? <-.
  destruct ok.
  - apply (similar_bind (λ c c' : jsval, c = redactCredentials <$> c'));
      [apply similar_get_credentials|].
    by intros ? credentials ->.
  - apply (similar_bind eq); [apply similar_ask|]. intros hints ? <-.
    apply similar_testSessions.
Qed.

Lemma summaryField_url : summaryField "url" = true.
Proof. done. Qed.
Lemma summaryField_database : summaryField "database" = true.
Proof. done. Qed.
Lemma summaryField_username : summaryField "username" = true.
Proof. done. Qed.

Lemma similar_recoverSession (sid : string) :
  similar eq (recoverSession sid (updateSessionId sid))
             (recoverSession sid (updateSessionId sid)).
Proof.
  unfold recoverSession.
  apply (similar_bind (λ f f', f = redactFound f')); [apply similar_findAvailableSession|].
  intros ? [|c credentials] ->; [done|]. cbn [redactFound].
  destruct (negb (String.eqb c sid)); [|done].
  apply (similar_bind eq); [done|]. intros _ _ _.
  apply (similar_bind eq); [by apply similar_get_field|]. intros url ? <-.
  apply (similar_bind eq); [by apply similar_get_field|]. intros database ? <-.
  apply (similar_bind eq); [by apply similar_get_field|]. intros username ? <-.
  done.
Qed.

Lemma similar_every (j : json) (fields : list string) :
  similar eq (every fields (λ field, v ← get (Some j) field; Ret (truthy v)))
             (every fields (λ field, v ← get (Some j) field; Ret (truthy v))).
Proof.
  induction fields as [|field rest IH]; cbn [every]; [done|].
  apply (similar_bind eq).
  - apply (similar_bind eq); [apply similar_get|]. by intros v ? <-.
  - intros b ? <-. by destruct b.
Qed.

Lemma similar_checkLocalCredentials (sid : string) (now : Z) (item : option StoreItem) :
  similar eq (checkLocalCredentials sid now item) (checkLocalCredentials sid now item).
Proof.
  unfold checkLocalCredentials.
  destruct item as [item|]; [|done].
  destruct (truthy_item (Some item)); [|done].
  apply similar_try_catch; [|done].
  apply (similar_bind eq); [by destruct item|]. intros parsedCredentials ? <-.
  apply (similar_bind eq); [apply similar_every|]. intros hasAllFields ? <-.
  destruct hasAllFields; [|done].
  apply (similar_bind (λ d d', d = redactData d')); [apply similar_getOdooCredentials|].
  intros ? credentialCheck ->.
  apply (similar_bind eq); [apply similar_hasCredentials|]. intros ok ? <-.
  by destruct ok.
Qed.

(** The fetch goes through the same steps whether the replies carry other
    properties in their [credentials] or not. *)
Lemma similar_fetchCredentials (sid : string) (now : Z) :
  similar eq (fetchCredentials sid now) (fetchCredentials sid now).
Proof.
  unfold fetchCredentials.
  apply similar_try_finally, similar_try_catch; [|done].
  apply (similar_bind eq); [apply similar_ask|]. intros localCredentials ? <-.
  apply (similar_bind eq); [apply similar_checkLocalCredentials|]. intros returned ? <-.
  destruct returned as [b|]; [done|].
  apply (similar_bind (λ d d', d = redactData d')); [apply similar_getOdooCredentials|].
  intros ? credentialCheck ->.
  apply (similar_bind eq); [apply similar_hasCredentials|]. intros ok ? <-.
  destruct ok.
  - apply (similar_bind (λ c c' : jsval, c = redactCredentials <$> c'));
      [apply similar_get_credentials|].
    intros ? credentials ->.
    apply (similar_bind eq); [by apply similar_get_field|]. intros url ? <-.
    apply (similar_bind eq); [by apply similar_get_field|]. intros database ? <-.
    apply (similar_bind eq); [by apply similar_get_field|]. intros username ? <-.
    done.
  - apply (similar_bind eq); [apply similar_recoverSession|]. intros ok ? <-.
    destruct ok; [|done].
    cbn. split; [done|]. split; [done|]. split; [done|]. by intros [v|e].
Qed.

(** Run against a service and against the same service with its replies
    reduced, similar programs end in the same world with the same requests
    made, at the same point. *)
Lemma exec_similar {A A' : Type} (R : A → A' → Prop) (remote : Remote)
    (p : Prog A) (p' : Prog A') (w : World) (log : list NetRequest) :
  similar R p p' →
  (exec (λ history r, redact (remote history r)) p w log).1
  = (exec remote p' w log).1 ∧
  match (exec (λ history r, redact (remote history r)) p w log).2,
        (exec remote p' w log).2 with
  | Finished (Resolved a), Finished (Resolved a') => R a a'
  | Finished (Rejected e), Finished (Rejected e') => e = e'
  | OnCheck s k, OnCheck s' k' => s = s' ∧ ∀ x, similar R (k x) (k' x)
  | _, _ => False
  end.
Proof.
  revert p' w log.
  induction p as [a|e|k IH|f k IH|r k IH|ms k IH|s k IH];
    intros [a'|e'|k'|f' k'|r' k'|ms' k'|s' k'] w log; cbn [similar]; try done.
  - intros H. cbn [exec]. apply IH, H.
  - intros [<- H]. cbn [exec]. apply IH, H.
  - intros [<- H]. cbn [exec]. apply IH, H.
  - intros [<- H]. cbn [exec]. apply IH, H.
Qed.

Lemma confirmedIn_app (t t' : list Event) :
  confirmedIn (t ++ t') = (confirmedIn t ++ confirmedIn t')%list.
Proof. apply omap_app. Qed.

Lemma confirmedIn_Asked (r : NetRequest) (x : NetReply) (j : json) (t : list Event) :
  confirmed x = Some (Some j) → confirmedIn (Asked r x :: t) = j :: confirmedIn t.
Proof. intros Hx. unfold confirmedIn. cbn. by rewrite Hx. Qed.

Lemma confirmedIn_asks (t : list Event) (r : NetRequest) (x : NetReply) (j : json) :
  (r, x) ∈ asks t → confirmed x = Some (Some j) → j ∈ confirmedIn t.
Proof.
  intros Hin Hx. induction t as [|e t IH]; [by apply elem_of_nil in Hin|].
  destruct e as [f|r' x'|ms|s o]; autorewrite with events in Hin;
    try (specialize (IH Hin); unfold confirmedIn in *; cbn; exact IH).
  apply elem_of_cons in Hin as [[= <- <-]|Hin].
  - rewrite (confirmedIn_Asked r x j t Hx). by left.
  - specialize (IH Hin). unfold confirmedIn in *. cbn.
    destruct (confirmed x') as [[j'|]|]; [by right|done|done].
Qed.

Lemma writesSummaryOf_mono (sources sources' : list json) (f : World → World) :
  sources ⊆ sources' → writesSummaryOf sources f → writesSummaryOf sources' f.
Proof.
  intros Hs Hf w. destruct (Hf w) as [H|[H|(j & Hj & H)]]; [by left|by right; left|].
  right; right. exists j. split; [by apply Hs|done].
Qed.

Lemma writesSummaryOf_frame (sources : list json) (f : World → World) :
  (∀ w, localStorage (f w) = localStorage w) → writesSummaryOf sources f.
Proof. intros Hf w. left. by rewrite Hf. Qed.

Lemma writesSummaryOf_discard (sources : list json) : writesSummaryOf sources discardSummary.
Proof. intros w. right; left. apply lookup_delete_eq. Qed.

Lemma writesSummaryOf_store (sources : list json) (j : json) :
  j ∈ sources → writesSummaryOf sources (storeSummary j).
Proof. intros Hj w. right; right. exists j. split; [done|]. apply lookup_insert_eq. Qed.

Lemma writesSummaryOf_dispatch (sources : list json) (e : WindowEvent) :
  writesSummaryOf sources (dispatchEvent e).
Proof.
  apply writesSummaryOf_frame. intros w. unfold dispatchEvent. cbn.
  by destruct (isMounted w), e.
Qed.

Lemma writesSummaryOf_rotation (sources : list json) (old new : string) (j : json) :
  j ∈ sources → Forall (writesSummaryOf sources) (rotation old new j).
Proof.
  intros Hj. unfold rotation. repeat apply Forall_cons_2; try apply Forall_nil_2.
  - intros w. left. cbn. by rewrite lookup_insert_ne.
  - by apply writesSummaryOf_frame.
  - by apply writesSummaryOf_frame.
  - by apply (writesSummaryOf_store sources j).
  - apply writesSummaryOf_dispatch.
Qed.

Lemma writesSummaryOf_LocalPart (sources : list json) (sid : string) (t : list Event) :
  LocalPart sid t → Forall (writesSummaryOf sources) (writes t).
Proof.
  intros [| |x Hx]; autorewrite with events;
    repeat apply Forall_cons_2; try apply Forall_nil_2;
    apply writesSummaryOf_discard.
Qed.

Lemma writesSummaryOf_Recovery (sid : string) (t : list Event) (b : bool) :
  Recovery sid t b → Forall (writesSummaryOf (confirmedIn t)) (writes t).
Proof.
  intros (_ & _ & [[_ ->]|(c & x & j & _ & Hl & Hx & _ & ->)]).
  - apply Forall_nil_2.
  - apply writesSummaryOf_rotation.
    apply (confirmedIn_asks t (requestFor c) x j); [|done].
    apply last_Some in Hl as [l' ->]. find_elem.
Qed.

Lemma writesSummaryOf_FetchRun (sid : string) (now : Z) (t : list Event) (o : Outcome Value) :
  FetchRun sid now t o → Forall (writesSummaryOf (confirmedIn t)) (writes t).
Proof.
  intros [x Hx|x Hb Hx|pre x Hpre Hx|pre x j Hpre Hx|pre x tr Hpre Hb Hx Hrec
         |pre x tr v Hpre Hb Hx Hrec|pre x tr e Hpre Hb Hx Hrec];
    autorewrite with events;
    repeat (first [apply Forall_app_2 | apply Forall_cons_2 | apply Forall_nil_2]);
    try (by apply writesSummaryOf_frame);
    try apply writesSummaryOf_discard;
    try (by eapply writesSummaryOf_LocalPart).
  - apply writesSummaryOf_store. rewrite confirmedIn_app.
    apply elem_of_app. right. rewrite (confirmedIn_Asked _ x j _ Hx). by left.
  - eapply Forall_impl; [by eapply writesSummaryOf_Recovery|].
    intros f. apply writesSummaryOf_mono. intros j Hj.
    rewrite confirmedIn_app. apply elem_of_app. right.
    change (Asked (requestFor sid) x :: tr ++ ?l)%list
      with ([Asked (requestFor sid) x] ++ tr ++ l)%list.
    rewrite !confirmedIn_app. apply elem_of_app. right. apply elem_of_app. by left.
  - eapply Forall_impl; [by eapply writesSummaryOf_Recovery|].
    intros f. apply writesSummaryOf_mono. intros j Hj.
    rewrite confirmedIn_app. apply elem_of_app. right.
    change (Asked (requestFor sid) x :: tr ++ ?l)%list
      with ([Asked (requestFor sid) x] ++ tr ++ l)%list.
    rewrite !confirmedIn_app. apply elem_of_app. right. apply elem_of_app. by left.
  - eapply Forall_impl; [by eapply writesSummaryOf_Recovery|].
    intros f. apply writesSummaryOf_mono. intros j Hj.
    rewrite confirmedIn_app. apply elem_of_app. right.
    change (Asked (requestFor sid) x :: tr ++ ?l)%list
      with ([Asked (requestFor sid) x] ++ tr ++ l)%list.
    rewrite !confirmedIn_app. apply elem_of_app. right. apply elem_of_app. by left.
Qed.

Lemma saveCredentials_writes (sid : string) (credentials : json) :
  always (saveCredentials sid credentials)
         (λ t o, Forall (writesSummaryOf [credentials]) (writes t)).
Proof.
  assert (writesSummaryOf [credentials] (storeSummary credentials)) as Hstore
    by (apply writesSummaryOf_store; by left).
  unfold saveCredentials.
  destruct (broken (Data credentials)) eqn:Hc.
  { destruct credentials; try done. cbn. apply Forall_nil_2. }
  rewrite !(get_data credentials _ Hc).
  unfold saveOdooCredentials, setItem, update, Date_now, ask.
  apply always_try_catch. cbn.
  intros [d|msg]; cbn; [|autorewrite with events;
                         repeat apply Forall_cons_2; try apply Forall_nil_2; exact Hstore].
  apply always_get; [intros e; cbn|intros success].
  { autorewrite with events. repeat apply Forall_cons_2; try apply Forall_nil_2.
    exact Hstore. }
  destruct (truthy success); cbn.
  - intros w. autorewrite with events.
    repeat apply Forall_cons_2; try apply Forall_nil_2;
      try (by apply writesSummaryOf_frame);
      try exact Hstore; apply writesSummaryOf_dispatch.
  - apply always_get; [intros e; cbn|intros message; cbn];
      autorewrite with events; repeat apply Forall_cons_2; try apply Forall_nil_2;
      exact Hstore.
Qed.

Lemma saveCredentials_stored (remote : Remote) (sid : string) (credentials : json)
    (w : World) (log : list NetRequest) :
  localStorage (exec remote (saveCredentials sid credentials) w log).1.1
  = match credentials with
    | JNull => localStorage w
    | _ => <["odoo_credentials" :=
              JsonText (credentialSummary (member credentials "url")
                                          (member credentials "database")
                                          (member credentials "username"))]>
           (localStorage w)
    end.
Proof.
  unfold saveCredentials, saveOdooCredentials, setItem, update, Date_now, ask, get.
  destruct credentials; cbn; try done;
    (destruct (remote log _) as [d|msg]; cbn; [|done];
     destruct d; cbn; try done;
     match goal with |- context [truthy ?v] => destruct (truthy v) eqn:? end; cbn;
     try done;
     unfold dispatchEvent; cbn;
     repeat match goal with |- context [if ?b then _ else _] => destruct b eqn:? end;
     try done;
     repeat match goal with |- context [match ?v with _ => _ end] => destruct v eqn:? end;
     done).
Qed.

(** C9: the entry ['odoo_credentials'] of localStorage only ever receives
    the [url], the [database] and the [username] of its source, each under
    its own name, and nothing else of it.  Every assignment made by a save
    leaves the entry as it is, removes it or stores that summary of the
    object being saved; every assignment made by a check or a recovery
    leaves it, removes it or stores that summary of credentials which a
    reply of the same run confirmed.  No other property of the source (a
    password, a token) has any influence: a check and a recovery go through
    the same steps (the same requests, the same assignments, the same
    result) when every other property is taken out of the credentials of
    each reply, and end in the same world; and two saves whose credentials
    agree on the three fields leave the same localStorage, whatever their
    other fields are and whatever the service replies. *)
Theorem stored_summary_has_no_secret
    (sid : string) (now : Z) (c1 c2 : json) (remote1 remote2 : Remote) (w : World) :
  get (Some c1) "url" = get (Some c2) "url" →
  get (Some c1) "database" = get (Some c2) "database" →
  get (Some c1) "username" = get (Some c2) "username" →
  (∀ url database username key,
     key ∉ requiredFields →
     member (credentialSummary url database username) key = None) ∧
  always (saveCredentials sid c1) (λ t o, Forall (writesSummaryOf [c1]) (writes t)) ∧
  always (fetchCredentials sid now)
         (λ t o, Forall (writesSummaryOf (confirmedIn t)) (writes t)) ∧
  always (recoverSession sid (updateSessionId sid))
         (λ t o, Forall (writesSummaryOf (confirmedIn t)) (writes t)) ∧
  (∀ j key, member (redactCredentials j) key
            = if bool_decide (key ∈ requiredFields) then member j key else None) ∧
  similar eq (fetchCredentials sid now) (fetchCredentials sid now) ∧
  similar eq (recoverSession sid (updateSessionId sid))
             (recoverSession sid (updateSessionId sid)) ∧
  (∀ remote w0 log,
     (exec (λ history r, redact (remote history r)) (fetchCredentials sid now) w0 log).1
     = (exec remote (fetchCredentials sid now) w0 log).1) ∧
  (∀ remote w0 log,
     exec (λ history r, redact (remote history r))
          (recoverSession sid (updateSessionId sid)) w0 log
     = exec remote (recoverSession sid (updateSessionId sid)) w0 log) ∧
  localStorage (exec remote1 (saveCredentials sid c1) w []).1.1
  = localStorage (exec remote2 (saveCredentials sid c2) w []).1.1.
Proof.
  intros Hurl Hdatabase Husername.
  split; [|split; [|split; [|split; [|split; [|split; [|split; [|split; [|split]]]]]]]].
  - intros url database username key Hkey. unfold credentialSummary, requiredFields in *.
    assert (String.eqb "url" key = false) as Hu by (apply String.eqb_neq; set_solver).
    assert (String.eqb "database" key = false) as Hd by (apply String.eqb_neq; set_solver).
    assert (String.eqb "username" key = false) as Hn by (apply String.eqb_neq; set_solver).
    by destruct url, database, username; cbn; rewrite ?Hu, ?Hd, ?Hn.
  - apply saveCredentials_writes.
  - eapply always_mono; [|apply fetchCredentials_runs].
    intros t o. apply writesSummaryOf_FetchRun.
  - eapply always_mono; [|apply recoverSession_runs].
    intros t o (b & _ & Hrec). by eapply writesSummaryOf_Recovery.
  - apply member_redactCredentials.
  - apply similar_fetchCredentials.
  - apply similar_recoverSession.
  - intros remote w0 log.
    apply (exec_similar eq remote _ _ w0 log (similar_fetchCredentials sid now)).
  - intros remote w0 log.
    pose proof (exec_similar eq remote _ _ w0 log (similar_recoverSession sid)) as [Hw Hat].
    pose proof (exec_finishes (λ history r, redact (remote history r))
                  (recoverSession sid (updateSessionId sid)) w0 log) as (w1 & l1 & o1 & H1).
    { eapply always_mono; [|apply recoverSession_runs].
      intros t o' (b & _ & Hr & _). exact Hr. }
    pose proof (exec_finishes remote
                  (recoverSession sid (updateSessionId sid)) w0 log) as (w2 & l2 & o2 & H2).
    { eapply always_mono; [|apply recoverSession_runs].
      intros t o' (b & _ & Hr & _). exact Hr. }
    rewrite H1, H2 in Hw, Hat |- *. cbn in Hw, Hat. injection Hw as -> ->.
    destruct o1 as [a|e], o2 as [a'|e']; try done; by subst.
  - rewrite !saveCredentials_stored.
    unfold get in *.
    destruct c1, c2; try done; cbn in *; congruence.
Qed.

Lemma stored_summary_has_no_secret_witness :
  let c1 := JObj [("url", JStr "https://x"); ("database", JStr "d");
                  ("username", JStr "u"); ("password", JStr "p")] in
  let c2 := JObj [("url", JStr "https://x"); ("database", JStr "d");
                  ("username", JStr "u"); ("password", JStr "another")] in
  let w := freshWorld "s" 0 in
  (get (Some c1) "url" = get (Some c2) "url" ∧
   get (Some c1) "database" = get (Some c2) "database" ∧
   get (Some c1) "username" = get (Some c2) "username") ∧
  localStorage (exec (λ _ _, credentialsFound) (saveCredentials "s" c1) w []).1.1
  = localStorage (exec (λ _ _, NetworkError "timeout") (saveCredentials "s" c2) w []).1.1 ∧
  localStorage (exec (λ _ _, credentialsFound) (saveCredentials "s" c1) w []).1.1
    !! "odoo_credentials"
  = Some (JsonText sampleCredentials).
Proof.
  cbv zeta. split; [by repeat split|]. split.
  - apply (stored_summary_has_no_secret "s" 0
             (JObj [("url", JStr "https://x"); ("database", JStr "d");
                    ("username", JStr "u"); ("password", JStr "p")])
             (JObj [("url", JStr "https://x"); ("database", JStr "d");
                    ("username", JStr "u"); ("password", JStr "another")])
             (λ _ _, credentialsFound) (λ _ _, NetworkError "timeout")
             (freshWorld "s" 0)); reflexivity.
  - vm_compute. done.
Defined.

(** ** Clearing *)

Lemma settled_set_entry (p : PromiseId) (o : Outcome Value) (m : Machine) :
  is_Some (promises m !! p) →
  settled (set_entry p (Paused (Finished o)) m) p = Some o.
Proof.
  intros [e He]. unfold settled, set_entry. cbn.
  rewrite list_lookup_alter, decide_True by done. by rewrite He.
Qed.

(** What [clearCredentials] does once the reply to its request is in,
    whatever the reply and the world it finds. *)
Lemma clearCredentials_resumed (sid : string) (w : World) :
  ∃ k, advance (clearCredentials sid) w = (w, OnNet (ClearCredentials sid) k) ∧
       ∀ reply w2,
         advance (k reply) w2
         = (set_globalLastCheck (clock w2)
              (set_globalCredentialStatus (Some (mkStatus false None))
                 (set_globalCredentialCheck None (discardSummary w2))),
            Finished (Resolved VUndefined)).
Proof.
  eexists. split; [reflexivity|]. by intros [d|msg] w2.
Qed.

(** C10: [clearCredentials] settles without throwing on every reply of the
    service (success, failure body, rejection) and in every world the
    reply finds: the stored summary is gone, the cached status is
    not-configured with no error, stamped with the time of completion, and
    no fetch is recorded as in flight.  Hence two clears in a row both
    resolve and end in that same state. *)
Theorem clearCredentials_is_total (sid : string) (m m2 : Machine)
    (reply r1 r2 : NetReply) :
  let p := length (promises m) in
  promises m2 !! p = promises (spawn 0 (clearCredentials sid) m).1 !! p →
  (∃ m3,
     step (Respond p reply) m2 = Some m3 ∧
     settled m3 p = Some (Resolved VUndefined) ∧
     localStorage (world m3) !! "odoo_credentials" = None ∧
     globalCredentialStatus (world m3) = Some (mkStatus false None) ∧
     globalLastCheck (world m3) = clock (world m2) ∧
     globalCredentialCheck (world m3) = None) ∧
  (∃ m4,
     run [CallClear sid; Respond p r1; CallClear sid; Respond (S p) r2] m = Some m4 ∧
     settled m4 p = Some (Resolved VUndefined) ∧
     settled m4 (S p) = Some (Resolved VUndefined) ∧
     localStorage (world m4) !! "odoo_credentials" = None ∧
     globalCredentialStatus (world m4) = Some (mkStatus false None) ∧
     globalLastCheck (world m4) = clock (world m) ∧
     globalCredentialCheck (world m4) = None).
Proof.
  intros p Hp.
  destruct (clearCredentials_resumed sid (world m)) as (k & Hk & Hres).
  assert (∀ m0, promises (spawn 0 (clearCredentials sid) m0).1 !! length (promises m0)
                = Some (mkEntry 0 (Paused (OnNet (ClearCredentials sid) k)))) as Hspawn.
  { intros m0. unfold spawn.
    destruct (clearCredentials_resumed sid (world m0)) as (k0 & Hk0 & _).
    assert (k0 = k) as -> by (cbn in Hk0, Hk; congruence).
    rewrite Hk0. cbn. by rewrite list_lookup_middle. }
  assert (∀ q d m0 x,
            promises m0 !! q = Some (mkEntry d (Paused (OnNet (ClearCredentials sid) k))) →
            ∃ m', step (Respond q x) m0 = Some m' ∧
                  settled m' q = Some (Resolved VUndefined) ∧
                  world m' = set_globalLastCheck (clock (world m0))
                               (set_globalCredentialStatus (Some (mkStatus false None))
                                  (set_globalCredentialCheck None
                                     (discardSummary (world m0)))) ∧
                  length (promises m') = length (promises m0) ∧
                  (∀ q', q' ≠ q → promises m' !! q' = promises m0 !! q')) as Hstep.
  { intros q d m0 x Hq. cbn [step]. rewrite Hq. eexists. split; [reflexivity|].
    unfold resume. rewrite Hres. cbn [requested].
    split; [|split; [done|split]].
    - apply settled_set_entry. cbn. eauto.
    - cbn. apply length_alter.
    - intros q' Hne. cbn. by rewrite list_lookup_alter_ne. }
  split.
  - unfold p in Hp. rewrite Hspawn in Hp. fold p in Hp.
    destruct (Hstep p 0%nat m2 reply Hp) as (m3 & Hs & Hset & Hw & _).
    exists m3. rewrite Hw. cbn. repeat split; try done. apply lookup_delete_eq.
  - set (m1 := (spawn 0 (clearCredentials sid) m).1).
    assert (world m1 = world m ∧ length (promises m1) = S p) as [Hw1 Hl1].
    { unfold m1, spawn. rewrite Hk. cbn. rewrite length_app. cbn. split; [done|]. unfold p. lia. }
    destruct (Hstep p 0%nat m1 r1 (Hspawn m)) as (ma & Hsa & Hseta & Hwa & Hla & Hfa).
    set (mb := (spawn 0 (clearCredentials sid) ma).1).
    assert (promises mb !! S p
            = Some (mkEntry 0 (Paused (OnNet (ClearCredentials sid) k)))) as Hb.
    { unfold mb. rewrite <- Hl1, <- Hla. apply Hspawn. }
    assert (world mb = world ma ∧ promises mb !! p = promises ma !! p) as [Hwb Hpb].
    { unfold mb, spawn.
      destruct (clearCredentials_resumed sid (world ma)) as (k0 & Hk0 & _).
      rewrite Hk0. cbn. split; [done|]. rewrite lookup_app_l; [done|]. lia. }
    destruct (Hstep (S p) 0%nat mb r2 Hb) as (m4 & Hs4 & Hset4 & Hw4 & Hl4 & Hf4).
    exists m4. split.
    { cbn [run]. change (step (CallClear sid) m) with (Some m1). cbv beta iota.
      rewrite Hsa. change (step (CallClear sid) ma) with (Some mb). cbv beta iota.
      by rewrite Hs4. }
    split.
    { unfold settled. rewrite Hf4 by lia. rewrite Hpb. exact Hseta. }
    split; [done|]. rewrite Hw4, Hwb, Hwa, Hw1. cbn.
    repeat split; try done. apply lookup_delete_eq.
Qed.

Lemma clearCredentials_is_total_witness :
  ∃ m4,
    run [CallClear "s"; Respond 0%nat (NetworkError "offline");
         CallClear "s"; Respond 1%nat credentialsMissing] (boot "s" 1000) = Some m4 ∧
    settled m4 0%nat = Some (Resolved VUndefined) ∧
    settled m4 1%nat = Some (Resolved VUndefined) ∧
    localStorage (world m4) !! "odoo_credentials" = None ∧
    globalCredentialStatus (world m4) = Some (mkStatus false None) ∧
    globalLastCheck (world m4) = 1000 ∧
    globalCredentialCheck (world m4) = None.
Proof.
  exact (proj2 (clearCredentials_is_total "s" (boot "s" 1000)
                  (spawn 0 (clearCredentials "s") (boot "s" 1000)).1
                  credentialsFound (NetworkError "offline") credentialsMissing
                  eq_refl)).
Defined.

(** ** Starting a fetch *)

(** The body of a fetch runs at once up to its first request, which is for
    the session of the call; on the way it may discard a malformed or
    incomplete summary.  When the reply to that request confirms
    credentials, the fetch ends there: it resolves to [true] and assigns
    the cache, stamped with the time the call was made, whatever the world
    holds by then. *)
Lemma fetchCredentials_starts (sid : string) (now : Z) (w : World) :
  ∃ k w',
    advance (fetchCredentials sid now) w = (w', OnNet (requestFor sid) k) ∧
    (w' = w ∨ w' = discardSummary w) ∧
    ∀ reply j w2,
      confirmed reply = Some (Some j) →
      ∃ w3,
        advance (k reply) w2 = (w3, Finished (Resolved (VBool true))) ∧
        globalCredentialStatus w3 = Some (mkStatus true None) ∧
        globalLastCheck w3 = now ∧
        globalCredentialCheck w3 = None.
Proof.
  assert (∀ reply j, confirmed reply = Some (Some j) →
            ∃ d, reply = Data d ∧ broken (Data d) = false ∧
                 hasCredentials d = Ret true ∧
                 member d "credentials" = Some j ∧
                 ∀ key, get (Some j) key = Ret (member j key)) as Hconf.
  { intros [d|msg] j Hr; [|done]. exists d.
    assert (broken (Data d) = false) as Hd by (by destruct d).
    split; [done|]. split; [done|]. split; [|split].
    - rewrite (hasCredentials_data d Hd), Hr. by rewrite bool_decide_eq_true_2.
    - by apply confirmed_credentials.
    - intros key. apply confirmed_truthy in Hr. by destruct j. }
  assert (∀ (h : Exn → Prog Value) w2 reply j,
            confirmed reply = Some (Some j) →
            ∃ w3,
              advance
                (try_finally
                   (try_catch
                      (check ← match reply with
                               | Data d => Ret d
                               | NetworkError m =>
                                   Throw (Error ("Failed to get Odoo credentials: " +:+ m))
                               end;
                       ok ← hasCredentials check;
                       if (ok : bool) then
                         credentials ← get (Some check) "credentials";
                         url ← get credentials "url";
                         database ← get credentials "database";
                         username ← get credentials "username";
                         setItem "odoo_credentials"
                           (JsonText (credentialSummary url database username));;
                         update (setGlobalStatus (mkStatus true None) now);;
                         Ret (VBool true)
                       else
                         recoverySuccessful ← recoverSession sid (updateSessionId sid);
                         if (recoverySuccessful : bool) then
                           update clearGlobalCache;;
                           AwaitTimeout 500
                             (AwaitCheck true (λ settled,
                                match settled with
                                | Resolved v => Ret v
                                | Rejected e => Throw e
                                end))
                         else
                           update (setGlobalStatus (mkStatus false None) now);;
                           Ret (VBool false))
                      h)
                   (set_globalCredentialCheck None)) w2
              = (w3, Finished (Resolved (VBool true))) ∧
              globalCredentialStatus w3 = Some (mkStatus true None) ∧
              globalLastCheck w3 = now ∧
              globalCredentialCheck w3 = None) as Hdirect.
  { intros h w2 reply j Hr.
    destruct (Hconf reply j Hr) as (d & -> & Hd & Hhas & Hc & Hget).
    cbn. rewrite Hhas. cbn. rewrite (get_data d "credentials" Hd). cbn.
    rewrite Hc. rewrite (Hget "url"). cbn. rewrite (Hget "database"). cbn.
    rewrite (Hget "username"). cbn. eexists. split; [reflexivity|]. done. }
  unfold fetchCredentials, getItem, ask, checkLocalCredentials.
  cbn -[every]. unfold discardSummary.
  destruct (localStorage w !! "odoo_credentials") as [[s|j0]|] eqn:Hitem;
    cbn -[every].
  - destruct (negb (String.eqb s "")); cbn -[every];
      (eexists _, _; split; [reflexivity|]; split; [by (left + right)|]);
      intros reply j w2 Hr; apply (Hdirect _ w2 reply j Hr).
  - destruct (broken (Data j0)) eqn:Hj0.
    + destruct j0; try done. cbn.
      eexists _, _. split; [reflexivity|]. split; [by right|].
      intros reply j w2 Hr; apply (Hdirect _ w2 reply j Hr).
    + rewrite (every_requiredFields j0 Hj0).
      generalize (forallb (λ field, truthy (member j0 field)) requiredFields).
      intros [|]; cbn.
      * eexists _, _. split; [reflexivity|]. split; [by left|].
        intros reply j w2 Hr.
        destruct (Hconf reply j Hr) as (d & -> & Hd & Hhas & Hc & Hget).
        cbn. rewrite Hhas. cbn. eexists. split; [reflexivity|]. done.
      * eexists _, _. split; [reflexivity|]. split; [by right|].
        intros reply j w2 Hr; apply (Hdirect _ w2 reply j Hr).
  - eexists _, _. split; [reflexivity|]. split; [by left|].
    intros reply j w2 Hr; apply (Hdirect _ w2 reply j Hr).
Qed.

(** ** Calls of [checkCredentials] *)




Lemma globalSessionId_trackSession (sid : string) (w : World) :
  globalSessionId (trackSession sid w) = Some sid.
Proof. done. Qed.

Lemma cachedStatus_forced (now : Z) (w : World) : cachedStatus true now w = None.
Proof. done. Qed.

(** A call that finds a fetch in flight for its session returns that
    promise and starts nothing. *)
Lemma checkCredentials_attaches (d : nat) (sid : string) (skip : bool)
    (m : Machine) (q : PromiseId) :
  globalCredentialCheck (trackSession sid (world m)) = Some q →
  checkCredentials d sid skip m = (with_world (trackSession sid (world m)) m, q).
Proof. intros Hq. unfold checkCredentials. by rewrite Hq. Qed.

(** A call answered from the cache returns a promise that is already
    resolved, and starts nothing. *)
Lemma checkCredentials_cached (d : nat) (sid : string) (skip : bool)
    (m : Machine) (st : Status) :
  let w := trackSession sid (world m) in
  globalCredentialCheck w = None →
  cachedStatus skip (clock w) w = Some st →
  checkCredentials d sid skip m
  = (mkMachine w
       (promises m ++ [mkEntry 0 (Paused (Finished (Resolved (VBool (isConfigured st)))))])
       (requests m),
     length (promises m)).
Proof.
  intros w Hq Hc. unfold checkCredentials. fold w. rewrite Hq, Hc.
  unfold resolved, spawn. cbn. by rewrite app_nil_r.
Qed.

(** Any other call starts a fetch: one request, for the session of the
    call, and a new promise recorded in [globalCredentialCheck]. *)
Lemma checkCredentials_fetches (d : nat) (sid : string) (skip : bool) (m : Machine) :
  let w := trackSession sid (world m) in
  globalCredentialCheck w = None →
  cachedStatus skip (clock w) w = None →
  ∃ k w',
    checkCredentials d sid skip m
    = (mkMachine (set_globalCredentialCheck (Some (length (promises m))) w')
         (promises m ++ [mkEntry d (Paused (OnNet (requestFor sid) k))])
         (requests m ++ [requestFor sid]),
       length (promises m)) ∧
    (w' = w ∨ w' = discardSummary w) ∧
    ∀ reply j w2,
      confirmed reply = Some (Some j) →
      ∃ w3,
        advance (k reply) w2 = (w3, Finished (Resolved (VBool true))) ∧
        globalCredentialStatus w3 = Some (mkStatus true None) ∧
        globalLastCheck w3 = clock (world m) ∧
        globalCredentialCheck w3 = None.
Proof.
  intros w Hq Hc. unfold checkCredentials. fold w. rewrite Hq, Hc.
  destruct (fetchCredentials_starts sid (clock w) w) as (k & w' & Hadv & Hw' & Hk).
  exists k, w'. unfold spawn. cbn [world with_world]. rewrite Hadv. cbn.
  split; [done|]. split; [done|].
  intros reply j w2 Hr. destruct (Hk reply j w2 Hr) as (w3 & ? & ? & Hnow & ?).
  exists w3. repeat split; try done.
  rewrite Hnow. unfold w, trackSession. cbn.
  by destruct (sessionChanged (world m) sid).
Qed.



(** ** Single flight *)



(** ** The cache and its time to live *)


(** At 4:59.999 after a check cached its result, the cached status is
    returned and nothing is requested; at 5:00.000 a request is made. *)
Example ttl_boundary :
  let cached := [CallCheck "s" false; Respond 0%nat credentialsFound] in
  let m := after (cached ++ [Tick (5 * 60 * 1000 - 1)]) (boot "s" 1000) in
  let n := after (cached ++ [Tick (5 * 60 * 1000)]) (boot "s" 1000) in
  settled (checkCredentials 0 "s" false m).1 (checkCredentials 0 "s" false m).2
  = Some (Resolved (VBool true)) ∧
  requests (checkCredentials 0 "s" false m).1 = [GetCredentials (Some "s")] ∧
  inFlight (checkCredentials 0 "s" false n).1 (checkCredentials 0 "s" false n).2 = true ∧
  requests (checkCredentials 0 "s" false n).1
  = [GetCredentials (Some "s"); GetCredentials (Some "s")].
Proof. vm_compute. done. Qed.

(** Single flight comes first.  While a fetch is in flight for the tracked
    session, with a fresh entry cached, a forced check starts no new fetch
    but receives the promise in flight, and a check that is not forced
    receives that promise too rather than the cached status; here the
    cache says configured and the caller is told not configured. *)
Example checks_attach_to_the_flight :
  let m := after [CallCheck "s" false; Respond 0%nat credentialsFound;
                  Tick 1000; CallCheck "s" true] (boot "s" 1000) in
  cachedStatus false (clock (world m)) (world m) = Some (mkStatus true None) ∧
  sessionChanged (world m) "s" = false ∧
  inFlight m 1 = true ∧
  (checkCredentials 0 "s" true m).2 = 1%nat ∧
  requests (checkCredentials 0 "s" true m).1 = requests m ∧
  (checkCredentials 0 "s" false m).2 = 1%nat ∧
  requests (checkCredentials 0 "s" false m).1 = requests m ∧
  settled (after [Respond 1%nat credentialsMissing] (checkCredentials 0 "s" false m).1) 1
  = Some (Resolved (VBool false)).
Proof. vm_compute. done. Qed.


(** ** The write at the end of a fetch *)




(** ** Recovery and the re-check *)

Lemma asks_LocalPart (sid : string) (t : list Event) :
  LocalPart sid t →
  rechecks t = [] ∧ (length (asks t) ≤ 1)%nat ∧
  ∀ r x, (r, x) ∈ asks t → r = requestFor sid ∧ confirmed x = None.
Proof.
  intros [| |x Hx]; autorewrite with events; cbn; (split; [done|]); (split; [lia|]);
    intros r y Hin; try by apply elem_of_nil in Hin.
  apply list_elem_of_singleton in Hin as [= -> ->].
  split; [done|]. by apply broken_unconfirmed.
Qed.


(** C6 (amended): one invocation of the fetch makes at most five requests
    and at most one re-check, and makes the re-check only after its
    recovery has confirmed credentials under an identifier other than its
    own.  The re-check is a plain forced [checkCredentials] (the code keeps
    no depth counter); a fetch, re-check or not, whose every request for
    its own session is answered with confirmed credentials makes one
    request, no recovery and no re-check, and resolves to [true]. *)
Theorem fetch_rechecks_at_most_once (sid : string) (now : Z) :
  always (fetchCredentials sid now) (λ t o,
    (length (asks t) ≤ 5)%nat ∧
    (rechecks t = [] ∨
     (rechecks t = [true] ∧
      ∃ c x j, c ≠ sid ∧ (requestFor c, x) ∈ asks t ∧ confirmed x = Some (Some j))) ∧
    ((∃ x, (requestFor sid, x) ∈ asks t ∧ confirmed x = None) ∨
     (rechecks t = [] ∧ length (asks t) = 1%nat ∧ o = Resolved (VBool true)))).
Proof.
  eapply always_mono; [|apply fetchCredentials_runs].
  intros t o [x Hx|x Hb Hx|pre x Hpre Hx|pre x j Hpre Hx|pre x tr Hpre Hb Hx Hrec
             |pre x tr v Hpre Hb Hx Hrec|pre x tr e Hpre Hb Hx Hrec];
    try (destruct (asks_LocalPart sid pre Hpre) as (Hpr & Hpa & Hpc));
    try (destruct Hrec as (Hrr & Hra & Hrw));
    autorewrite with events; rewrite ?app_nil_r; cbn;
    rewrite ?Hpr, ?Hrr; cbn;
    (split; [try clear Hpc; try clear Hrw;
             repeat (rewrite length_app; cbn [length]); lia|]).
  - split; [by left|]. right. done.
  - split; [by left|]. left. exists x. split; [find_elem|done].
  - split; [by left|]. left. exists x.
    split; [find_elem|by apply broken_unconfirmed].
  - split; [by left|].
    destruct (asks pre) as [|[r y] l] eqn:Hl.
    + right. done.
    + left. exists y. destruct (Hpc r y) as [-> Hy]; [find_elem|]. split; [find_elem|done].
  - split; [by left|]. left. exists x. split; [find_elem|done].
  - split.
    + right. split; [done|].
      destruct Hrw as [[? _]|(c & y & j & Hc & Hl & Hy & _)]; [done|].
      exists c, y, j. split; [done|]. split; [|done].
      apply last_Some in Hl as [l' Hl]. rewrite Hl. find_elem.
    + left. exists x. split; [find_elem|done].
  - split.
    + right. split; [done|].
      destruct Hrw as [[? _]|(c & y & j & Hc & Hl & Hy & _)]; [done|].
      exists c, y, j. split; [done|]. split; [|done].
      apply last_Some in Hl as [l' Hl]. rewrite Hl. find_elem.
    + left. exists x. split; [find_elem|done].
Qed.

(** C6, as stated, fails: nothing caps the depth.  The hook unmounts after
    calling, so the re-check goes through the closure of its last render,
    for session ["s"]; the service holds nothing for ["s"] and, for the
    first literal identifier, credentials without a [username].  Each
    recovery succeeds, each re-check discards the incomplete summary, finds
    nothing for ["s"] and recovers again: after three cycles the promises
    are nested three deep, none has settled, and a fourth cycle is
    under way. *)
Lemma recheck_depth_is_unbounded :
  (λ m, (depth <$> promises m, inFlight m <$> [0; 1; 2; 3]%nat,
         length (requests m), last (requests m)))
    <$> run ([CallCheck "s" false; Unmount]
             ++ recoveryCycle 0 ++ recoveryCycle 1 ++ recoveryCycle 2)
            (boot "s" 1000)
  = Some ([0; 1; 2; 3]%nat, [true; true; true; true], 10%nat,
          Some (GetCredentials (Some "s"))).
Proof. vm_compute. done. Qed.

(** ** Nothing rejects, and what settles *)



































































(** * Further properties *)

(** ** Reading the stored summary *)

Lemma member_credentialSummary (url database username : jsval) :
  member (credentialSummary url database username) "url" = url ∧
  member (credentialSummary url database username) "database" = database ∧
  member (credentialSummary url database username) "username" = username.
Proof. by destruct url, database, username. Qed.

Lemma or_empty_cases (v : jsval) : or_empty v = JStr "" ∨ truthy_json (or_empty v) = true.
Proof.
  destruct v as [j|]; cbn; [|by left].
  destruct (truthy_json j) eqn:Hj; [by right|by left].
Qed.

(** What [getStoredCredentials] returns, by what is stored. *)
Lemma getStoredCredentials_returns (w : World) :
  advance getStoredCredentials w
  = (w, Finished (Resolved
       match localStorage w !! "odoo_credentials" with
       | Some (JsonText summary) =>
           JObj [("url", or_empty (member summary "url"));
                 ("database", or_empty (member summary "database"));
                 ("username", or_empty (member summary "username"))]
       | _ => JObj [("url", JStr ""); ("database", JStr ""); ("username", JStr "")]
       end)).
Proof.
  unfold getStoredCredentials, getItem, ask. cbn.
  destruct (localStorage w !! "odoo_credentials") as [[s|summary]|]; cbn; [|by destruct summary|done].
  by destruct (negb (String.eqb s "")).
Qed.

(** X1: [getStoredCredentials] never throws and assigns nothing.  Its result
    always has the three keys [url], [database], [username] and no other
    (no password, whatever the stored text holds); each value is the stored
    one when that is truthy and [''] otherwise, and all three are [''] when
    nothing is stored or the stored text is not JSON. *)
Theorem getStoredCredentials_is_total (w : World) :
  ∃ url database username,
    advance getStoredCredentials w
    = (w, Finished (Resolved (JObj [("url", url); ("database", database);
                                    ("username", username)]))) ∧
    Forall (λ v, v = JStr "" ∨ truthy_json v = true) [url; database; username] ∧
    (∀ summary,
       localStorage w !! "odoo_credentials" = Some (JsonText summary) →
       url = or_empty (member summary "url") ∧
       database = or_empty (member summary "database") ∧
       username = or_empty (member summary "username")) ∧
    ((∀ summary, localStorage w !! "odoo_credentials" ≠ Some (JsonText summary)) →
     url = JStr "" ∧ database = JStr "" ∧ username = JStr "").
Proof.
  rewrite getStoredCredentials_returns.
  destruct (localStorage w !! "odoo_credentials") as [[s|summary]|] eqn:Hitem.
  - exists (JStr ""), (JStr ""), (JStr ""). split; [done|]. split; [|split; done].
    repeat constructor.
  - eexists _, _, _. split; [done|]. split; [|split].
    + repeat apply Forall_cons_2; try apply Forall_nil_2; apply or_empty_cases.
    + by intros ? [= <-].
    + intros Hno. by destruct (Hno summary).
  - exists (JStr ""), (JStr ""), (JStr ""). split; [done|]. split; [|split; done].
    repeat constructor.
Qed.

(** ** Saving, reading back, clearing *)

(** What is left of [saveCredentials] once its request is out assigns
    nothing to localStorage, whatever the reply. *)
Lemma saveCredentials_after_request (sid : string) (credentials : json) (w : World) :
  credentials ≠ JNull →
  ∃ k,
    advance (saveCredentials sid credentials) w
    = (storeSummary credentials w, OnNet (SaveCredentials (saveBody sid credentials)) k) ∧
    ∀ reply w2,
      ∃ w3 success error,
        advance (k reply) w2 = (w3, Finished (Resolved (VSaveResult success error))) ∧
        localStorage w3 = localStorage w2.
Proof.
  intros Hc.
  assert (broken (Data credentials) = false) as Hb by (by destruct credentials).
  unfold saveCredentials. rewrite !(get_data credentials _ Hb).
  unfold saveOdooCredentials, setItem, update, Date_now, ask. cbn.
  eexists. split; [reflexivity|]. intros [d|msg] w2; cbn; [|by eexists _, _, _].
  destruct (broken (Data d)) eqn:Hd.
  { destruct d; try done. cbn. by eexists _, _, _. }
  rewrite (get_data d "success" Hd), (get_data d "message" Hd). cbn.
  destruct (truthy (member d "success")); cbn; [|by eexists _, _, _].
  eexists _, _, _. split; [reflexivity|].
  unfold dispatchEvent. cbn. by destruct (isMounted w2).
Qed.

(** X2: The summary is stored at the call of a save and removed at the
    reply to a clear.  [saveCredentials] of an object stores its summary
    before the request leaves: in the state the call leaves behind,
    [hasAttemptedConfiguration] is [true] and [getStoredCredentials]
    returns the [url], [database] and [username] that were entered ([''] for
    a missing or falsy one) and nothing else.  What is left of the save
    assigns nothing to localStorage, whatever the service answers and
    whatever the page has done meanwhile: a summary removed in between stays
    removed even if the save succeeds.  [clearCredentials] removes the
    summary when the reply to its request arrives, whatever the reply: in
    the state it leaves, [hasAttemptedConfiguration] is [false] and
    [getStoredCredentials] returns three empty strings. *)
Theorem summary_is_stored_at_the_call_and_removed_at_the_reply
    (sid : string) (credentials : json) (w : World) :
  credentials ≠ JNull →
  (∃ k,
     let saved := storeSummary credentials w in
     advance (saveCredentials sid credentials) w
     = (saved, OnNet (SaveCredentials (saveBody sid credentials)) k) ∧
     advance hasAttemptedConfiguration saved = (saved, Finished (Resolved true)) ∧
     advance getStoredCredentials saved
     = (saved, Finished (Resolved
          (JObj [("url", or_empty (member credentials "url"));
                 ("database", or_empty (member credentials "database"));
                 ("username", or_empty (member credentials "username"))]))) ∧
     ∀ reply w2,
       ∃ w3 success error,
         advance (k reply) w2 = (w3, Finished (Resolved (VSaveResult success error))) ∧
         localStorage w3 = localStorage w2) ∧
  (∃ k,
     advance (clearCredentials sid) w = (w, OnNet (ClearCredentials sid) k) ∧
     ∀ reply w2,
       ∃ cleared,
         advance (k reply) w2 = (cleared, Finished (Resolved VUndefined)) ∧
         localStorage cleared = delete "odoo_credentials" (localStorage w2) ∧
         advance hasAttemptedConfiguration cleared = (cleared, Finished (Resolved false)) ∧
         advance getStoredCredentials cleared
         = (cleared, Finished (Resolved
              (JObj [("url", JStr ""); ("database", JStr ""); ("username", JStr "")])))).
Proof.
  intros Hc. split.
  - destruct (saveCredentials_after_request sid credentials w Hc) as (k & Hk & Hrest).
    exists k. cbv zeta. split; [exact Hk|].
    assert (localStorage (storeSummary credentials w) !! "odoo_credentials"
            = Some (JsonText (credentialSummary (member credentials "url")
                                                (member credentials "database")
                                                (member credentials "username")))) as Hs
      by apply lookup_insert_eq.
    split; [|split; [|exact Hrest]].
    + unfold hasAttemptedConfiguration, getItem, ask. cbn -[storeSummary]. by rewrite Hs.
    + rewrite getStoredCredentials_returns, Hs.
      by destruct (member_credentialSummary (member credentials "url")
                     (member credentials "database") (member credentials "username"))
        as (-> & -> & ->).
  - destruct (clearCredentials_resumed sid w) as (k & Hk & Hrest).
    exists k. split; [exact Hk|]. intros reply w2. eexists. split; [apply Hrest|].
    set (cleared := set_globalLastCheck _ _).
    assert (localStorage cleared = delete "odoo_credentials" (localStorage w2)) as Hl by done.
    assert (localStorage cleared !! "odoo_credentials" = None) as Hd
      by (rewrite Hl; apply lookup_delete_eq).
    split; [done|]. split.
    + unfold hasAttemptedConfiguration, getItem, ask. cbn -[cleared]. by rewrite Hd.
    + by rewrite getStoredCredentials_returns, Hd.
Qed.

Lemma summary_is_stored_at_the_call_and_removed_at_the_reply_witness :
  let credentials := JObj [("url", JStr "https://x"); ("database", JStr "");
                           ("password", JStr "p")] in
  credentials ≠ JNull ∧
  ∃ k,
    let saved := storeSummary credentials (freshWorld "s" 1000) in
    advance (saveCredentials "s" credentials) (freshWorld "s" 1000)
    = (saved, OnNet (SaveCredentials (saveBody "s" credentials)) k) ∧
    advance hasAttemptedConfiguration saved = (saved, Finished (Resolved true)) ∧
    advance getStoredCredentials saved
    = (saved, Finished (Resolved
         (JObj [("url", or_empty (member credentials "url"));
                ("database", or_empty (member credentials "database"));
                ("username", or_empty (member credentials "username"))]))) ∧
    ∀ reply w2,
      ∃ w3 success error,
        advance (k reply) w2 = (w3, Finished (Resolved (VSaveResult success error))) ∧
        localStorage w3 = localStorage w2.
Proof.
  cbv zeta.
  assert (JObj [("url", JStr "https://x"); ("database", JStr ""); ("password", JStr "p")]
          ≠ JNull) as H by done.
  split; [exact H|].
  exact (proj1 (summary_is_stored_at_the_call_and_removed_at_the_reply "s"
                  (JObj [("url", JStr "https://x"); ("database", JStr "");
                         ("password", JStr "p")])
                  (freshWorld "s" 1000) H)).
Defined.

(** A save that succeeds and leaves no summary.  A summary is stored and a
    check is in flight on its behalf when new credentials are saved; the
    reply to the check denies the session, so the check removes the
    summary, that of the save; then the service accepts the save.  The
    save reports success, the cache says configured, and nothing is
    stored. *)
Example save_succeeds_and_leaves_no_summary :
  let credentials := JObj [("url", JStr "https://y"); ("database", JStr "d");
                           ("username", JStr "u"); ("password", JStr "p")] in
  let m := after [CallCheck "s" false; CallSave "s" credentials;
                  Respond 0%nat credentialsMissing;
                  Respond 1%nat (Data (JObj [("success", JBool true)]))]
                 (with_world (storeSummary sampleCredentials (freshWorld "s" 1000))
                             (boot "s" 1000)) in
  settled m 0 = Some (Resolved (VBool false)) ∧
  settled m 1 = Some (Resolved (VSaveResult true None)) ∧
  globalCredentialStatus (world m) = Some (mkStatus true None) ∧
  localStorage (world m) !! "odoo_credentials" = None ∧
  (advance hasAttemptedConfiguration (world m)).2 = Finished (Resolved false) ∧
  (advance getStoredCredentials (world m)).2
  = Finished (Resolved (JObj [("url", JStr ""); ("database", JStr "");
                              ("username", JStr "")])).
Proof. vm_compute. done. Qed.

(** What the read returns after a save that the transport failed: the
    password is not in it, the empty database and the missing username
    read as ['']. *)
Example read_after_failed_save :
  let credentials := JObj [("url", JStr "https://x"); ("database", JStr "");
                           ("password", JStr "p")] in
  let remote : Remote := λ _ _, NetworkError "offline" in
  let '(saved, _, result) :=
    exec remote (saveCredentials "s" credentials) (freshWorld "s" 1000) [] in
  result = Finished (Resolved (VSaveResult false
                       (Some "Failed to save Odoo credentials: offline"))) ∧
  (advance getStoredCredentials saved).2
  = Finished (Resolved (JObj [("url", JStr "https://x"); ("database", JStr "");
                              ("username", JStr "")])).
Proof. vm_compute. done. Qed.

(** Every run of [saveCredentials]. *)
Lemma saveCredentials_runs (sid : string) (credentials : json) :
  always (saveCredentials sid credentials) (λ t o,
    (∃ d now,
       truthy (member d "success") = true ∧
       asks t = [(SaveCredentials (saveBody sid credentials), Data d)] ∧
       o = Resolved (VSaveResult true None) ∧
       writes t = [storeSummary credentials;
                   set_globalCredentialCheck None;
                   set_globalCredentialStatus (Some (mkStatus true None));
                   set_globalLastCheck now;
                   dispatchEvent credentialsUpdated]) ∨
    (∃ message,
       message ≠ "" ∧
       o = Resolved (VSaveResult false (Some message)) ∧
       (asks t = [] ∨
        ∃ x, asks t = [(SaveCredentials (saveBody sid credentials), x)] ∧
             match x with
             | Data d => truthy (member d "success") = false
             | NetworkError m => message = "Failed to save Odoo credentials: " +:+ m
             end) ∧
       (writes t = [] ∨ writes t = [storeSummary credentials]))).
Proof.
  assert (∀ s : string,
            (if String.eqb s "" then "Failed to save credentials" else s) ≠ "") as Hmsg.
  { intros s. by destruct (String.eqb_spec s ""). }
  unfold saveCredentials.
  destruct (broken (Data credentials)) eqn:Hc.
  { destruct credentials; try done. cbn. right. eexists.
    split; [|split; [reflexivity|]]; [apply Hmsg|]. split; by left. }
  rewrite !(get_data credentials _ Hc).
  unfold saveOdooCredentials, setItem, update, Date_now, ask. cbn.
  intros [d|m]; cbn.
  - destruct (broken (Data d)) eqn:Hd.
    + destruct d; try done. cbn. right. eexists.
      split; [|split; [reflexivity|]]; [apply Hmsg|].
      autorewrite with events. split; [|by right].
      right. eexists. split; [done|]. done.
    + rewrite (get_data d "success" Hd), (get_data d "message" Hd). cbn.
      destruct (truthy (member d "success")) eqn:Hs; cbn.
      * intros w. left. exists d, (clock w). split; [done|].
        autorewrite with events. done.
      * right. eexists.
        split; [|split; [reflexivity|]]; [apply Hmsg|].
        autorewrite with events. split; [|by right].
        right. eexists. split; [done|]. done.
  - right. eexists.
    split; [|split; [reflexivity|]]; [apply Hmsg|].
    autorewrite with events. split; [|by right].
    right. eexists. split; [done|]. cbn.
    by destruct (String.eqb_spec ("Failed to save Odoo credentials: " +:+ m) "").
Qed.

(** X3: [saveCredentials] never rejects and asks the service at most once.  It
    reports success exactly when the reply carries a truthy [success]; only
    then does it touch the module-level cache (configured, no error,
    stamped, nothing in flight) and announce [credentialsUpdated].  Every
    failure (credentials that are [null], a transport failure, a [null]
    body, a reply without [success]) is reported with [success: false] and
    an error message that is not empty, and leaves the cache, the timers
    and the events as they are. *)
Theorem saveCredentials_reports_every_failure (sid : string) (credentials : json) :
  always (saveCredentials sid credentials) (λ t o,
    ∃ success error,
      o = Resolved (VSaveResult success error) ∧
      (length (asks t) ≤ 1)%nat ∧
      if success then
        error = None ∧
        ∃ d now,
          truthy (member d "success") = true ∧
          asks t = [(SaveCredentials (saveBody sid credentials), Data d)] ∧
          writes t = [storeSummary credentials;
                      set_globalCredentialCheck None;
                      set_globalCredentialStatus (Some (mkStatus true None));
                      set_globalLastCheck now;
                      dispatchEvent credentialsUpdated]
      else
        (∃ message, error = Some message ∧ message ≠ "") ∧
        (∀ r d, (r, Data d) ∈ asks t → truthy (member d "success") = false) ∧
        Forall (λ f, ∀ w,
                  globalCredentialCheck (f w) = globalCredentialCheck w ∧
                  globalCredentialStatus (f w) = globalCredentialStatus w ∧
                  globalLastCheck (f w) = globalLastCheck w ∧
                  globalSessionId (f w) = globalSessionId w ∧
                  timers (f w) = timers w ∧
                  dispatched (f w) = dispatched w) (writes t)).
Proof.
  eapply always_mono; [|apply saveCredentials_runs].
  intros t o [(d & now & Hs & Ha & -> & Hw)|(message & Hm & -> & Ha & Hw)].
  - exists true, None. split; [done|]. rewrite Ha. split; [cbn; lia|].
    split; [done|]. by exists d, now.
  - exists false, (Some message). split; [done|].
    split; [destruct Ha as [->|(x & -> & _)]; cbn; lia|].
    split; [by exists message|]. split.
    + intros r d Hin. destruct Ha as [Ha|(x & Ha & Hx)]; rewrite Ha in Hin.
      * by apply elem_of_nil in Hin.
      * apply list_elem_of_singleton in Hin as [= -> <-]. done.
    + destruct Hw as [->| ->]; repeat constructor.
Qed.

(** ** Refreshing *)


(** X5: [refreshCredentials] on a mounted hook always goes to the service: it
    drops whatever is cached or in flight and starts a fetch for the
    session of the latest render, with one request; the new promise is the
    one in flight.  On an unmounted hook it changes nothing, asks nothing
    and resolves to [false]. *)
Theorem refreshCredentials_always_asks (sid : string) (m : Machine) :
  let '(m', p) := refreshCredentials sid m in
  p = length (promises m) ∧
  if isMounted (world m) then
    requests m' = (requests m ++ [requestFor (ref_sessionId (world m))])%list ∧
    inFlight m' p = true ∧
    globalCredentialCheck (world m') = Some p ∧
    globalCredentialStatus (world m') = None ∧
    globalLastCheck (world m') = 0 ∧
    globalSessionId (world m') = Some (ref_sessionId (world m))
  else
    world m' = world m ∧
    requests m' = requests m ∧
    settled m' p = Some (Resolved (VBool false)).
Proof.
  unfold refreshCredentials.
  destruct (isMounted (world m)) eqn:Hm.
  - set (w1 := set_globalSessionId (Some sid) (clearGlobalCache (world m))).
    assert (ref_sessionId w1 = ref_sessionId (world m)) as Href by done.
    rewrite Href.
    set (s := ref_sessionId (world m)).
    assert (globalCredentialCheck (trackSession s w1) = None) as Hslot.
    { unfold trackSession. by destruct (sessionChanged w1 s). }
    destruct (checkCredentials_fetches 0 s true (with_world w1 m) Hslot
                (cachedStatus_forced _ _)) as (k & w' & -> & Hw' & _).
    cbn. split; [done|]. split; [done|].
    split; [unfold inFlight; cbn; by rewrite list_lookup_middle|].
    split; [done|].
    unfold trackSession in Hw'. cbn [world with_world] in Hw'.
    destruct (sessionChanged w1 s); destruct Hw' as [->| ->]; done.
  - unfold resolved, spawn. cbn. split; [done|]. split; [done|].
    split; [by rewrite app_nil_r|].
    unfold settled. cbn. by rewrite list_lookup_middle.
Qed.

(** ** The effect run on mount *)

(** A call of [checkCredentials] makes no request, or one for its session. *)
Lemma checkCredentials_requests (d : nat) (sid : string) (skip : bool) (m : Machine) :
  requests (checkCredentials d sid skip m).1 = requests m ∨
  requests (checkCredentials d sid skip m).1 = (requests m ++ [requestFor sid])%list.
Proof.
  destruct (globalCredentialCheck (trackSession sid (world m))) as [q|] eqn:Hq.
  { rewrite (checkCredentials_attaches d sid skip m q Hq). by left. }
  destruct (cachedStatus skip (clock (trackSession sid (world m)))
              (trackSession sid (world m))) as [st|] eqn:Hc.
  { rewrite (checkCredentials_cached d sid skip m st Hq Hc). by left. }
  destruct (checkCredentials_fetches d sid skip m Hq Hc) as (k & w' & -> & _).
  by right.
Qed.

(** X6: When the effect asks.  A run of the effect less than a second
    after the last run that was not skipped does nothing at all, whatever
    its session; a run that is not skipped records the time, so that no
    other run does anything for a second.  A run that is not skipped, on a
    mounted hook with a session identifier, shows the cached status and
    asks nothing exactly when the test of [checkCredentials] for a call
    that is not forced would find one (a status less than five minutes
    old); it does so without the comparison of sessions that comes first
    in [checkCredentials], even where that call would have dropped the
    entry and asked for the session.  Otherwise it calls
    [checkCredentials], not forced, for its session.  Without a session
    identifier or on an unmounted hook it asks nothing.  In all, it makes
    at most one request. *)
Theorem mountEffect_asks_at_most_once (sid : string) (lastEffectRun : Z) (m : Machine) :
  let w := world m in
  let '(lastEffectRun', m', outcome) := mountEffect sid lastEffectRun m in
  (length (requests m') ≤ S (length (requests m)))%nat ∧
  if clock w - lastEffectRun <? 1000 then
    lastEffectRun' = lastEffectRun ∧ m' = m ∧ outcome = effectSkipped
  else
    lastEffectRun' = clock w ∧
    (∀ sid' m2, clock (world m2) - clock w < 1000 →
                mountEffect sid' lastEffectRun' m2 = (lastEffectRun', m2, effectSkipped)) ∧
    if String.eqb sid "" then
      m' = m ∧
      outcome = (if isMounted w then effectNoSession "Session not initialized"
                 else effectIdle)
    else if negb (isMounted w) then m' = m ∧ outcome = effectIdle
    else
      match cachedStatus false (clock w) w with
      | Some status =>
          m' = m ∧ outcome = effectShowsCached status (globalLastCheck w) ∧
          (sessionChanged w sid = true →
           requests (checkCredentials 0 sid false m).1
           = (requests m ++ [requestFor sid])%list)
      | None =>
          m' = (checkCredentials 0 sid false m).1 ∧
          outcome = effectChecks (checkCredentials 0 sid false m).2
      end.
Proof.
  intros w. unfold mountEffect. fold w.
  assert (∀ m1 p, (m1, p) = checkCredentials 0 sid false m →
                  (length (requests m1) ≤ S (length (requests m)))%nat) as Hbound.
  { intros m1 p Heq.
    destruct (checkCredentials_requests 0 sid false m) as [Hr|Hr];
      rewrite <- Heq in Hr; cbn in Hr; rewrite Hr, ?length_app; cbn; lia. }
  destruct (Z.ltb_spec (clock w - lastEffectRun) 1000) as [Hl|Hl];
    [split; [lia|done]|].
  assert (∀ sid' m2, clock (world m2) - clock w < 1000 →
                     mountEffect sid' (clock w) m2 = (clock w, m2, effectSkipped)) as Hnext.
  { intros sid' m2 Hc. unfold mountEffect.
    by destruct (Z.ltb_spec (clock (world m2) - clock w) 1000); [|lia]. }
  unfold cachedStatus, cacheExpiry. cbn [negb andb].
  destruct (String.eqb_spec sid "") as [->|Hsid]; cbn [negb andb].
  { destruct (isMounted w) eqn:Hm; (split; [lia|done]). }
  destruct (isMounted w) eqn:Hm; cbn [negb]; [|split; [lia|done]].
  destruct (negb (globalLastCheck w =? 0) && (clock w - globalLastCheck w <? 5 * 60 * 1000))
    eqn:Hfresh.
  - destruct (globalCredentialStatus w) as [st|] eqn:Hst.
    + split; [lia|]. split; [done|]. split; [done|]. split; [done|]. split; [done|].
      intros Hchanged.
      assert (globalCredentialCheck (trackSession sid (world m)) = None) as Hslot.
      { unfold trackSession. fold w. by rewrite Hchanged. }
      assert (cachedStatus false (clock (trackSession sid (world m)))
                (trackSession sid (world m)) = None) as Hc.
      { unfold trackSession. fold w. by rewrite Hchanged. }
      by destruct (checkCredentials_fetches 0 sid false m Hslot Hc) as (k & w' & -> & _).
    + destruct (checkCredentials 0 sid false m) as [m1 p] eqn:Hc.
      split; [by eapply Hbound|]. done.
  - destruct (checkCredentials 0 sid false m) as [m1 p] eqn:Hc.
    split; [by eapply Hbound|]. done.
Qed.

(** The effect of a component mounted for session ["B"] shows the status
    cached for ["A"], where a call of [checkCredentials] would have asked. *)
Example mountEffect_shows_another_sessions_status :
  let m := after [CallCheck "A" false; Respond 0%nat credentialsFound; Tick 5000]
                 (boot "A" 1000) in
  mountEffect "B" 0 m = (6000, m, effectShowsCached (mkStatus true None) 1000) ∧
  requests (checkCredentials 0 "B" false m).1
  = [GetCredentials (Some "A"); GetCredentials (Some "B")].
Proof. vm_compute. done. Qed.

(** ** The promise recorded as in flight *)


(** Running a tidy program up to its next pause leaves the slot as it was
    or empties it, and what remains of the program is tidy. *)
Lemma tidy_advance {A : Type} (p : Prog A) (w : World) :
  tidy p →
  (globalCredentialCheck (advance p w).1 = globalCredentialCheck w ∨
   globalCredentialCheck (advance p w).1 = None) ∧
  pauseTidy (advance p w).2.
Proof.
  revert w. unfold tidy.
  induction p as [a|e|k IH|f k IH|r k IH|ms k IH|s k IH]; intros w Hp; cbn in *.
  - split; [by left|done].
  - split; [by left|done].
  - apply IH, Hp.
  - assert (releases f ∧ always k (λ t _, Forall releases (writes t))) as [Hf Hk].
    { split.
      - apply (always_const k). eapply always_mono; [|exact Hp].
        intros t o Ht; lazy beta in Ht. rewrite writes_Wrote in Ht. by apply Forall_cons in Ht as [? _].
      - eapply always_mono; [|exact Hp].
        intros t o Ht; lazy beta in Ht. rewrite writes_Wrote in Ht. by apply Forall_cons in Ht as [_ ?]. }
    destruct (IH (f w) Hk) as [Hslot Hpause]. split; [|done].
    destruct Hslot as [->| ->]; [|by right]. apply Hf.
  - split; [by left|]. intros x. eapply always_mono; [|apply Hp].
    intros t o Ht; lazy beta in Ht. by rewrite writes_Asked in Ht.
  - split; [by left|]. eapply always_mono; [|apply Hp].
    intros t o Ht; lazy beta in Ht. by rewrite writes_Slept in Ht.
  - split; [by left|]. intros x. eapply always_mono; [|apply Hp].
    intros t o Ht; lazy beta in Ht. by rewrite writes_Rechecked in Ht.
Qed.

Lemma endsReleased_after (e : Event) (t : list Event) :
  endsReleased (e :: t) →
  endsReleased t ∨
  t = [] ∧ ∃ f, e = Wrote f ∧ ∀ w, globalCredentialCheck (f w) = None.
Proof.
  intros (f & Hl & Hf). destruct t as [|e' t'].
  - right. split; [done|]. exists f. cbn in Hl. split; [congruence|done].
  - left. exists f. split; [|done]. by rewrite last_cons_cons in Hl.
Qed.

(** Running a program that closes up to its next pause: if it ends there,
    the slot is empty; otherwise what remains of it closes. *)
Lemma closes_advance {A : Type} (p : Prog A) (w : World) :
  always p (λ t _, endsReleased t ∨ (t = [] ∧ globalCredentialCheck w = None)) →
  match (advance p w).2 with
  | Finished _ => globalCredentialCheck (advance p w).1 = None
  | at_ => pauseCloses at_
  end.
Proof.
  revert w.
  induction p as [a|e|k IH|f k IH|r k IH|ms k IH|s k IH]; intros w Hp; cbn in *.
  - destruct Hp as [(f & Hl & _)|[_ ?]]; done.
  - destruct Hp as [(f & Hl & _)|[_ ?]]; done.
  - apply IH, Hp.
  - apply IH. eapply always_mono; [|exact Hp].
    intros t o [Ht|[? _]]; [|done].
    apply endsReleased_after in Ht as [Ht|(-> & g & [= <-] & Hg)]; [by left|].
    right. split; [done|]. apply Hg.
  - intros x. eapply always_mono; [|apply Hp].
    intros t o [Ht|[? _]]; [|done].
    by apply endsReleased_after in Ht as [Ht|(-> & g & ? & Hg)].
  - eapply always_mono; [|apply Hp].
    intros t o [Ht|[? _]]; [|done].
    by apply endsReleased_after in Ht as [Ht|(-> & g & ? & Hg)].
  - intros x. eapply always_mono; [|apply Hp].
    intros t o [Ht|[? _]]; [|done].
    by apply endsReleased_after in Ht as [Ht|(-> & g & ? & Hg)].
Qed.

Lemma releases_frame (f : World → World) :
  (∀ w, globalCredentialCheck (f w) = globalCredentialCheck w) → releases f.
Proof. intros Hf w. left. apply Hf. Qed.

Lemma releases_dispatch (e : WindowEvent) : releases (dispatchEvent e).
Proof.
  intros w. unfold dispatchEvent. cbn.
  destruct (isMounted w); [|by left]. destruct e; [by left|by right].
Qed.

Lemma releases_rotation (old new : string) (j : json) :
  Forall releases (rotation old new j).
Proof.
  unfold rotation. repeat apply Forall_cons_2; try apply Forall_nil_2;
    try (by apply releases_frame).
  apply releases_dispatch.
Qed.

Lemma releases_LocalPart (sid : string) (t : list Event) :
  LocalPart sid t → Forall releases (writes t).
Proof.
  intros [| |x Hx]; autorewrite with events;
    repeat apply Forall_cons_2; try apply Forall_nil_2; by apply releases_frame.
Qed.

Lemma releases_Recovery (sid : string) (t : list Event) (b : bool) :
  Recovery sid t b → Forall releases (writes t).
Proof.
  intros (_ & _ & [[_ ->]|(c & x & j & _ & _ & _ & _ & ->)]).
  - apply Forall_nil_2.
  - apply releases_rotation.
Qed.

Lemma releases_FetchRun (sid : string) (now : Z) (t : list Event) (o : Outcome Value) :
  FetchRun sid now t o → Forall releases (writes t).
Proof.
  intros [x Hx|x Hb Hx|pre x Hpre Hx|pre x j Hpre Hx|pre x tr Hpre Hb Hx Hrec
         |pre x tr v Hpre Hb Hx Hrec|pre x tr e Hpre Hb Hx Hrec];
    autorewrite with events;
    repeat (first [apply Forall_app_2 | apply Forall_cons_2 | apply Forall_nil_2]);
    try (by apply releases_frame);
    try (by intros w; right);
    try (by eapply releases_LocalPart);
    try (by eapply releases_Recovery).
Qed.

Lemma endsReleased_FetchRun (sid : string) (now : Z) (t : list Event) (o : Outcome Value) :
  FetchRun sid now t o → endsReleased t.
Proof.
  intros Hrun. exists (set_globalCredentialCheck None). split; [|done].
  destruct Hrun as [x Hx|x Hb Hx|pre x Hpre Hx|pre x j Hpre Hx|pre x tr Hpre Hb Hx Hrec
                   |pre x tr v Hpre Hb Hx Hrec|pre x tr e Hpre Hb Hx Hrec];
    rewrite ?last_app, ?last_cons; cbn; rewrite ?last_app; cbn; done.
Qed.

Lemma tidy_fetchCredentials (sid : string) (now : Z) : tidy (fetchCredentials sid now).
Proof.
  eapply always_mono; [|apply fetchCredentials_runs].
  intros t o. apply releases_FetchRun.
Qed.

Lemma closes_fetchCredentials (sid : string) (now : Z) : closes (fetchCredentials sid now).
Proof.
  eapply always_mono; [|apply fetchCredentials_runs].
  intros t o. apply endsReleased_FetchRun.
Qed.

Lemma tidy_saveCredentials (sid : string) (credentials : json) :
  tidy (saveCredentials sid credentials).
Proof.
  eapply always_mono; [|apply saveCredentials_runs].
  intros t o [(d & now & _ & _ & _ & ->)|(message & _ & _ & _ & [->| ->])];
    repeat apply Forall_cons_2; try apply Forall_nil_2;
    try (by apply releases_frame); try (by intros w; right).
  apply releases_dispatch.
Qed.

Lemma tidy_clearCredentials (sid : string) : tidy (clearCredentials sid).
Proof.
  unfold tidy, clearCredentials, clearOdooCredentials, removeItem, update, Date_now, ask.
  cbn. intros [d|msg] w; cbn; autorewrite with events;
    repeat apply Forall_cons_2; try apply Forall_nil_2;
    try (by apply releases_frame); by intros w'; right.
Qed.

Lemma tidy_updateSessionId (old new : string) : tidy (updateSessionId old new).
Proof.
  unfold tidy, updateSessionId, setItem, update. cbn. autorewrite with events.
  repeat apply Forall_cons_2; try apply Forall_nil_2; by apply releases_frame.
Qed.

Lemma slotPending_with_world (w : World) (m : Machine) :
  slotPending m →
  globalCredentialCheck w = globalCredentialCheck (world m) ∨
  globalCredentialCheck w = None →
  slotPending (with_world w m).
Proof.
  intros [Ht Hs] Hw. split; [done|]. cbn. intros p Hp.
  destruct Hw as [Hw|Hw]; rewrite Hw in Hp; [|done]. by apply Hs.
Qed.

Lemma slotPending_spawn (d : nat) (body : Prog Value) (m : Machine) :
  slotPending m → tidy body → slotPending (spawn d body m).1.
Proof.
  intros [Ht Hs] Hb. unfold spawn.
  destruct (tidy_advance body (world m) Hb) as [Hslot Hpause].
  destruct (advance body (world m)) as [w at_]. cbn in *. split; cbn.
  - apply Forall_app_2; [done|]. by apply Forall_singleton.
  - intros p Hp. destruct Hslot as [Hw|Hw]; rewrite Hw in Hp; [|done].
    destruct (Hs p Hp) as (e & He & Hc). exists e. split; [|done].
    by apply lookup_app_l_Some.
Qed.

Lemma checkCredentials_slot (d : nat) (sid : string) (skip : bool) (m : Machine)
    (q : PromiseId) :
  globalCredentialCheck (world (checkCredentials d sid skip m).1) = Some q →
  globalCredentialCheck (world m) = Some q ∨ q = length (promises m).
Proof.
  assert (∀ p, globalCredentialCheck (trackSession sid (world m)) = Some p →
               globalCredentialCheck (world m) = Some p) as Htrack.
  { intros p. unfold trackSession. by destruct (sessionChanged (world m) sid). }
  destruct (globalCredentialCheck (trackSession sid (world m))) as [p|] eqn:Hq.
  { rewrite (checkCredentials_attaches d sid skip m p Hq).
    cbn [fst world with_world]. rewrite Hq.
    intros [= <-]. left. by apply Htrack. }
  destruct (cachedStatus skip (clock (trackSession sid (world m)))
              (trackSession sid (world m))) as [st|] eqn:Hc.
  { rewrite (checkCredentials_cached d sid skip m st Hq Hc).
    cbn [fst world]. by rewrite Hq. }
  destruct (checkCredentials_fetches d sid skip m Hq Hc) as (k & w' & -> & _).
  cbn. intros [= <-]. by right.
Qed.

Lemma slotPending_checkCredentials (d : nat) (sid : string) (skip : bool) (m : Machine) :
  slotPending m → slotPending (checkCredentials d sid skip m).1.
Proof.
  intros Hm.
  assert (slotPending (with_world (trackSession sid (world m)) m)) as Hm1.
  { apply slotPending_with_world; [done|]. unfold trackSession.
    destruct (sessionChanged (world m) sid); [by right|by left]. }
  unfold checkCredentials.
  destruct (globalCredentialCheck (trackSession sid (world m))) as [p|] eqn:Hq; [done|].
  destruct (cachedStatus skip _ _) as [st|].
  { apply slotPending_spawn; [done|]. unfold tidy. cbn. apply Forall_nil_2. }
  set (now := clock (trackSession sid (world m))).
  set (m1 := with_world (trackSession sid (world m)) m) in *.
  destruct (fetchCredentials_starts sid now (world m1)) as (k & w' & Hadv & _).
  pose proof (slotPending_spawn d (fetchCredentials sid now) m1 Hm1
                (tidy_fetchCredentials sid now)) as [Ht _].
  assert (pauseCloses (OnNet (requestFor sid) k)) as Hclose.
  { pose proof (closes_advance (fetchCredentials sid now) (world m1)) as Hc.
    rewrite Hadv in Hc. apply Hc.
    eapply always_mono; [|apply closes_fetchCredentials].
    intros t o Ho. by left. }
  unfold spawn in *. rewrite Hadv in *. cbn [fst snd world promises with_world] in *.
  split; [done|]. cbn [world with_world globalCredentialCheck set_globalCredentialCheck promises].
  intros p [= <-]. eexists. split; [by apply list_lookup_middle|]. exact Hclose.
Qed.

Lemma slotPending_set_entry (p : PromiseId) (s : Strand) (m : Machine) :
  slotPending m →
  strandTidy s →
  (globalCredentialCheck (world m) = Some p → strandCloses s) →
  slotPending (set_entry p s m).
Proof.
  intros [Ht Hs] Htidy Hcloses. split; cbn.
  - by apply Forall_alter.
  - intros q Hq. destruct (Hs q Hq) as (e & He & Hc).
    destruct (decide (q = p)) as [->|Hne].
    + exists (mkEntry (depth e) s). split; [|by apply Hcloses].
      rewrite list_lookup_alter, decide_True by done. by rewrite He.
    + exists e. split; [|done]. by rewrite list_lookup_alter_ne.
Qed.

Lemma slotPending_lookup (m : Machine) (p : PromiseId) (e : Entry) :
  slotPending m → promises m !! p = Some e → strandTidy (strand e).
Proof.
  intros [Ht _] He. rewrite Forall_lookup in Ht. by eapply Ht.
Qed.

Lemma slotPending_closes (m : Machine) (p : PromiseId) (e : Entry) :
  slotPending m → promises m !! p = Some e →
  globalCredentialCheck (world m) = Some p → strandCloses (strand e).
Proof.
  intros [_ Hs] He Hp. destruct (Hs p Hp) as (e' & He' & Hc). congruence.
Qed.

Lemma slotPending_recheck (p : PromiseId) (d : nat) (skip : bool)
    (k : Outcome Value → Prog Value) (m : Machine) :
  slotPending m →
  is_Some (promises m !! p) →
  (∀ x, tidy (k x)) →
  (globalCredentialCheck (world m) = Some p → ∀ x, closes (k x)) →
  slotPending (recheck p d skip k m).
Proof.
  intros Hm [e He] Htidy Hcloses. unfold recheck.
  pose proof (slotPending_checkCredentials (S d) (ref_sessionId (world m)) skip m Hm) as Hc.
  pose proof (checkCredentials_slot (S d) (ref_sessionId (world m)) skip m p) as Hslot.
  destruct (checkCredentials _ _ _ _) as [m' awaited]. cbn in *.
  apply slotPending_set_entry; [done|done|].
  intros Hp. destruct (Hslot Hp) as [Hold|Hnew]; [exact (Hcloses Hold)|].
  apply lookup_lt_Some in He. lia.
Qed.

Lemma slotPending_resume (p : PromiseId) (d : nat) (body : Prog Value) (m : Machine) :
  slotPending m →
  is_Some (promises m !! p) →
  tidy body →
  (globalCredentialCheck (world m) = Some p → closes body) →
  slotPending (resume p d body m).
Proof.
  intros Hm Hp Htidy Hcloses. unfold resume.
  destruct (tidy_advance body (world m) Htidy) as [Hslot Hpause].
  pose proof (closes_advance body (world m)) as Hadv.
  destruct (advance body (world m)) as [w at_]. cbn in Hslot, Hpause, Hadv.
  set (m1 := mkMachine w (promises m) (requests m ++ requested at_)).
  assert (slotPending m1) as Hm1.
  { destruct Hm as [Ht Hs]. split; [done|]. cbn. intros q Hq.
    destruct Hslot as [Hw|Hw]; rewrite Hw in Hq; [|done]. by apply Hs. }
  assert (globalCredentialCheck w = Some p →
          match at_ with
          | Finished _ => False
          | at_ => pauseCloses at_
          end) as Hat.
  { intros Hw.
    assert (globalCredentialCheck (world m) = Some p) as Hold
      by (destruct Hslot as [Hs|Hs]; congruence).
    specialize (Hadv ltac:(eapply always_mono; [|apply (Hcloses Hold)];
                           intros t o Hc; by left)).
    destruct at_; try done. congruence. }
  destruct at_ as [o|r k|ms k|s k].
  - apply slotPending_set_entry; [done|done|]. intros Hw. by destruct (Hat Hw).
  - apply slotPending_set_entry; [done|done|]. intros Hw. apply (Hat Hw).
  - apply slotPending_set_entry; [done|done|]. intros Hw. apply (Hat Hw).
  - apply slotPending_recheck; [done|done|done|]. intros Hw. apply (Hat Hw).
Qed.

Lemma slotPending_step (a : Action) (m m' : Machine) :
  slotPending m → step a m = Some m' → slotPending m'.
Proof.
  intros Hm. destruct a; unfold step; intros Hs;
    try lazymatch type of Hs with
        | Some ?x = Some ?y => assert (y = x) as -> by congruence; clear Hs
        end.
  - by apply slotPending_checkCredentials.
  - unfold refreshCredentials. destruct (isMounted _).
    + apply slotPending_checkCredentials.
      apply slotPending_with_world; [done|]. by right.
    + apply slotPending_spawn; [done|]. unfold tidy. cbn. apply Forall_nil_2.
  - apply slotPending_spawn; [done|]. apply tidy_saveCredentials.
  - apply slotPending_spawn; [done|]. apply tidy_clearCredentials.
  - apply slotPending_with_world; [done|].
    apply tidy_advance, tidy_updateSessionId.
  - destruct (promises m !! p) as [[d [[o|r k|ms k|s k]|q k]]|] eqn:He; try done.
    assert (m' = resume p d (k reply) m) as -> by congruence.
    apply slotPending_resume; [done|eauto| |].
    + apply (slotPending_lookup m p _ Hm He).
    + intros Hp. apply (slotPending_closes m p _ Hm He Hp).
  - destruct (promises m !! p) as [[d [[o|r k|ms k|s k]|q k]]|] eqn:He; try done.
    assert (m' = resume p d k m) as -> by congruence.
    apply slotPending_resume; [done|eauto| |].
    + apply (slotPending_lookup m p _ Hm He).
    + intros Hp. apply (slotPending_closes m p _ Hm He Hp).
  - destruct (promises m !! p) as [[d [[o|r k|ms k|s k]|q k]]|] eqn:He; try done.
    destruct (promises m !! q) as [[d' [[o|r' k'|ms' k'|s' k']|q' k']]|] eqn:Hq; try done.
    assert (m' = resume p d (k o) m) as -> by congruence.
    apply slotPending_resume; [done|eauto| |].
    + apply (slotPending_lookup m p _ Hm He).
    + intros Hp. apply (slotPending_closes m p _ Hm He Hp).
  - destruct (promises m !! p) as [[d [[o|r k|ms k|s k]|q k]]|] eqn:He; try done.
    assert (m' = recheck p d s k m) as -> by congruence.
    apply slotPending_recheck; [done|eauto| |].
    + apply (slotPending_lookup m p _ Hm He).
    + intros Hp. apply (slotPending_closes m p _ Hm He Hp).
  - destruct (timers (world m) !! i) as [t|]; [|done].
    assert (m' = fire t (with_world (set_timers (delete i) (world m)) m)) as ->
      by congruence.
    assert (slotPending (with_world (set_timers (delete i) (world m)) m)) as Hm1
      by (apply slotPending_with_world; [done|by left]).
    destruct t as [delay new old|delay]; unfold fire.
    + apply slotPending_with_world; [done|]. apply releases_dispatch.
    + destruct (isMounted _); [|done]. by apply slotPending_checkCredentials.
  - destruct (isMounted _); [|done]. apply slotPending_with_world; [done|by left].
  - apply slotPending_with_world; [done|by left].
  - apply slotPending_with_world; [done|by left].
Qed.

Lemma slotPending_run (actions : list Action) (m m' : Machine) :
  slotPending m → run actions m = Some m' → slotPending m'.
Proof.
  revert m. induction actions as [|a rest IH]; intros m Hm; cbn.
  - by intros [= <-].
  - destruct (step a m) as [m1|] eqn:Hs; [|done].
    apply IH. by eapply slotPending_step.
Qed.

Lemma slotPending_inFlight (m : Machine) (p : PromiseId) :
  slotPending m → globalCredentialCheck (world m) = Some p → inFlight m p = true.
Proof.
  intros [_ Hs] Hp. destruct (Hs p Hp) as (e & He & Hc).
  unfold inFlight. rewrite He. by destruct e as [d [[o|r k|ms k|s k]|q k]].
Qed.

(** X7: In every state the event loop can reach from a page with no promise
    pending and nothing recorded as in flight, the promise recorded in
    [globalCredentialCheck], if any, has not settled: a call that attaches
    to it never receives a finished result.  Hence a forced check always
    returns a pending promise, whether it attaches or starts a fetch. *)
Theorem slot_names_a_pending_promise (w0 : World) (actions : list Action) :
  globalCredentialCheck w0 = None →
  let m := after actions (mkMachine w0 [] []) in
  (∀ p, globalCredentialCheck (world m) = Some p → inFlight m p = true) ∧
  (∀ d sid, inFlight (checkCredentials d sid true m).1
                     (checkCredentials d sid true m).2 = true).
Proof.
  intros Hw0 m.
  assert (slotPending m) as Hm.
  { assert (slotPending (mkMachine w0 [] [])) as H0.
    { split; [apply Forall_nil_2|]. cbn. intros p Hp. congruence. }
    unfold m, after. destruct (run actions _) as [m'|] eqn:Hrun; cbn; [|done].
    by eapply slotPending_run. }
  split; [intros p; by apply slotPending_inFlight|].
  intros d sid.
  destruct (globalCredentialCheck (trackSession sid (world m))) as [q|] eqn:Hq.
  - rewrite (checkCredentials_attaches d sid true m q Hq). cbn.
    assert (globalCredentialCheck (world m) = Some q) as Hold.
    { revert Hq. unfold trackSession. by destruct (sessionChanged (world m) sid). }
    apply (slotPending_inFlight m q Hm Hold).
  - destruct (checkCredentials_fetches d sid true m Hq (cachedStatus_forced _ _))
      as (k & w' & -> & _).
    unfold inFlight. cbn. by rewrite list_lookup_middle.
Qed.

Lemma slot_names_a_pending_promise_witness :
  globalCredentialCheck (freshWorld "s" 1000) = None ∧
  let m := after [CallCheck "s" false; CallRefresh "s"; Respond 0%nat credentialsFound]
                 (mkMachine (freshWorld "s" 1000) [] []) in
  (∀ p, globalCredentialCheck (world m) = Some p → inFlight m p = true) ∧
  (∀ d sid, inFlight (checkCredentials d sid true m).1
                     (checkCredentials d sid true m).2 = true).
Proof.
  split; [reflexivity|].
  exact (slot_names_a_pending_promise (freshWorld "s" 1000)
           [CallCheck "s" false; CallRefresh "s"; Respond 0%nat credentialsFound]
           eq_refl).
Defined.

(** ** The persistent session identifier *)

(** X12: [getOrCreateSessionId] returns a string that is not empty and that is
    what localStorage holds under ['odoo_session_id'] afterwards.  It never
    replaces an identifier that is there, touches no other key, and is
    idempotent: a second call returns the same identifier and changes
    nothing, whatever [uuidv4] would return then. *)
Theorem getOrCreateSessionId_is_idempotent (uuid uuid' : string) (w : World) :
  uuid ≠ "" →
  ∃ item,
    let w1 := (advance (getOrCreateSessionId uuid) w).1 in
    advance (getOrCreateSessionId uuid) w = (w1, Finished (Resolved item)) ∧
    truthy_item (Some item) = true ∧
    localStorage w1 !! "odoo_session_id" = Some item ∧
    (truthy_item (localStorage w !! "odoo_session_id") = true → w1 = w) ∧
    (truthy_item (localStorage w !! "odoo_session_id") = false →
     item = Text uuid ∧
     w1 = set_localStorage <["odoo_session_id" := Text uuid]> w) ∧
    advance (getOrCreateSessionId uuid') w1 = (w1, Finished (Resolved item)).
Proof.
  intros Huuid.
  assert (negb (String.eqb uuid "") = true) as Hne
    by (by destruct (String.eqb_spec uuid "")).
  unfold getOrCreateSessionId, getItem, setItem, update, ask. cbn.
  destruct (localStorage w !! "odoo_session_id") as [[s|j]|] eqn:Hitem; cbn.
  - destruct (negb (String.eqb s "")) eqn:Hs; cbn.
    + exists (Text s). rewrite Hitem. cbn. rewrite Hs. done.
    + exists (Text uuid). rewrite lookup_insert_eq. cbn. rewrite Hne. done.
  - exists (JsonText j). rewrite Hitem. done.
  - exists (Text uuid). rewrite lookup_insert_eq. cbn. rewrite Hne. done.
Qed.

Lemma getOrCreateSessionId_is_idempotent_witness :
  "0b7e5c1a-72c5-4a57-9c6d-3f1a7d2e9b10" ≠ "" ∧
  ∃ item,
    let w1 := (advance (getOrCreateSessionId "0b7e5c1a-72c5-4a57-9c6d-3f1a7d2e9b10")
                       (set_localStorage (λ _, ∅) (freshWorld "s" 1000))).1 in
    advance (getOrCreateSessionId "0b7e5c1a-72c5-4a57-9c6d-3f1a7d2e9b10")
            (set_localStorage (λ _, ∅) (freshWorld "s" 1000))
    = (w1, Finished (Resolved item)) ∧
    truthy_item (Some item) = true ∧
    localStorage w1 !! "odoo_session_id" = Some item ∧
    (truthy_item (localStorage (set_localStorage (λ _, ∅) (freshWorld "s" 1000))
                    !! "odoo_session_id") = true →
     w1 = set_localStorage (λ _, ∅) (freshWorld "s" 1000)) ∧
    (truthy_item (localStorage (set_localStorage (λ _, ∅) (freshWorld "s" 1000))
                    !! "odoo_session_id") = false →
     item = Text "0b7e5c1a-72c5-4a57-9c6d-3f1a7d2e9b10" ∧
     w1 = set_localStorage <["odoo_session_id" := Text "0b7e5c1a-72c5-4a57-9c6d-3f1a7d2e9b10"]>
            (set_localStorage (λ _, ∅) (freshWorld "s" 1000))) ∧
    advance (getOrCreateSessionId "another") w1 = (w1, Finished (Resolved item)).
Proof.
  assert ("0b7e5c1a-72c5-4a57-9c6d-3f1a7d2e9b10" ≠ "") as H by done.
  split; [exact H|].
  exact (getOrCreateSessionId_is_idempotent "0b7e5c1a-72c5-4a57-9c6d-3f1a7d2e9b10"
           "another" (set_localStorage (λ _, ∅) (freshWorld "s" 1000)) H).
Defined.

(** X13: A rotation is persistent: after [updateSessionId] the identifier held
    by the context is the new one, and so is the one a page load would
    read with [getOrCreateSessionId], unless the new identifier is the
    empty string, which the next page load replaces by a fresh one. *)
Theorem rotation_is_persistent (old new uuid : string) (w : World) :
  let w' := (advance (updateSessionId old new) w).1 in
  chat_sessionId w' = new ∧
  advance (getOrCreateSessionId uuid) w'
  = if String.eqb new ""
    then (set_localStorage <["odoo_session_id" := Text uuid]> w',
          Finished (Resolved (Text uuid)))
    else (w', Finished (Resolved (Text new))).
Proof.
  unfold updateSessionId, getOrCreateSessionId, getItem, setItem, update, ask. cbn.
  split; [done|]. rewrite lookup_insert_eq. cbn.
  by destruct (String.eqb new "").
Qed.

(** ** What a fetch returns and what it asks *)

(** X8: The result of a fetch is what it caches.  A run that makes no re-check
    ends by assigning the status and the time of the call, then emptying
    the slot, and resolves to the [isConfigured] of that status.  The
    status is one of four (configured; session expired; failed to check;
    not configured, with no error), so that no message of the service or
    of the transport reaches the cache, and it says configured only if the
    last reply, to a request for the session of the call, confirmed
    credentials.  A run that re-checks assigns no status of its own when
    the re-check resolves, and resolves to the same value; if the re-check
    rejects it records the failure and resolves to [false]. *)
Theorem fetch_result_is_what_it_caches (sid : string) (now : Z) :
  always (fetchCredentials sid now) (λ t o,
    ∃ v, o = Resolved v ∧
      match rechecks t with
      | [] =>
          ∃ st t',
            t = (t' ++ [Wrote (setGlobalStatus st now);
                        Wrote (set_globalCredentialCheck None)])%list ∧
            v = VBool (isConfigured st) ∧
            st ∈ [mkStatus true None; sessionExpired; checkFailed; mkStatus false None] ∧
            (isConfigured st = true →
             ∃ x, last (asks t) = Some (requestFor sid, x) ∧ is_Some (confirmed x))
      | _ =>
          (∃ t', t = (t' ++ [Rechecked true (Resolved v);
                             Wrote (set_globalCredentialCheck None)])%list) ∨
          (∃ e t', t = (t' ++ [Rechecked true (Rejected e);
                               Wrote (setGlobalStatus checkFailed now);
                               Wrote (set_globalCredentialCheck None)])%list ∧
                   v = VBool false)
      end).
Proof.
  eapply always_mono; [|apply fetchCredentials_runs].
  intros t o [x Hx|x Hb Hx|pre x Hpre Hx|pre x j Hpre Hx|pre x tr Hpre Hb Hx Hrec
             |pre x tr v Hpre Hb Hx Hrec|pre x tr e Hpre Hb Hx Hrec];
    try (destruct (asks_LocalPart sid pre Hpre) as (Hpr & _ & _));
    try (destruct Hrec as (Hrr & _ & _));
    eexists; (split; [reflexivity|]);
    autorewrite with events; rewrite ?Hpr, ?Hrr; cbn [app].
  - exists (mkStatus true None), [Asked (requestFor sid) x]. split; [done|].
    split; [done|]. split; [find_elem|]. intros _. by exists x.
  - exists sessionExpired, [Asked (requestFor sid) x; Wrote discardSummary].
    split; [done|]. split; [done|]. split; [find_elem|]. done.
  - exists checkFailed, (pre ++ [Asked (requestFor sid) x])%list.
    split; [by rewrite <- app_assoc|]. split; [done|]. split; [find_elem|]. done.
  - exists (mkStatus true None),
      (pre ++ [Asked (requestFor sid) x; Wrote (storeSummary j)])%list.
    split; [by rewrite <- app_assoc|]. split; [done|]. split; [find_elem|]. intros _.
    exists x. split; [|by rewrite Hx]. by rewrite last_snoc.
  - exists (mkStatus false None), (pre ++ Asked (requestFor sid) x :: tr)%list.
    split; [by rewrite <- app_assoc|]. split; [done|]. split; [find_elem|]. done.
  - left. exists (pre ++ Asked (requestFor sid) x :: tr
                      ++ [Wrote clearGlobalCache; Slept 500])%list.
    rewrite <- !app_assoc. cbn. by rewrite <- !app_assoc.
  - right. exists e, (pre ++ Asked (requestFor sid) x :: tr
                          ++ [Wrote clearGlobalCache; Slept 500])%list.
    split; [|done]. rewrite <- !app_assoc. cbn. by rewrite <- !app_assoc.
Qed.

Lemma onlyAsks_mono {A : Type} (P P' : NetRequest → Prop) (p : Prog A) :
  (∀ r, P r → P' r) → onlyAsks P p → onlyAsks P' p.
Proof.
  intros HP. apply always_mono. intros t o Ht. by eapply Forall_impl.
Qed.

Lemma onlyAsks_bind {A B : Type} (P : NetRequest → Prop) (p : Prog A) (g : A → Prog B) :
  onlyAsks P p → (∀ a, onlyAsks P (g a)) → onlyAsks P (bind p g).
Proof.
  intros Hp Hg. apply always_bind. eapply always_mono; [|exact Hp].
  intros t [a|e] Ht; lazy beta iota in *; [|done].
  eapply always_mono; [|apply Hg]. intros t' o' Ht'. lazy beta in Ht'.
  rewrite asks_app, fmap_app. by apply Forall_app_2.
Qed.

Lemma onlyAsks_try_catch {A : Type} (P : NetRequest → Prop) (p : Prog A)
    (h : Exn → Prog A) :
  onlyAsks P p → (∀ e, onlyAsks P (h e)) → onlyAsks P (try_catch p h).
Proof.
  intros Hp Hh. apply always_try_catch. eapply always_mono; [|exact Hp].
  intros t [a|e] Ht; lazy beta iota in *; [done|].
  eapply always_mono; [|apply Hh]. intros t' o' Ht'. lazy beta in Ht'.
  rewrite asks_app, fmap_app. by apply Forall_app_2.
Qed.

Lemma onlyAsks_try_finally {A : Type} (P : NetRequest → Prop) (p : Prog A)
    (fin : World → World) :
  onlyAsks P p → onlyAsks P (try_finally p fin).
Proof.
  intros Hp. apply always_try_finally. eapply always_mono; [|exact Hp].
  intros t o Ht. lazy beta in *. rewrite asks_app. autorewrite with events.
  by rewrite app_nil_r.
Qed.

Lemma onlyAsks_get (P : NetRequest → Prop) (o : jsval) (key : string) :
  onlyAsks P (get o key).
Proof. unfold get, onlyAsks. destruct o as [[]|]; cbn; apply Forall_nil_2. Qed.

Lemma onlyAsks_hasCredentials (P : NetRequest → Prop) (check : json) :
  onlyAsks P (hasCredentials check).
Proof.
  unfold hasCredentials. apply onlyAsks_bind; [apply onlyAsks_get|]. intros success.
  destruct (truthy success); [|apply Forall_nil_2].
  apply onlyAsks_bind; [apply onlyAsks_get|]. intros credentials. apply Forall_nil_2.
Qed.

Lemma onlyAsks_getOdooCredentials (P : NetRequest → Prop) (s : string) :
  P (requestFor s) → onlyAsks P (getOdooCredentials s).
Proof.
  intros Hs. unfold getOdooCredentials, onlyAsks. cbn. intros [d|m]; cbn;
    autorewrite with events; cbn; by apply Forall_singleton.
Qed.

Lemma onlyAsks_update (P : NetRequest → Prop) (f : World → World) :
  onlyAsks P (update f).
Proof. unfold update, onlyAsks. cbn. autorewrite with events. apply Forall_nil_2. Qed.

Lemma onlyAsks_ask {A : Type} (P : NetRequest → Prop) (f : World → A) :
  onlyAsks P (ask f).
Proof. unfold ask, onlyAsks. cbn. intros w. apply Forall_nil_2. Qed.

Lemma onlyAsks_Ret {A : Type} (P : NetRequest → Prop) (a : A) : onlyAsks P (Ret a).
Proof. apply Forall_nil_2. Qed.

Lemma onlyAsks_Throw {A : Type} (P : NetRequest → Prop) (e : Exn) :
  onlyAsks P (@Throw A e).
Proof. apply Forall_nil_2. Qed.

Ltac only_asks :=
  repeat first
    [ apply onlyAsks_Ret | apply onlyAsks_Throw
    | apply onlyAsks_update | apply onlyAsks_ask | apply onlyAsks_get
    | apply onlyAsks_hasCredentials
    | apply onlyAsks_try_finally
    | apply onlyAsks_try_catch; [|intros ?]
    | apply onlyAsks_bind; [|intros ?]
    | match goal with
      | |- onlyAsks _ (if ?b then _ else _) => destruct b
      | |- onlyAsks _ (match ?x with Some _ => _ | None => _ end) => destruct x
      | |- onlyAsks _ (match ?x with notFound => _ | foundIn _ _ => _ end) => destruct x
      end ].

Lemma onlyAsks_testSessions (P : NetRequest → Prop) (sid : string) (sessions : list string) :
  (∀ s, s ∈ sessions → P (requestFor s)) →
  onlyAsks P (testSessions sid sessions).
Proof.
  induction sessions as [|s rest IH]; intros Hs; cbn [testSessions]; [apply onlyAsks_Ret|].
  assert (onlyAsks P (testSessions sid rest)) as Hrest
    by (apply IH; intros s' Hin; apply Hs; by right).
  destruct (negb (String.eqb s sid)); [|done].
  only_asks; try done.
  apply onlyAsks_getOdooCredentials, Hs. by left.
Qed.

Lemma onlyAsks_findAvailableSession (sid : string) :
  onlyAsks (readsFor sid) (findAvailableSession sid).
Proof.
  unfold findAvailableSession. only_asks.
  - apply onlyAsks_getOdooCredentials. exists sid. split; [by left|done].
  - apply onlyAsks_testSessions. intros s Hs. exists s. split; [by right|done].
Qed.

Lemma onlyAsks_recoverSession (sid : string) :
  onlyAsks (readsFor sid) (recoverSession sid (updateSessionId sid)).
Proof.
  unfold recoverSession, updateSessionId, setItem.
  apply onlyAsks_bind; [apply onlyAsks_findAvailableSession|]. intros result.
  only_asks.
Qed.

Lemma onlyAsks_checkLocalCredentials (sid : string) (now : Z) (item : option StoreItem) :
  onlyAsks (readsFor sid) (checkLocalCredentials sid now item).
Proof.
  unfold checkLocalCredentials, removeItem, JSON_parse.
  destruct item as [item|]; [|apply onlyAsks_Ret].
  destruct (truthy_item (Some item)); [|apply onlyAsks_Ret].
  apply onlyAsks_try_catch; [|intros e; only_asks].
  apply onlyAsks_bind; [destruct item; only_asks|]. intros parsedCredentials.
  apply onlyAsks_bind.
  { generalize requiredFields. intros fields.
    induction fields as [|field rest IH]; cbn [every]; only_asks; done. }
  intros hasAllFields. only_asks.
  apply onlyAsks_getOdooCredentials. exists sid. split; [by left|done].
Qed.

Lemma onlyAsks_fetchCredentials (sid : string) (now : Z) :
  onlyAsks (readsFor sid) (fetchCredentials sid now).
Proof.
  unfold fetchCredentials.
  apply onlyAsks_try_finally, onlyAsks_try_catch; [|intros e; only_asks].
  apply onlyAsks_bind; [apply onlyAsks_ask|]. intros localCredentials.
  apply onlyAsks_bind; [apply onlyAsks_checkLocalCredentials|]. intros [b|];
    [apply onlyAsks_Ret|].
  apply onlyAsks_bind;
    [apply onlyAsks_getOdooCredentials; exists sid; split; [by left|done]|].
  intros credentialCheck.
  apply onlyAsks_bind; [apply onlyAsks_hasCredentials|]. intros [|].
  { unfold setItem. only_asks. }
  apply onlyAsks_bind; [apply onlyAsks_recoverSession|]. intros [|].
  - apply onlyAsks_bind; [apply onlyAsks_update|]. intros _.
    unfold onlyAsks. cbn. intros [v|e]; cbn; autorewrite with events; apply Forall_nil_2.
  - only_asks.
Qed.

Lemma list_to_map_assoc (key : string) (fields : list (string * json)) :
  (list_to_map fields : gmap string json) !! key = assoc key fields.
Proof.
  induction fields as [|[k v] rest IH]; [done|]. cbn.
  destruct (String.eqb_spec k key) as [->|Hne].
  - apply lookup_insert_eq.
  - by rewrite lookup_insert_ne.
Qed.

(** What goes on the wire under each name. *)
Lemma saveBody_lookup (sid : string) (credentials : json) (key : string) :
  saveBody sid credentials !! key
  = match assoc key (ownProperties credentials) with
    | Some v => Some v
    | None => if String.eqb key "session_id" then Some (JStr sid) else None
    end.
Proof.
  unfold saveBody. rewrite lookup_union, list_to_map_assoc.
  destruct (assoc key (ownProperties credentials)) as [v|]; cbn.
  - by destruct (_ !! key).
  - destruct (String.eqb_spec key "session_id") as [->|Hne].
    + by rewrite lookup_singleton_eq.
    + by rewrite lookup_singleton_ne.
Qed.

(** X9: Each operation talks to its own end point only.  A fetch, and the
    recovery inside it, only read: every request is a [GET] of the
    credentials of the session of the call or of one of the two literal
    sessions of the prober, never a save or a clear and never about another
    session.  [clearCredentials] makes no request but the [DELETE] for its
    session.  [saveCredentials] makes no request but one [POST], whose body
    holds every property of the credentials it was given, and the session
    of the hook under [session_id] only if the credentials have no property
    of that name: one of their own replaces it. *)
Theorem operations_keep_to_their_end_point (sid : string) (now : Z) (credentials : json) :
  onlyAsks (readsFor sid) (fetchCredentials sid now) ∧
  onlyAsks (readsFor sid) (recoverSession sid (updateSessionId sid)) ∧
  onlyAsks (λ r, r = ClearCredentials sid) (clearCredentials sid) ∧
  onlyAsks (λ r, r = SaveCredentials (saveBody sid credentials))
           (saveCredentials sid credentials) ∧
  (∀ key v, assoc key (ownProperties credentials) = Some v →
            saveBody sid credentials !! key = Some v) ∧
  (assoc "session_id" (ownProperties credentials) = None →
   saveBody sid credentials !! "session_id" = Some (JStr sid)) ∧
  (∀ key, key ≠ "session_id" → assoc key (ownProperties credentials) = None →
          saveBody sid credentials !! key = None).
Proof.
  split; [apply onlyAsks_fetchCredentials|].
  split; [apply onlyAsks_recoverSession|].
  split; [|split; [|split; [|split]]].
  - unfold onlyAsks, clearCredentials, clearOdooCredentials, removeItem, update,
      Date_now, ask.
    cbn. intros [d|msg] w; cbn; autorewrite with events; cbn; by apply Forall_singleton.
  - eapply always_mono; [|apply saveCredentials_runs].
    intros t o [(d & t' & _ & -> & _)|(message & _ & _ & [->|(x & -> & _)] & _)]; cbn;
      repeat constructor.
  - intros key v Hv. by rewrite saveBody_lookup, Hv.
  - intros Hnone. by rewrite saveBody_lookup, Hnone.
  - intros key Hkey Hnone. rewrite saveBody_lookup, Hnone.
    by destruct (String.eqb_spec key "session_id").
Qed.

(** Credentials that carry a [session_id] are saved under it, not under
    the session of the hook. *)
Example save_for_another_session :
  let credentials := JObj [("url", JStr "https://x"); ("database", JStr "d");
                           ("username", JStr "u"); ("password", JStr "p");
                           ("session_id", JStr "other")] in
  requests (after [CallSave "s" credentials] (boot "s" 1000))
  = [SaveCredentials (saveBody "s" credentials)] ∧
  saveBody "s" credentials !! "session_id" = Some (JStr "other") ∧
  saveBody "s" credentials !! "password" = Some (JStr "p") ∧
  size (saveBody "s" credentials) = 5%nat.
Proof. vm_compute. done. Qed.

(** ** The reducer of the chat state *)

Lemma update_last_message (g : Chat.Message → Chat.Message)
    (earlier : list Chat.Message) (last : Chat.Message) :
  imap (λ index msg,
          if Nat.eqb index (length (earlier ++ [last]) - 1) then g msg else msg)
       (earlier ++ [last])
  = (earlier ++ [g last])%list.
Proof.
  apply list_eq. intros i. rewrite list_lookup_imap, length_app. cbn.
  destruct (decide (i < length earlier)%nat) as [Hlt|Hge].
  - rewrite !lookup_app_l by done.
    destruct (earlier !! i) as [msg|] eqn:Hi; [|done]. cbn.
    by rewrite (proj2 (Nat.eqb_neq _ _)) by lia.
  - rewrite !lookup_app_r by lia.
    destruct (i - length earlier)%nat as [|n] eqn:Hn; cbn; [|done].
    by rewrite (proj2 (Nat.eqb_eq _ _)) by lia.
Qed.

(** X14: Streaming accumulates in the last message.  Chunks dispatched as
    [UPDATE_LAST_MESSAGE] are appended, in order, to the content of the
    last message, which is marked as streaming; the completion marks it as
    not streaming and leaves the content as it is, whatever content the
    completion carries.  The earlier messages, the other properties of the
    last one and the rest of the state are as before; no step throws or
    touches the world. *)
Theorem streaming_accumulates_in_the_last_message
    (uuid : string) (initial state : Chat.State)
    (earlier : list Chat.Message) (last : Chat.Message)
    (chunks : list string) (ignored : string) (w : World) :
  Chat.messages state = (earlier ++ [last])%list →
  let streamed content flag :=
    Chat.mkState
      (earlier ++ [Chat.mkMessage content (Some flag) (Chat.msg_others last)])
      (Chat.isLoading state) (Chat.error state) (Chat.sessionId state)
      (Chat.isStreaming state) (Chat.uploadedFile state)
      (Chat.conversationHistory state) (Chat.agentStatus state) in
  let received := Chat.msg_content last +:+ foldr String.append "" chunks in
  (chunks ≠ [] →
   advance (Chat.reduce uuid initial state
              ((λ c, Chat.UPDATE_LAST_MESSAGE c false) <$> chunks)) w
   = (w, Finished (Resolved (streamed received true)))) ∧
  advance (Chat.reduce uuid initial state
             (((λ c, Chat.UPDATE_LAST_MESSAGE c false) <$> chunks)
              ++ [Chat.UPDATE_LAST_MESSAGE ignored true])) w
  = (w, Finished (Resolved (streamed received false))).
Proof.
  intros Hm streamed received.
  assert (∀ content, (content +:+ "")%string = content) as Hnil.
  { intros content. induction content as [|a s IH]; [done|].
    change (String a (s +:+ "") = String a s). by rewrite IH. }
  assert (∀ a b c : string, ((a +:+ b) +:+ c = a +:+ (b +:+ c))%string) as Hassoc.
  { intros a b c. induction a as [|x a IH]; [done|].
    change (String x ((a +:+ b) +:+ c) = String x (a +:+ (b +:+ c))). by rewrite IH. }
  assert (∀ st content flag others rest,
            Chat.messages st = (earlier ++ [Chat.mkMessage content flag others])%list →
            ∀ c completion,
              advance (Chat.reduce uuid initial st
                         (Chat.UPDATE_LAST_MESSAGE c completion :: rest)) w
              = advance (Chat.reduce uuid initial
                           (Chat.mkState
                              (earlier ++ [Chat.mkMessage
                                             (if completion then content
                                              else content +:+ c)
                                             (Some (negb completion)) others])
                              (Chat.isLoading st) (Chat.error st) (Chat.sessionId st)
                              (Chat.isStreaming st) (Chat.uploadedFile st)
                              (Chat.conversationHistory st) (Chat.agentStatus st))
                           rest) w) as Hstep.
  { intros st content flag others rest Hst c completion.
    cbn [Chat.reduce Chat.chatReducer]. cbn [mbind Prog_bind bind].
    rewrite Hst. by rewrite update_last_message. }
  assert (∀ cs st content flag,
            Chat.messages st
            = (earlier ++ [Chat.mkMessage content flag (Chat.msg_others last)])%list →
            Chat.isLoading st = Chat.isLoading state →
            Chat.error st = Chat.error state →
            Chat.sessionId st = Chat.sessionId state →
            Chat.isStreaming st = Chat.isStreaming state →
            Chat.uploadedFile st = Chat.uploadedFile state →
            Chat.conversationHistory st = Chat.conversationHistory state →
            Chat.agentStatus st = Chat.agentStatus state →
            (cs ≠ [] →
             advance (Chat.reduce uuid initial st
                        ((λ c, Chat.UPDATE_LAST_MESSAGE c false) <$> cs)) w
             = (w, Finished (Resolved
                     (streamed (content +:+ foldr String.append "" cs) true)))) ∧
            advance (Chat.reduce uuid initial st
                       (((λ c, Chat.UPDATE_LAST_MESSAGE c false) <$> cs)
                        ++ [Chat.UPDATE_LAST_MESSAGE ignored true])) w
            = (w, Finished (Resolved
                    (streamed (content +:+ foldr String.append "" cs) false)))) as Hall.
  { induction cs as [|c cs IH]; intros st content flag Hst H1 H2 H3 H4 H5 H6 H7.
    - split; [done|]. cbn [fmap list_fmap app foldr].
      rewrite (Hstep st content flag _ [] Hst). cbn. rewrite Hnil.
      unfold streamed. by rewrite H1, H2, H3, H4, H5, H6, H7.
    - cbn [fmap list_fmap app foldr].
      rewrite !(Hstep st content flag _ _ Hst). cbn [negb].
      rewrite <- Hassoc.
      destruct (IH (Chat.mkState
                      (earlier ++ [Chat.mkMessage (content +:+ c) (Some true)
                                                  (Chat.msg_others last)])
                      (Chat.isLoading st) (Chat.error st) (Chat.sessionId st)
                      (Chat.isStreaming st) (Chat.uploadedFile st)
                      (Chat.conversationHistory st) (Chat.agentStatus st))
                   (content +:+ c)%string (Some true) eq_refl H1 H2 H3 H4 H5 H6 H7)
        as [IH1 IH2].
      split; [|exact IH2]. intros _.
      destruct cs as [|c' cs']; [|by apply IH1].
      cbn. rewrite Hnil. unfold streamed. by rewrite H1, H2, H3, H4, H5, H6, H7. }
  destruct last as [content flag others].
  apply (Hall chunks state content flag Hm); done.
Qed.

Lemma streaming_accumulates_in_the_last_message_witness :
  let question := Chat.mkMessage "How many orders?" None [("type", JStr "user")] in
  let answer := Chat.mkMessage "" None [("type", JStr "agent")] in
  let state := Chat.mkState [question; answer] true None (Text "s") true (Some JNull) []
                            "responding" in
  Chat.messages state = ([question] ++ [answer])%list ∧
  advance (Chat.reduce "u" (Chat.initialState (Text "s")) state
             (((λ c, Chat.UPDATE_LAST_MESSAGE c false) <$> ["Twenty"; "-one"])
              ++ [Chat.UPDATE_LAST_MESSAGE "dropped" true])) (freshWorld "s" 1000)
  = (freshWorld "s" 1000,
     Finished (Resolved
       (Chat.mkState
          ([question] ++ [Chat.mkMessage
                            (Chat.msg_content answer
                             +:+ foldr String.append "" ["Twenty"; "-one"])
                            (Some false) (Chat.msg_others answer)])
          (Chat.isLoading state) (Chat.error state) (Chat.sessionId state)
          (Chat.isStreaming state) (Chat.uploadedFile state)
          (Chat.conversationHistory state) (Chat.agentStatus state)))).
Proof.
  cbv zeta. split; [reflexivity|].
  exact (proj2 (streaming_accumulates_in_the_last_message
                  "u" (Chat.initialState (Text "s"))
                  (Chat.mkState
                     [Chat.mkMessage "How many orders?" None [("type", JStr "user")];
                      Chat.mkMessage "" None [("type", JStr "agent")]]
                     true None (Text "s") true (Some JNull) [] "responding")
                  [Chat.mkMessage "How many orders?" None [("type", JStr "user")]]
                  (Chat.mkMessage "" None [("type", JStr "agent")])
                  ["Twenty"; "-one"] "dropped" (freshWorld "s" 1000) eq_refl)).
Defined.

Lemma advance_bind {A B : Type} (p : Prog A) (g : A → Prog B) (w w1 : World) (a : A) :
  advance p w = (w1, Finished (Resolved a)) →
  advance (bind p g) w = advance (g a) w1.
Proof.
  revert w. induction p as [a'|e|k IH|f k IH|r k|ms k|s k]; intros w; cbn; try done.
  - by intros [= -> ->].
  - apply IH.
  - apply IH.
Qed.

(** X15: While localStorage holds the session identifier of the chat state,
    only [RESTORE_SESSION] and [UPDATE_SESSION_ID] can change it: any other
    sequence of actions, [NEW_SESSION] and unknown actions included, is
    reduced without throwing and without touching the world, and ends in a
    state with the same identifier. *)
Theorem session_survives_chat_actions
    (uuid : string) (initial state : Chat.State) (actions : list Chat.Action) (w : World) :
  localStorage w !! "odoo_session_id" = Some (Chat.sessionId state) →
  truthy_item (Some (Chat.sessionId state)) = true →
  Forall (λ action, Chat.assignsSessionId action = false) actions →
  ∃ state',
    advance (Chat.reduce uuid initial state actions) w = (w, Finished (Resolved state')) ∧
    Chat.sessionId state' = Chat.sessionId state.
Proof.
  intros Hstored Htruthy Hactions. revert state Hstored Htruthy.
  induction Hactions as [|action rest Haction Hrest IH]; intros state Hstored Htruthy.
  - exists state. done.
  - assert (∃ state1,
              advance (Chat.chatReducer uuid initial state action) w
              = (w, Finished (Resolved state1)) ∧
              Chat.sessionId state1 = Chat.sessionId state) as (state1 & Hadv & Hsid).
    { destruct action; try done; try (eexists; split; [reflexivity|done]).
      unfold Chat.chatReducer, getOrCreateSessionId, getItem, ask. cbn.
      rewrite Hstored. cbn [truthy_item] in Htruthy |- *. rewrite Htruthy. cbn.
      eexists. split; [reflexivity|done]. }
    destruct (IH state1) as (state' & Hadv' & Hsid'); [by rewrite Hsid|by rewrite Hsid|].
    exists state'. split; [|congruence].
    cbn [Chat.reduce]. change (advance (bind (Chat.chatReducer uuid initial state action)
                                            (λ state1, Chat.reduce uuid initial state1 rest)) w
                               = (w, Finished (Resolved state'))).
    by rewrite (advance_bind _ _ w w state1 Hadv).
Qed.

Lemma session_survives_chat_actions_witness :
  let state := Chat.initialState (Text "s") in
  let actions := [Chat.ADD_MESSAGE (Chat.mkMessage "hello" None []); Chat.NEW_SESSION;
                  Chat.OTHER "UNKNOWN"; Chat.SET_ERROR (Some "offline")] in
  (localStorage (freshWorld "s" 1000) !! "odoo_session_id" = Some (Chat.sessionId state) ∧
   truthy_item (Some (Chat.sessionId state)) = true ∧
   Forall (λ action, Chat.assignsSessionId action = false) actions) ∧
  ∃ state',
    advance (Chat.reduce "u" (Chat.initialState (Text "loaded")) state actions)
            (freshWorld "s" 1000)
    = (freshWorld "s" 1000, Finished (Resolved state')) ∧
    Chat.sessionId state' = Chat.sessionId state.
Proof.
  cbv zeta.
  assert (localStorage (freshWorld "s" 1000) !! "odoo_session_id"
          = Some (Chat.sessionId (Chat.initialState (Text "s")))) as H1
    by (vm_compute; reflexivity).
  assert (Forall (λ action, Chat.assignsSessionId action = false)
            [Chat.ADD_MESSAGE (Chat.mkMessage "hello" None []); Chat.NEW_SESSION;
             Chat.OTHER "UNKNOWN"; Chat.SET_ERROR (Some "offline")]) as H3
    by (repeat constructor).
  split; [by repeat split|].
  exact (session_survives_chat_actions "u" (Chat.initialState (Text "loaded"))
           (Chat.initialState (Text "s")) _ (freshWorld "s" 1000) H1 eq_refl H3).
Defined.

(** ** The reducer of the authentication state *)

(** X16: From the initial state, whatever is dispatched, a state that is not
    authenticated holds no session identifier and no credentials; every
    result of an authentication ([SET_AUTHENTICATED],
    [SET_UNAUTHENTICATED], [SET_ERROR]) ends the loading, and the error of
    an unauthenticated state is [null] unless a truthy one was given. *)
Theorem unauthenticated_state_holds_no_credentials (actions : list Auth.Action) :
  let state := foldl Auth.authReducer Auth.initialState actions in
  (Auth.isAuthenticated state = false →
   Auth.sessionId state = Some JNull ∧ Auth.credentials state = Some JNull) ∧
  (∀ action,
     match action with
     | Auth.SET_AUTHENTICATED _ _ | Auth.SET_UNAUTHENTICATED _ | Auth.SET_ERROR _ =>
         Auth.isLoading (Auth.authReducer state action) = false
     | _ => True
     end) ∧
  (∀ payload,
     Auth.error (Auth.authReducer state (Auth.SET_UNAUTHENTICATED payload)) = Some JNull ∨
     ∃ e, payload = Some (Some e) ∧ truthy_json e = true ∧
          Auth.error (Auth.authReducer state (Auth.SET_UNAUTHENTICATED payload)) = Some e).
Proof.
  intros state. split; [|split].
  - unfold state. clear state.
    induction actions as [|action rest IH] using rev_ind; [done|].
    rewrite foldl_app. cbn.
    destruct action; cbn; try done; exact IH.
  - by intros [].
  - intros [[e|]|]; cbn; try (by left).
    destruct (truthy_json e) eqn:He; [right; by exists e|by left].
Qed.

(** ** A save and the check that follows it *)

(** What [saveCredentials] does once the service has answered with a truthy
    [success], whatever the world the answer finds. *)
Lemma saveCredentials_resumed (sid : string) (credentials : json) (w : World) :
  credentials ≠ JNull →
  ∃ k,
    advance (saveCredentials sid credentials) w
    = (storeSummary credentials w, OnNet (SaveCredentials (saveBody sid credentials)) k) ∧
    ∀ d w2,
      truthy (member d "success") = true →
      advance (k (Data d)) w2
      = (dispatchEvent credentialsUpdated
           (set_globalLastCheck (clock w2)
              (set_globalCredentialStatus (Some (mkStatus true None))
                 (set_globalCredentialCheck None w2))),
         Finished (Resolved (VSaveResult true None))).
Proof.
  intros Hc.
  assert (broken (Data credentials) = false) as Hb by (by destruct credentials).
  unfold saveCredentials. rewrite !(get_data credentials _ Hb).
  unfold saveOdooCredentials, setItem, update, Date_now, ask. cbn.
  eexists. split; [reflexivity|]. intros d w2 Hs.
  assert (broken (Data d) = false) as Hd by (by destruct d).
  cbn. rewrite (get_data d "success" Hd). cbn. by rewrite Hs.
Qed.

(** X4: A successful save on a mounted hook is followed by a check.  When the
    service confirms the save, the promise resolves to [success: true], the
    cache says configured as of that moment with nothing in flight, and the
    [credentialsUpdated] listener of the hook has scheduled a forced check
    100 ms later.  When that timer fires, the check asks the service for
    the session of the latest render although the cache has just been
    written: a successful save costs two requests. *)
Theorem save_is_followed_by_a_check
    (sid : string) (credentials d : json) (m : Machine) :
  credentials ≠ JNull →
  truthy (member d "success") = true →
  isMounted (world m) = true →
  let p := length (promises m) in
  ∃ m2 m3,
    run [CallSave sid credentials; Respond p (Data d)] m = Some m2 ∧
    settled m2 p = Some (Resolved (VSaveResult true None)) ∧
    globalCredentialStatus (world m2) = Some (mkStatus true None) ∧
    globalLastCheck (world m2) = clock (world m) ∧
    globalCredentialCheck (world m2) = None ∧
    timers (world m2) = (timers (world m) ++ [ForcedCheck 100])%list ∧
    step (Fire (length (timers (world m)))) m2 = Some m3 ∧
    requests m3 = (requests m ++ [SaveCredentials (saveBody sid credentials);
                                  requestFor (ref_sessionId (world m))])%list ∧
    inFlight m3 (S p) = true.
Proof.
  intros Hc Hs Hm p.
  destruct (saveCredentials_resumed sid credentials (world m) Hc) as (k & Hk & Hres).
  set (m1 := (spawn 0 (saveCredentials sid credentials) m).1).
  assert (m1 = mkMachine (storeSummary credentials (world m))
                 (promises m ++ [mkEntry 0 (Paused (OnNet (SaveCredentials (saveBody sid credentials)) k))])
                 (requests m ++ [SaveCredentials (saveBody sid credentials)])) as Hm1.
  { unfold m1, spawn. by rewrite Hk. }
  set (w2 := dispatchEvent credentialsUpdated
               (set_globalLastCheck (clock (world m1))
                  (set_globalCredentialStatus (Some (mkStatus true None))
                     (set_globalCredentialCheck None (world m1))))).
  set (m2 := set_entry p (Paused (Finished (Resolved (VSaveResult true None))))
               (mkMachine w2 (promises m1) (requests m1))).
  assert (step (Respond p (Data d)) m1 = Some m2) as Hstep.
  { cbn [step]. rewrite Hm1 at 1. cbn [promises]. unfold p.
    rewrite list_lookup_middle by done. unfold resume.
    rewrite (Hres d (world m1) Hs). cbn [requested]. by rewrite app_nil_r. }
  assert (isMounted (world m1) = true) as Hm1m by (by rewrite Hm1).
  assert (w2 = setTimeout (ForcedCheck 100)
                 (set_dispatched (λ l, (l ++ [credentialsUpdated])%list)
                    (set_globalLastCheck (clock (world m1))
                       (set_globalCredentialStatus (Some (mkStatus true None))
                          (set_globalCredentialCheck None (world m1)))))) as Hw2.
  { unfold w2, dispatchEvent. cbn [isMounted set_dispatched set_globalLastCheck
      set_globalCredentialStatus set_globalCredentialCheck]. by rewrite Hm1m. }
  assert (timers w2 = (timers (world m) ++ [ForcedCheck 100])%list) as Htimers
    by (rewrite Hw2, Hm1; done).
  set (m2' := with_world (set_timers (delete (length (timers (world m)))) (world m2)) m2).
  assert (globalCredentialCheck (trackSession (ref_sessionId (world m2')) (world m2'))
          = None) as Hslot.
  { unfold trackSession. destruct (sessionChanged _ _); [done|].
    unfold m2'. cbn [world with_world globalCredentialCheck set_timers set_globalSessionId].
    change (world m2) with w2. by rewrite Hw2. }
  destruct (checkCredentials_fetches 0 (ref_sessionId (world m2')) true m2' Hslot
              (cachedStatus_forced _ _)) as (k3 & w3 & Hfetch & _).
  eexists m2, _. split.
  { cbn [run]. change (step (CallSave sid credentials) m) with (Some m1). cbv beta iota.
    by rewrite Hstep. }
  split.
  { unfold m2. apply settled_set_entry. cbn [promises]. rewrite Hm1. cbn [promises].
    unfold p. rewrite list_lookup_middle by done. eauto. }
  assert (world m2 = w2) as Hwm2 by done.
  rewrite Hwm2.
  split; [by rewrite Hw2|]. split; [rewrite Hw2, Hm1; done|].
  split; [by rewrite Hw2|]. split; [exact Htimers|].
  assert (ref_sessionId (world m2') = ref_sessionId (world m)) as Href.
  { unfold m2'. cbn [world with_world ref_sessionId set_timers].
    rewrite Hwm2, Hw2, Hm1. done. }
  assert (isMounted (world m2') = true) as Hmm.
  { unfold m2'. cbn [world with_world isMounted set_timers].
    rewrite Hwm2, Hw2. done. }
  split.
  { unfold step. rewrite Hwm2, Htimers, list_lookup_middle by done.
    rewrite <- Hwm2. fold m2'. unfold fire. rewrite Hmm. reflexivity. }
  rewrite Hfetch. cbn [fst requests]. rewrite <- Href. split.
  - unfold m2', m2. cbn [requests with_world set_entry]. rewrite Hm1. cbn [requests].
    by rewrite <- app_assoc.
  - unfold inFlight. cbn [promises].
    assert (length (promises m2') = S p) as Hlen.
    { unfold m2', m2. cbn [promises with_world set_entry]. rewrite length_alter, Hm1.
      cbn [promises]. rewrite length_app. cbn. unfold p. lia. }
    rewrite <- Hlen. by rewrite list_lookup_middle.
Qed.

Lemma save_is_followed_by_a_check_witness :
  let credentials := JObj [("url", JStr "https://x"); ("database", JStr "d");
                           ("username", JStr "u"); ("password", JStr "p")] in
  let d := JObj [("success", JBool true)] in
  let m := boot "s" 1000 in
  (credentials ≠ JNull ∧
   truthy (member d "success") = true ∧
   isMounted (world m) = true) ∧
  let p := length (promises m) in
  ∃ m2 m3,
    run [CallSave "s" credentials; Respond p (Data d)] m = Some m2 ∧
    settled m2 p = Some (Resolved (VSaveResult true None)) ∧
    globalCredentialStatus (world m2) = Some (mkStatus true None) ∧
    globalLastCheck (world m2) = clock (world m) ∧
    globalCredentialCheck (world m2) = None ∧
    timers (world m2) = (timers (world m) ++ [ForcedCheck 100])%list ∧
    step (Fire (length (timers (world m)))) m2 = Some m3 ∧
    requests m3 = (requests m ++ [SaveCredentials (saveBody "s" credentials);
                                  requestFor (ref_sessionId (world m))])%list ∧
    inFlight m3 (S p) = true.
Proof.
  cbv zeta.
  assert (JObj [("url", JStr "https://x"); ("database", JStr "d");
                ("username", JStr "u"); ("password", JStr "p")] ≠ JNull) as H1 by done.
  split; [by repeat split|].
  exact (save_is_followed_by_a_check "s" _ (JObj [("success", JBool true)])
           (boot "s" 1000) H1 eq_refl eq_refl).
Defined.

(** ** The prober asks once per session *)

Lemma requestFor_inj : Inj (=) (=) requestFor.
Proof.
  intros a b. unfold requestFor.
  destruct (String.eqb_spec a ""), (String.eqb_spec b ""); cbn; congruence.
Qed.

Lemma NoDup_candidates (sid : string) : NoDup (candidates sid).
Proof.
  unfold candidates, commonSessions. cbn.
  destruct (String.eqb_spec "8428094f-8aeb-4bad-aa6d-6a838a3c9192" sid) as [H1|H1];
    destruct (String.eqb_spec "fc208a99-36eb-4b0f-9e9a-b49cd882b943" sid) as [H2|H2];
    cbn; try congruence;
    repeat (apply NoDup_cons_2;
            [let H := fresh in
             intros H; repeat (apply elem_of_cons in H as [H|H]; [congruence|]);
             by apply elem_of_nil in H|]);
    apply NoDup_nil_2.
Qed.

(** X10: In one recovery cycle the prober never asks about the same session
    twice: the current session is left out of the literal ones, so that its
    requests are pairwise different. *)
Theorem prober_asks_once_per_session (sid : string) :
  always (findAvailableSession sid) (λ t _, NoDup (asks t).*1) ∧
  always (recoverSession sid (updateSessionId sid)) (λ t _, NoDup (asks t).*1).
Proof.
  assert (always (findAvailableSession sid) (λ t _, NoDup (asks t).*1)) as Hfind.
  { eapply always_mono; [|apply findAvailableSession_runs].
    intros t o [(_ & _ & _ & -> & _) _].
    apply (@NoDup_fmap_2 _ _ requestFor requestFor_inj).
    apply (sublist_NoDup (take (length (asks t)) (candidates sid)) (candidates sid));
      [apply NoDup_candidates|apply sublist_take]. }
  split; [exact Hfind|].
  unfold recoverSession, updateSessionId, setItem, update.
  apply always_bind. eapply always_mono; [|exact Hfind].
  intros t [[|c credentials]|e] Ht; lazy beta iota; cbn [negb].
  - cbn. by rewrite app_nil_r.
  - destruct (negb (String.eqb c sid)); [|cbn; by rewrite app_nil_r].
    cbn [mbind Prog_bind bind].
    apply always_get; [intros e; by rewrite asks_app; autorewrite with events;
                                    rewrite app_nil_r|].
    intros url. apply always_get; [intros e; by rewrite asks_app; autorewrite with events;
                                    rewrite app_nil_r|].
    intros database.
    apply always_get; [intros e; by rewrite asks_app; autorewrite with events;
                                    rewrite app_nil_r|].
    intros username. cbn. rewrite asks_app. autorewrite with events. by rewrite app_nil_r.
  - done.
Qed.


(** ** When nothing is confirmed *)

(** X17: A check to which no reply confirms credentials reports not configured:
    it resolves to [false], makes no re-check and asks at most five
    times. *)
Theorem unconfirmed_check_reports_not_configured (sid : string) (now : Z) :
  always (fetchCredentials sid now) (λ t o,
    (∀ r x, (r, x) ∈ asks t → confirmed x = None) →
    o = Resolved (VBool false) ∧ rechecks t = [] ∧ (length (asks t) ≤ 5)%nat).
Proof.
  eapply always_mono; [|apply fetchCredentials_runs].
  intros t o [x Hx|x Hb Hx|pre x Hpre Hx|pre x j Hpre Hx|pre x tr Hpre Hb Hx Hrec
             |pre x tr v Hpre Hb Hx Hrec|pre x tr e Hpre Hb Hx Hrec];
    try (destruct (asks_LocalPart sid pre Hpre) as (Hpr & Hpa & _));
    try (destruct Hrec as (Hrr & Hra & Hrw));
    autorewrite with events; rewrite ?app_nil_r; cbn;
    rewrite ?Hpr, ?Hrr; cbn; intros Hno.
  - destruct Hx as [c Hc]. rewrite (Hno (requestFor sid) x) in Hc; [done|find_elem].
  - split; [done|]. split; [done|lia].
  - split; [done|]. split; [done|]. rewrite length_app. cbn. lia.
  - rewrite (Hno (requestFor sid) x) in Hx; [done|find_elem].
  - split; [done|]. split; [done|]. rewrite length_app. cbn. lia.
  - destruct Hrw as [[? _]|(c & y & j & _ & Hl & Hy & _)]; [done|].
    apply last_Some in Hl as [l' Hl].
    rewrite (Hno (requestFor c) y) in Hy; [done|]. rewrite Hl. find_elem.
  - destruct Hrw as [[? _]|(c & y & j & _ & Hl & Hy & _)]; [done|].
    apply last_Some in Hl as [l' Hl].
    rewrite (Hno (requestFor c) y) in Hy; [done|]. rewrite Hl. find_elem.
Qed.

(** A page on which nobody has credentials: the check asks for its session,
    the prober asks again and tries the two literal sessions, and the check
    resolves to [false]. *)
Example check_when_nobody_has_credentials :
  exec (holding []) (fetchCredentials "s" 1000) (freshWorld "s" 1000) []
  = (set_globalCredentialCheck None
       (setGlobalStatus (mkStatus false None) 1000 (freshWorld "s" 1000)),
     [GetCredentials (Some "s"); GetCredentials (Some "s");
      GetCredentials (Some "8428094f-8aeb-4bad-aa6d-6a838a3c9192");
      GetCredentials (Some "fc208a99-36eb-4b0f-9e9a-b49cd882b943")],
     Finished (Resolved (VBool false))).
Proof. vm_compute. done. Qed.

(** ** A recovery and what a reload finds *)


(** X18: A recovery is persistent.  Whatever the service answers, a
    [recoverSession] that returns [false] has changed nothing; one that
    returns [true] has moved the page to one of the two literal sessions,
    other than the current one, for which the service confirmed
    credentials: the context holds that session, a page load would read it
    back with [getOrCreateSessionId], [hasAttemptedConfiguration] is
    [true], and [getStoredCredentials] returns the [url], [database] and
    [username] of the confirmed credentials. *)
Theorem recovery_is_persistent
    (remote : Remote) (sid uuid : string) (w : World) (log : list NetRequest) :
  let '(w', log', at_) := exec remote (recoverSession sid (updateSessionId sid)) w log in
  (at_ = Finished (Resolved false) ∧ w' = w) ∨
  (∃ c j history,
     at_ = Finished (Resolved true) ∧
     c ∈ commonSessions ∧ c ≠ sid ∧
     last log' = Some (requestFor c) ∧
     confirmed (remote history (requestFor c)) = Some (Some j) ∧
     chat_sessionId w' = c ∧
     advance (getOrCreateSessionId uuid) w' = (w', Finished (Resolved (Text c))) ∧
     advance hasAttemptedConfiguration w' = (w', Finished (Resolved true)) ∧
     advance getStoredCredentials w'
     = (w', Finished (Resolved
          (JObj [("url", or_empty (member j "url"));
                 ("database", or_empty (member j "database"));
                 ("username", or_empty (member j "username"))])))).
Proof.
  pose proof (exec_always remote (recoverSession sid (updateSessionId sid)) _ w log
                (always_and _ _ _ (recoverSession_runs sid) (onlyAsks_recoverSession sid)))
    as Hrun.
  destruct (exec_finishes remote (recoverSession sid (updateSessionId sid)) w log)
    as (w' & log' & o & Hexec).
  { eapply always_mono; [|apply recoverSession_runs].
    intros t o' (b & _ & Hr & _). exact Hr. }
  rewrite Hexec in Hrun |- *.
  destruct Hrun as (t & [(b & -> & _ & _ & Hrec) Hreads] & -> & -> & Hans).
  destruct Hrec as [[-> Hw]|(c & x & j & Hc & Hl & Hx & -> & Hw)].
  { left. by rewrite Hw. }
  right.
  assert ((requestFor c, x) ∈ asks t) as Hin.
  { apply last_Some in Hl as [l' ->]. find_elem. }
  assert (c ∈ commonSessions) as Hcs.
  { rewrite Forall_forall in Hreads.
    destruct (Hreads (requestFor c)) as (c' & Hc' & Heq).
    - apply list_elem_of_fmap. by exists (requestFor c, x).
    - apply requestFor_inj in Heq as <-.
      apply elem_of_cons in Hc' as [?|?]; done. }
  assert (∃ history, x = remote history (requestFor c)) as [history Hhist].
  { rewrite Forall_forall in Hans. apply (Hans _ Hin). }
  assert (negb (String.eqb c "") = true) as Hne.
  { unfold commonSessions in Hcs.
    repeat (apply elem_of_cons in Hcs as [->|Hcs]; [done|]).
    by apply elem_of_nil in Hcs. }
  exists c, j, history. split; [done|]. split; [done|]. split; [done|].
  split.
  { apply last_Some in Hl as [l' Hl]. rewrite Hl, fmap_app, app_assoc. cbn.
    apply last_snoc. }
  split; [by rewrite <- Hhist|].
  rewrite Hw. unfold rotation. cbn [foldl].
  set (w1 := set_localStorage _ (setTimeout _ _)).
  assert (localStorage (dispatchEvent credentialsUpdated w1) = localStorage w1 ∧
          chat_sessionId (dispatchEvent credentialsUpdated w1) = chat_sessionId w1)
    as [Hls Hchat].
  { unfold dispatchEvent. cbn. by destruct (isMounted _). }
  split; [by rewrite Hchat|].
  split.
  { unfold getOrCreateSessionId, getItem, ask. cbn [advance bind mbind Prog_bind].
    rewrite Hls. unfold w1. cbn [localStorage set_localStorage setTimeout set_timers
                                 chatReducer_UPDATE_SESSION_ID set_chat_sessionId].
    rewrite lookup_insert_ne by done. rewrite lookup_insert_eq.
    cbn [truthy_item]. by rewrite Hne. }
  assert (localStorage (dispatchEvent credentialsUpdated w1) !! "odoo_credentials"
          = Some (JsonText (credentialSummary (member j "url") (member j "database")
                                              (member j "username")))) as Hsum.
  { rewrite Hls. unfold w1. cbn [localStorage set_localStorage]. apply lookup_insert_eq. }
  split.
  - unfold hasAttemptedConfiguration, getItem, ask. cbn [advance bind mbind Prog_bind].
    by rewrite Hsum.
  - rewrite getStoredCredentials_returns, Hsum.
    by destruct (member_credentialSummary (member j "url") (member j "database")
                   (member j "username")) as (-> & -> & ->).
Qed.


(** ** The stored summary at the start of a fetch *)

(** X19: Before its first request, which is always for the session of the call,
    a fetch removes a stored summary that is not JSON or that lacks a
    truthy [url], [database] or [username] ([null] included); it leaves a
    complete summary, an empty string and an absent summary as they are,
    and changes nothing else. *)
Theorem fetch_discards_a_broken_summary (sid : string) (now : Z) (w : World) :
  ∃ k,
    advance (fetchCredentials sid now) w
    = (match localStorage w !! "odoo_credentials" with
       | None => w
       | Some (Text s) => if String.eqb s "" then w else discardSummary w
       | Some (JsonText summary) =>
           if forallb (λ field, truthy (member summary field)) requiredFields
           then w else discardSummary w
       end,
       OnNet (requestFor sid) k).
Proof.
  unfold fetchCredentials, getItem, ask, checkLocalCredentials.
  cbn -[every forallb]. unfold discardSummary.
  destruct (localStorage w !! "odoo_credentials") as [[s|j0]|] eqn:Hitem;
    cbn -[every forallb].
  - destruct (String.eqb s ""); cbn -[every forallb]; eexists; reflexivity.
  - destruct (broken (Data j0)) eqn:Hj0.
    + destruct j0; try done. cbn. eexists; reflexivity.
    + rewrite (every_requiredFields j0 Hj0).
      destruct (forallb (λ field, truthy (member j0 field)) requiredFields); cbn;
        eexists; reflexivity.
  - eexists; reflexivity.
Qed.
